(** * gameloop: the tick engine of [src/lib/model.ts]

    A shallow embedding of the [Model] class and of the unexported
    functions [reset], [checkCanPlay], [stopAndCancelTimer], [complete]
    and [updateToTick], followed by theorems about them.

    Modelling choices.
    - JavaScript numbers used as ticks, sizes, handles and timestamps are
      integers ([Z]); [maxTime] may also be [Infinity] (the demo uses it).
    - State records are mutable objects reached through references:
      [this.state] is a reference that [stop()] re-binds to a fresh
      record while a running [updateToTick] keeps the record it was
      given.  The store therefore maps addresses to records, and
      [cachedData] objects live in a second store because [reset] may
      hand the same object to the new record.
    - The user callbacks are functions of their arguments.  The
      capabilities a transition function invokes ([complete], [stop],
      [pause]) return nothing, so the callback is a function from its
      arguments to the returned data together with the sequence of
      capability calls it makes before returning.
    - The host clock ([requestAnimationFrame], [cancelAnimationFrame]) is
      the list of outstanding handles and a counter of issued handles.
    - The render hook is an observer: every invocation is logged. *)

From stdpp Require Import gmap strings list functions.
From Stdlib Require Import ZArith Lia.

Open Scope Z_scope.

(** ** Data model *)

(** [type Param = boolean | number | string | null] *)
Inductive Param : Type :=
  | PBool (b : bool)
  | PNum (n : Z)
  | PStr (s : string)
  | PNull.

(** [maxTime: number], where [Infinity] is a value in use. *)
Inductive Limit : Type :=
  | Finite (z : Z)
  | Infinity.

(** [tick > maxTime] *)
Definition exceeds (tick : Z) (maxTime : Limit) : bool :=
  match maxTime with
  | Finite m => m <? tick
  | Infinity => false
  end.

(** [a ?? b] *)
Definition nullish {A : Type} (a : option A) (b : A) : A :=
  match a with
  | Some x => x
  | None => b
  end.

(** Truthiness of a [number | null] handle: [null] and [0] are falsy. *)
Definition truthy (h : option Z) : option Z :=
  match h with
  | Some x => if x =? 0 then None else Some x
  | None => None
  end.

Section Types.

Context {T U : Type}.

(** [ModelState<T, U>]; [cachedData] holds the address of the object. *)
Record ModelState : Type := mkState {
  cachedData : nat;
  cachedDataKeys : gset Z;
  cachedDataKeysQueue : list Z;
  canPlay : bool;
  data : T;
  isPlaying : option bool;
  maxTick : Z;
  params : gmap string Param;
  results : list U;
  tick : Z;
  time : option Z;
  timer : option Z
}.

Definition set_cachedDataKeys (v : gset Z) (s : ModelState) : ModelState :=
  mkState (cachedData s) v (cachedDataKeysQueue s) (canPlay s) (data s)
    (isPlaying s) (maxTick s) (params s) (results s) (tick s) (time s) (timer s).

Definition set_cachedDataKeysQueue (v : list Z) (s : ModelState) : ModelState :=
  mkState (cachedData s) (cachedDataKeys s) v (canPlay s) (data s)
    (isPlaying s) (maxTick s) (params s) (results s) (tick s) (time s) (timer s).

Definition set_canPlay (v : bool) (s : ModelState) : ModelState :=
  mkState (cachedData s) (cachedDataKeys s) (cachedDataKeysQueue s) v (data s)
    (isPlaying s) (maxTick s) (params s) (results s) (tick s) (time s) (timer s).

Definition set_data (v : T) (s : ModelState) : ModelState :=
  mkState (cachedData s) (cachedDataKeys s) (cachedDataKeysQueue s) (canPlay s) v
    (isPlaying s) (maxTick s) (params s) (results s) (tick s) (time s) (timer s).

Definition set_isPlaying (v : option bool) (s : ModelState) : ModelState :=
  mkState (cachedData s) (cachedDataKeys s) (cachedDataKeysQueue s) (canPlay s) (data s)
    v (maxTick s) (params s) (results s) (tick s) (time s) (timer s).

Definition set_maxTick (v : Z) (s : ModelState) : ModelState :=
  mkState (cachedData s) (cachedDataKeys s) (cachedDataKeysQueue s) (canPlay s) (data s)
    (isPlaying s) v (params s) (results s) (tick s) (time s) (timer s).

Definition set_params (v : gmap string Param) (s : ModelState) : ModelState :=
  mkState (cachedData s) (cachedDataKeys s) (cachedDataKeysQueue s) (canPlay s) (data s)
    (isPlaying s) (maxTick s) v (results s) (tick s) (time s) (timer s).

Definition set_results (v : list U) (s : ModelState) : ModelState :=
  mkState (cachedData s) (cachedDataKeys s) (cachedDataKeysQueue s) (canPlay s) (data s)
    (isPlaying s) (maxTick s) (params s) v (tick s) (time s) (timer s).

Definition set_tick (v : Z) (s : ModelState) : ModelState :=
  mkState (cachedData s) (cachedDataKeys s) (cachedDataKeysQueue s) (canPlay s) (data s)
    (isPlaying s) (maxTick s) (params s) (results s) v (time s) (timer s).

Definition set_time (v : option Z) (s : ModelState) : ModelState :=
  mkState (cachedData s) (cachedDataKeys s) (cachedDataKeysQueue s) (canPlay s) (data s)
    (isPlaying s) (maxTick s) (params s) (results s) (tick s) v (timer s).

Definition set_timer (v : option Z) (s : ModelState) : ModelState :=
  mkState (cachedData s) (cachedDataKeys s) (cachedDataKeysQueue s) (canPlay s) (data s)
    (isPlaying s) (maxTick s) (params s) (results s) (tick s) (time s) v.

(** [RenderDataArgs<T>]: what [updateData] and [render] are given.  The
    [cachedData] field is the content of the object at the time of the
    call. *)
Record RenderDataArgs : Type := mkArgs {
  arg_cachedData : gmap Z T;
  arg_data : T;
  arg_tick : Z;
  arg_params : gmap string Param
}.

(** The three capabilities of [UpdateData<T, U>]. *)
Inductive Capability : Type :=
  | CallComplete (result : U)
  | CallStop
  | CallPause.

(** [ModelProps<T, U>], after the defaults have been merged in.  The
    [render] property is the observer whose calls the world logs. *)
Record ModelProps : Type := mkProps {
  clearsDataCacheOnReset : bool;
  clearsResultsCacheOnReset : bool;
  dataCacheSize : Z;
  delay : Z;
  initialTick : Z;
  maxTime : Limit;
  minTime : Z;
  resetsOnChange : bool;
  resultsCacheSize : Z;
  ticksPerAnimation : Z;
  initData : gmap string Param -> T;
  updateData : RenderDataArgs -> T * list Capability;
  initialParams : option (gmap string Param)
}.

(** [defaultProps], with the two callbacks the constructor requires. *)
Definition defaultProps (init : gmap string Param -> T)
    (update : RenderDataArgs -> T * list Capability) : ModelProps :=
  {| clearsDataCacheOnReset := true;
     clearsResultsCacheOnReset := true;
     dataCacheSize := 0;
     delay := 0;
     initialTick := 0;
     maxTime := Finite 100;
     minTime := 0;
     resetsOnChange := true;
     resultsCacheSize := 0;
     ticksPerAnimation := 1;
     initData := init;
     updateData := update;
     initialParams := None |}.

(** The store: state records and [cachedData] objects by address, the
    binding of [this.state], the host clock, and the log of callback
    invocations. *)
Record World : Type := mkWorld {
  records : nat -> ModelState;
  next_record : nat;
  objects : nat -> gmap Z T;
  next_object : nat;
  this_state : nat;
  pending : list Z;
  next_handle : Z;
  updated : list RenderDataArgs;
  rendered : list RenderDataArgs
}.

Definition set_records (v : nat -> ModelState) (w : World) : World :=
  mkWorld v (next_record w) (objects w) (next_object w) (this_state w)
    (pending w) (next_handle w) (updated w) (rendered w).

Definition set_objects (v : nat -> gmap Z T) (w : World) : World :=
  mkWorld (records w) (next_record w) v (next_object w) (this_state w)
    (pending w) (next_handle w) (updated w) (rendered w).

Definition set_this_state (v : nat) (w : World) : World :=
  mkWorld (records w) (next_record w) (objects w) (next_object w) v
    (pending w) (next_handle w) (updated w) (rendered w).

Definition set_pending (v : list Z) (w : World) : World :=
  mkWorld (records w) (next_record w) (objects w) (next_object w) (this_state w)
    v (next_handle w) (updated w) (rendered w).

(** The record [this.state] refers to. *)
Definition cur (w : World) : ModelState := records w (this_state w).

(** A field assignment [state.f = v] on the record at [state]. *)
Definition modify (state : nat) (f : ModelState -> ModelState) (w : World) : World :=
  set_records (<[state := f (records w state)]> (records w)) w.

(** A mutation of the [cachedData] object at [o]. *)
Definition mutate (o : nat) (f : gmap Z T -> gmap Z T) (w : World) : World :=
  set_objects (<[o := f (objects w o)]> (objects w)) w.

(** An object literal for a state record. *)
Definition new_record (s : ModelState) (w : World) : nat * World :=
  (next_record w,
   mkWorld (<[next_record w := s]> (records w)) (S (next_record w)) (objects w)
     (next_object w) (this_state w) (pending w) (next_handle w) (updated w)
     (rendered w)).

(** The literal [{}] for a [cachedData] object. *)
Definition new_object (w : World) : nat * World :=
  (next_object w,
   mkWorld (records w) (next_record w) (<[next_object w := ∅]> (objects w))
     (S (next_object w)) (this_state w) (pending w) (next_handle w) (updated w)
     (rendered w)).

(** [window.requestAnimationFrame(cb)] *)
Definition requestAnimationFrame (w : World) : Z * World :=
  (next_handle w,
   mkWorld (records w) (next_record w) (objects w) (next_object w) (this_state w)
     (pending w ++ [next_handle w]) (next_handle w + 1) (updated w) (rendered w)).

(** [window.cancelAnimationFrame(h)] *)
Definition cancelAnimationFrame (h : Z) (w : World) : World :=
  set_pending (filter (fun x => x ≠ h) (pending w)) w.

Definition log_update (a : RenderDataArgs) (w : World) : World :=
  mkWorld (records w) (next_record w) (objects w) (next_object w) (this_state w)
    (pending w) (next_handle w) (updated w ++ [a]) (rendered w).

Definition log_render (a : RenderDataArgs) (w : World) : World :=
  mkWorld (records w) (next_record w) (objects w) (next_object w) (this_state w)
    (pending w) (next_handle w) (updated w) (rendered w ++ [a]).

End Types.

Arguments ModelState : clear implicits.
Arguments RenderDataArgs : clear implicits.
Arguments Capability : clear implicits.
Arguments ModelProps : clear implicits.
Arguments World : clear implicits.
Arguments cur {T U} w : simpl never.
Arguments modify {T U} state f w : simpl never.
Arguments mutate {T U} o f w : simpl never.
Arguments cancelAnimationFrame {T U} h w : simpl never.
Arguments log_update {T U} a w : simpl never.
Arguments log_render {T U} a w : simpl never.

(** ** The engine *)

Section Engine.

Context {T U : Type}.
Variable props : ModelProps T U.

Abbreviation State := (ModelState T U).
Abbreviation world := (World T U).

(** [reset(props, state?)]: builds the new record and returns its
    address; the caller decides whether to bind it. *)
Definition reset (state : option nat) (w : world) : nat * world :=
  let st := records w <$> state in
  let params :=
    match st with
    | Some s => params s
    | None => nullish (initialParams props) ∅
    end in
  let data := initData props params in
  let tick := nullish (Some (initialTick props)) (nullish (Some (minTime props)) 0) in
  let '(dataCache, w) :=
    match st with
    | Some s =>
        if clearsDataCacheOnReset props
        then let '(o, w) := new_object w in ((o, ∅, []), w)
        else ((cachedData s, cachedDataKeys s, cachedDataKeysQueue s), w)
    | None => let '(o, w) := new_object w in ((o, ∅, []), w)
    end in
  let resultsCache :=
    match st with
    | Some s => if clearsResultsCacheOnReset props then [] else results s
    | None => []
    end in
  new_record
    {| cachedData := dataCache.1.1;
       cachedDataKeys := dataCache.1.2;
       cachedDataKeysQueue := dataCache.2;
       results := resultsCache;
       canPlay := true;
       data := data;
       isPlaying := match st with Some s => isPlaying s | None => None end;
       maxTick := tick;
       params := params;
       tick := tick;
       time := None;
       timer := None |} w.

(** [checkCanPlay(tick, maxTime, state)] *)
Definition checkCanPlay (tick : Z) (maxTime : Limit) (state : nat) (w : world)
    : bool * world :=
  if negb (canPlay (records w state)) || exceeds tick maxTime then
    let w := modify state (set_canPlay false) w in
    let w := modify state (set_isPlaying (Some false)) w in
    (false, w)
  else (true, w).

(** [stopAndCancelTimer(state)] *)
Definition stopAndCancelTimer (state : nat) (w : world) : world :=
  match truthy (timer (records w state)) with
  | Some h =>
      let w := cancelAnimationFrame h w in
      modify state (set_timer None) w
  | None => w
  end.

(** [complete(result, state, props, stop)] *)
Definition complete (result : U) (state : nat) (stop : world -> world)
    (w : world) : world :=
  let w :=
    if 0 <? resultsCacheSize props then
      let w := modify state (fun s => set_results (results s ++ [result]) s) w in
      if resultsCacheSize props <? Z.of_nat (length (results (records w state)))
      then modify state (fun s => set_results (tail (results s)) s) w
      else w
    else w in
  let w := modify state (set_canPlay false) w in
  stop w.

(** One capability call made by the transition function; [complete] is
    the closure [(result) => complete(result, state, props, stop)]. *)
Definition invoke (state : nat) (stop pause : world -> world)
    (c : Capability U) (w : world) : world :=
  match c with
  | CallComplete result => complete result state stop w
  | CallStop => stop w
  | CallPause => pause w
  end.

(** The block guarded by [props.dataCacheSize > 0] in the loop of
    [updateToTick]. *)
Definition cacheTick (state : nat) (tick : Z) (data : T) (w : world) : world :=
  if 0 <? dataCacheSize props then
    let w := modify state (set_maxTick tick) w in
    let w := modify state
               (fun s => set_cachedDataKeysQueue (cachedDataKeysQueue s ++ [tick]) s) w in
    let w :=
      if Z.of_nat (length (cachedDataKeysQueue (records w state))) <=? dataCacheSize props
      then modify state (fun s => set_cachedDataKeys ({[tick]} ∪ cachedDataKeys s) s) w
      else
        let toRemove := head (cachedDataKeysQueue (records w state)) in
        let w := modify state
                   (fun s => set_cachedDataKeysQueue (tail (cachedDataKeysQueue s)) s) w in
        match truthy toRemove with
        | Some r =>
            let w := mutate (cachedData (records w state)) (delete r) w in
            modify state (fun s => set_cachedDataKeys (cachedDataKeys s ∖ {[r]}) s) w
        | None => w
        end in
    mutate (cachedData (records w state)) (<[tick := data]>) w
  else w.

(** The [while] loop of [updateToTick].  [n] is the number of ticks
    still missing to the target: the test [tick < target] is [n <> 0],
    and [tick++] takes one off. *)
Fixpoint stepping (n : nat) (shouldStop : bool) (state : nat)
    (stop pause render : world -> world) (tick : Z) (data : T) (w : world)
    : world :=
  match n with
  | O => w
  | S n =>
      let '(ok, w) := checkCanPlay tick (maxTime props) state w in
      if ok then
        let tick := tick + 1 in
        let args :=
          {| arg_cachedData := objects w (cachedData (records w state));
             arg_data := data;
             arg_tick := tick;
             arg_params := params (records w state) |} in
        let '(data, calls) := updateData props args in
        let w := log_update args w in
        let w := foldl (fun w c => invoke state stop pause c w) w calls in
        let w := cacheTick state tick data w in
        let w := modify state (set_data data) w in
        let w := modify state (set_tick tick) w in
        let w := if shouldStop then modify state (set_isPlaying (Some false)) w else w in
        let w := render w in
        stepping n shouldStop state stop pause render tick data w
      else w
  end.

(** [updateToTick({target, shouldStop, state, props, stop, pause, render})].
    In the first branch the source assigns its local variables [data]
    and [tick] and returns. *)
Definition updateToTick (target : Z) (shouldStop : bool) (state : nat)
    (stop pause render : world -> world) (w : world) : world :=
  let data := data (records w state) in
  if bool_decide (target ∈ cachedDataKeys (records w state)) then
    let data := objects w (cachedData (records w state)) !! target in
    let tick := target in
    w
  else
    let tick :=
      if bool_decide (maxTick (records w state) ∈ cachedDataKeys (records w state))
      then maxTick (records w state)
      else tick (records w state) in
    stepping (Z.to_nat (target - tick)) shouldStop state stop pause render tick data w.

(** *** The methods of [Model] *)

(** [pause()] *)
Definition pause (w : world) : world :=
  let w := stopAndCancelTimer (this_state w) w in
  modify (this_state w) (set_isPlaying (Some false)) w.

(** [stop()] *)
Definition stop (w : world) : world :=
  let w := stopAndCancelTimer (this_state w) w in
  let w := modify (this_state w) (set_isPlaying (Some false)) w in
  let '(fresh, w) := reset (Some (this_state w)) w in
  set_this_state fresh w.

(** [render()] *)
Definition render (w : world) : world :=
  log_render
    {| arg_cachedData := objects w (cachedData (cur w));
       arg_data := data (cur w);
       arg_params := params (cur w);
       arg_tick := tick (cur w) |} w.

(** [play()] *)
Definition play (w : world) : world :=
  let w := modify (this_state w) (set_isPlaying (Some true)) w in
  let '(h, w) := requestAnimationFrame w in
  modify (this_state w) (set_timer (Some h)) w.

(** [advance(timestamp)] *)
Definition advance (timestamp : Z) (w : world) : world :=
  let '(ok, w) := checkCanPlay (tick (cur w)) (maxTime props) (this_state w) w in
  if ok then
    let w :=
      match time (cur w) with
      | None => modify (this_state w) (set_time (Some timestamp)) w
      | Some _ => w
      end in
    let w :=
      if delay props <=? timestamp - nullish (time (cur w)) 0 then
        let w := modify (this_state w) (set_time (Some timestamp)) w in
        updateToTick (tick (cur w) + ticksPerAnimation props) false (this_state w)
          stop pause render w
      else w in
    match isPlaying (cur w) with
    | Some true =>
        let w :=
          match truthy (timer (cur w)) with
          | Some h => cancelAnimationFrame h w
          | None => w
          end in
        let '(h, w) := requestAnimationFrame w in
        modify (this_state w) (set_timer (Some h)) w
    | _ => w
    end
  else w.

(** [setData(data)] *)
Definition setData (d : T) (w : world) : world :=
  let w := modify (this_state w) (set_data d) w in
  let w := stopAndCancelTimer (this_state w) w in
  let w := modify (this_state w) (set_isPlaying (Some false)) w in
  modify (this_state w) (set_tick (initialTick props)) w.

(** [setParams(updatedParams)]: the record [reset] returns is not bound. *)
Definition setParams (updatedParams : gmap string Param) (w : world) : world :=
  let w := modify (this_state w) (fun s => set_params (updatedParams ∪ params s) s) w in
  if resetsOnChange props then
    let '(_, w) := reset (Some (this_state w)) w in
    w
  else w.

(** [setTick(target)] *)
Definition setTick (target : Z) (w : world) : world :=
  let w := stopAndCancelTimer (this_state w) w in
  updateToTick target true (this_state w) stop pause render w.

(** [new Model(props)]: before the constructor runs, no address is
    allocated and every cell holds [blank]. *)
Definition blank : State :=
  {| cachedData := 0%nat; cachedDataKeys := ∅; cachedDataKeysQueue := [];
     canPlay := false; data := initData props ∅; isPlaying := None;
     maxTick := 0; params := ∅; results := []; tick := 0;
     time := None; timer := None |}.

Definition boot : world :=
  {| records := fun _ => blank; next_record := 0%nat;
     objects := fun _ => ∅; next_object := 0%nat;
     this_state := 0%nat; pending := []; next_handle := 1;
     updated := []; rendered := [] |}.

Definition new_Model : world :=
  let '(fresh, w) := reset None boot in
  set_this_state fresh w.

(** *** The host clock and the public operations *)

(** The host runs the oldest outstanding callback with a timestamp. *)
Definition frame (timestamp : Z) (w : world) : world :=
  match pending w with
  | [] => w
  | _ :: rest => advance timestamp (set_pending rest w)
  end.

Inductive Op : Type :=
  | Play
  | Pause
  | Stop
  | SetTick (target : Z)
  | SetParams (updatedParams : gmap string Param)
  | SetData (d : T)
  | Frame (timestamp : Z).

Definition run (o : Op) (w : world) : world :=
  match o with
  | Play => play w
  | Pause => pause w
  | Stop => stop w
  | SetTick target => setTick target w
  | SetParams updatedParams => setParams updatedParams w
  | SetData d => setData d w
  | Frame timestamp => frame timestamp w
  end.

Definition runs (os : list Op) (w : world) : world :=
  foldl (fun w o => run o w) w os.

End Engine.

Arguments Op : clear implicits.

(** ** The incrementer of [test/model.test.ts] *)

Definition incrementerInitData (_ : gmap string Param) : Z := 0.

Definition incrementerUpdateData (a : RenderDataArgs Z) : Z * list (Capability unit) :=
  (arg_data a + 1, []).

Definition incrementer : ModelProps Z unit :=
  let p := defaultProps incrementerInitData incrementerUpdateData in
  mkProps (clearsDataCacheOnReset p) (clearsResultsCacheOnReset p) (dataCacheSize p)
    (delay p) (initialTick p) (Finite 10) (minTime p) (resetsOnChange p)
    (resultsCacheSize p) (ticksPerAnimation p) (initData p) (updateData p)
    (initialParams p).

(** The same engine with a data cache of [size] entries. *)
Definition cachingIncrementer (size : Z) : ModelProps Z unit :=
  mkProps true true size 0 0 (Finite 10) 0 true 0 1
    incrementerInitData incrementerUpdateData None.

(** The same engine started one tick early, with a cache of one entry. *)
Definition earlyIncrementer : ModelProps Z unit :=
  mkProps true true 1 0 (-1) (Finite 10) 0 true 0 1
    incrementerInitData incrementerUpdateData None.

(** The same engine, whose parameters change without a reset. *)
Definition liveIncrementer : ModelProps Z unit :=
  mkProps true true 0 0 0 (Finite 10) 0 false 0 1
    incrementerInitData incrementerUpdateData None.

(** A simulation that completes at every tick with the tick as its
    result, and keeps [size] results. *)
Definition finisherUpdateData (a : RenderDataArgs Z) : Z * list (Capability Z) :=
  (arg_data a + 1, [CallComplete (arg_tick a)]).

Definition finisher (size : Z) (clearsResults : bool) : ModelProps Z Z :=
  mkProps true clearsResults 0 0 0 (Finite 10) 0 true size 1
    incrementerInitData finisherUpdateData None.

(** A simulation that asks for a pause at every tick. *)
Definition pauserUpdateData (a : RenderDataArgs Z) : Z * list (Capability Z) :=
  (arg_data a + 1, [CallPause]).

Definition pauser : ModelProps Z Z :=
  mkProps true true 0 0 0 (Finite 10) 0 true 0 1
    incrementerInitData pauserUpdateData None.

(** A simulation that asks for a stop on tick 1. *)
Definition stopperUpdateData (a : RenderDataArgs Z) : Z * list (Capability Z) :=
  (arg_data a + 1, if arg_tick a =? 1 then [CallStop] else []).

Definition stopper : ModelProps Z Z :=
  mkProps true true 0 0 0 (Finite 10) 0 true 0 1
    incrementerInitData stopperUpdateData None.

(** A simulation that completes at every tick with the data it was given
    as its result, keeps [size] results and does not clear them. *)
Definition reporterUpdateData (a : RenderDataArgs Z) : Z * list (Capability Z) :=
  (arg_data a + 1, [CallComplete (arg_data a)]).

Definition reporter (size : Z) : ModelProps Z Z :=
  mkProps true false 0 0 0 (Finite 10) 0 true size 1
    incrementerInitData reporterUpdateData None.

(** A simulation that signals two completions in one call of the
    transition function. *)
Definition twiceUpdateData (a : RenderDataArgs Z) : Z * list (Capability Z) :=
  (arg_data a + 1, [CallComplete 7; CallComplete 8]).

Definition twice (size : Z) : ModelProps Z Z :=
  mkProps true false 0 0 0 (Finite 10) 0 true size 1
    incrementerInitData twiceUpdateData None.

(** A simulation that calls [stop()] on tick 1 and completes with 7 on
    tick 2. *)
Definition lateUpdateData (a : RenderDataArgs Z) : Z * list (Capability Z) :=
  (arg_data a + 1,
   if arg_tick a =? 1 then [CallStop]
   else if arg_tick a =? 2 then [CallComplete 7] else []).

Definition late (size : Z) : ModelProps Z Z :=
  mkProps true false 0 0 0 (Finite 10) 0 true size 1
    incrementerInitData lateUpdateData None.

(** The frames of a run: the host calls back every 16 ms. *)
Definition timestamps (n : nat) : list Z :=
  map (fun i => 16 * Z.of_nat i) (seq 0 n).

(** ** [CanvasModel] (canvas-model.ts) *)

(** An [HTMLCanvasElement] as far as the constructor looks at it: its
    size, and whether [getContext('2d')] yields a context. *)
Record Canvas := mkCanvas {
  canvas_height : Z;
  canvas_width : Z;
  has_context2d : bool }.

(** A [CanvasRenderingContext2D] with its [canvas] property. *)
Record Context2D := mkContext { ctx_canvas : Canvas }.

Definition getContext (canvas : Canvas) : option Context2D :=
  if has_context2d canvas then Some (mkContext canvas) else None.

(** The properties [CanvasModel] takes out of [allProps] before it hands
    the rest to [Model]. *)
Record CanvasProps := mkCanvasProps {
  prop_canvas : option Canvas;
  prop_ctx : option Context2D;
  prop_height : option Z;
  prop_width : option Z }.

(** The private fields of a constructed [CanvasModel]. *)
Record CanvasFields := mkCanvasFields {
  this_ctx : Context2D;
  this_canvas : Canvas;
  this_height : Z;
  this_width : Z }.

(** [new CanvasModel(allProps)]: the string it throws, or its fields and
    the store [super(props)] built. *)
Definition new_CanvasModel {T U} (allProps : CanvasProps) (props : ModelProps T U)
    : string + (CanvasFields * World T U) :=
  let w := new_Model props in
  let bound :=
    match prop_ctx allProps with
    | Some ctx => inr (ctx, ctx_canvas ctx)
    | None =>
        match prop_canvas allProps with
        | Some canvas =>
            match getContext canvas with
            | None => inl "Couldn't get 2d context from canvas"%string
            | Some context => inr (context, canvas)
            end
        | None => inl "Neither context nor canvas provided"%string
        end
    end in
  match bound with
  | inl thrown => inl thrown
  | inr (context, canvas) =>
      match prop_ctx allProps with
      | None => inl "Cannot resolve 2d context."%string
      | Some _ =>
          inr ({| this_ctx := context; this_canvas := canvas;
                  this_height := nullish (prop_height allProps) (canvas_height canvas);
                  this_width := nullish (prop_width allProps) (canvas_width canvas) |},
               w)
      end
  end.

(** ** Predicates used by the theorems *)

(** Invariant (c) of the state record. *)
Definition flags_consistent {T U} (w : World T U) : Prop :=
  canPlay (cur w) = false -> isPlaying (cur w) = Some false.

(** The [n] last entries of a buffer, oldest first. *)
Definition most_recent {A} (n : nat) (l : list A) : list A :=
  drop (length l - n) l.

(** What [complete] does to the results buffer of the record it is given. *)
Definition retain {A} (size : Z) (result : A) (buffer : list A) : list A :=
  if 0 <? size then
    if size <? Z.of_nat (length (buffer ++ [result]))
    then tail (buffer ++ [result])
    else buffer ++ [result]
  else buffer.

(** Operations that do not run the reset algorithm, as listed by the
    specification: everything but [stop()] and a [setParams()] under
    [resetsOnChange]. *)
Definition keeps_record {T U} (props : ModelProps T U) (o : Op T) : Prop :=
  match o with
  | Stop => False
  | SetParams _ => resetsOnChange props = false
  | _ => True
  end.

(** The public calls that cancel the outstanding callback first. *)
Definition cancels_first {T} (o : Op T) : Prop :=
  match o with
  | Pause | Stop | SetTick _ => True
  | _ => False
  end.

(** No callback with handle [h] is outstanding and no handle is stored. *)
Definition unscheduled {T U} (h : Z) (w : World T U) : Prop :=
  timer (cur w) = None /\ h ∉ pending w.

(** The record at [l] is allocated, and tick 0 is among its keys and in
    its [cachedData] object. *)
Definition keeps_zero {T U} (l : nat) (w : World T U) : Prop :=
  (l < next_record w)%nat /\
  (cachedData (records w l) < next_object w)%nat /\
  0 ∈ cachedDataKeys (records w l) /\
  is_Some (objects w (cachedData (records w l)) !! 0).

(** The two phases of a run of the incrementer: playing, with one
    callback outstanding, and ended. *)
Definition incrementer_playing (w : World Z unit) : Prop :=
  canPlay (cur w) = true /\ isPlaying (cur w) = Some true /\
  cachedDataKeys (cur w) = ∅ /\
  0 <= tick (cur w) <= 11 /\ data (cur w) = tick (cur w) /\
  exists h, pending w = [h].

Definition incrementer_ended (w : World Z unit) : Prop :=
  canPlay (cur w) = false /\ isPlaying (cur w) = Some false /\
  tick (cur w) = 11 /\ data (cur w) = 11 /\ pending w = [].

(** The incrementer inside a callback, at tick [t]: playing, with the
    callback that runs taken off the pending list. *)
Definition incrementer_at (t : Z) (w : World Z unit) : Prop :=
  canPlay (cur w) = true /\ isPlaying (cur w) = Some true /\
  cachedDataKeys (cur w) = ∅ /\ tick (cur w) = t /\ data (cur w) = t /\
  pending w = [].

(** What the data cache does keep: in every record the queue is within
    the bound, and every key other than 0 is a queued tick. *)
Definition cache_sound {T U} (props : ModelProps T U) (s : ModelState T U) : Prop :=
  Z.of_nat (length (cachedDataKeysQueue s)) <= Z.max 0 (dataCacheSize props) /\
  forall k, k ∈ cachedDataKeys s -> k ∈ cachedDataKeysQueue s \/ k = 0.

(** A property of state records that holds at every address. *)
Definition everywhere {T U} (R : ModelState T U -> Prop) (w : World T U) : Prop :=
  forall a, R (records w a).

(** [play()] and the clock callback. *)
Definition is_playback {T} (o : Op T) : Prop :=
  match o with
  | Play | Frame _ => True
  | _ => False
  end.

(** What one pass through the cache block of [updateToTick] does to the
    record it is given, and to the [cachedData] object of that record. *)
Definition cache_record {T U} (props : ModelProps T U) (t : Z)
    (s : ModelState T U) : ModelState T U :=
  if 0 <? dataCacheSize props then
    let queue := cachedDataKeysQueue s ++ [t] in
    if Z.of_nat (length queue) <=? dataCacheSize props then
      set_cachedDataKeys ({[t]} ∪ cachedDataKeys s)
        (set_cachedDataKeysQueue queue (set_maxTick t s))
    else
      match truthy (head queue) with
      | Some r =>
          set_cachedDataKeys (cachedDataKeys s ∖ {[r]})
            (set_cachedDataKeysQueue (tail queue) (set_maxTick t s))
      | None => set_cachedDataKeysQueue (tail queue) (set_maxTick t s)
      end
  else s.

Definition cache_object {T U} (props : ModelProps T U) (t : Z) (d : T)
    (s : ModelState T U) (m : gmap Z T) : gmap Z T :=
  if 0 <? dataCacheSize props then
    let queue := cachedDataKeysQueue s ++ [t] in
    if Z.of_nat (length queue) <=? dataCacheSize props then <[t := d]> m
    else
      match truthy (head queue) with
      | Some r => <[t := d]> (delete r m)
      | None => <[t := d]> m
      end
  else m.

(** The resume tick of the iterative path of [updateToTick]. *)
Definition resume_tick {T U} (s : ModelState T U) : Z :=
  if bool_decide (maxTick s ∈ cachedDataKeys s) then maxTick s else tick s.

(** ** Replaying a transition function that signals nothing *)

(** The transition function returns data and calls no capability. *)
Definition silent {T U} (props : ModelProps T U) : Prop :=
  forall a, (updateData props a).2 = [].

(** [tick > maxTime] can only become true as the tick grows. *)
Definition within (tick : Z) (maxTime : Limit) : Prop :=
  exceeds tick maxTime = false.

(** The arguments of the [n] successive calls of the transition function
    that start after tick [t] with data [d], the [cachedData] object
    holding [c] and the parameters being [p] throughout. *)
Fixpoint transitions {T U} (props : ModelProps T U) (c : gmap Z T)
    (p : gmap string Param) (n : nat) (t : Z) (d : T) : list (RenderDataArgs T) :=
  match n with
  | O => []
  | S n =>
      let a := {| arg_cachedData := c; arg_data := d; arg_tick := t + 1;
                  arg_params := p |} in
      a :: transitions props c p n (t + 1) (updateData props a).1
  end.

(** The data these calls end with. *)
Fixpoint replay {T U} (props : ModelProps T U) (c : gmap Z T)
    (p : gmap string Param) (n : nat) (t : Z) (d : T) : T :=
  match n with
  | O => d
  | S n =>
      replay props c p n (t + 1)
        (updateData props {| arg_cachedData := c; arg_data := d;
                             arg_tick := t + 1; arg_params := p |}).1
  end.

(** What the render hook is shown after the call with arguments [a]. *)
Definition shown {T U} (props : ModelProps T U) (a : RenderDataArgs T)
    : RenderDataArgs T :=
  {| arg_cachedData := arg_cachedData a; arg_data := (updateData props a).1;
     arg_tick := arg_tick a; arg_params := arg_params a |}.

(** [shouldStop] as a write to the record. *)
Definition halted {T U} (shouldStop : bool) (s : ModelState T U) : ModelState T U :=
  if shouldStop then set_isPlaying (Some false) s else s.

(** A write to a record that leaves its three cache fields alone. *)
Definition plain {T U} (f : ModelState T U -> ModelState T U) : Prop :=
  forall s,
    cachedData (f s) = cachedData s /\
    cachedDataKeys (f s) = cachedDataKeys s /\
    cachedDataKeysQueue (f s) = cachedDataKeysQueue s.

(** The data cache of the current record is empty. *)
Definition cache_empty {T U} (w : World T U) : Prop :=
  cachedDataKeys (cur w) = ∅ /\ cachedDataKeysQueue (cur w) = [] /\
  objects w (cachedData (cur w)) = ∅.

(** No record has a key or a queued tick, and no [cachedData] object an
    entry. *)
Definition caches_blank {T U} (w : World T U) : Prop :=
  (forall a, cachedDataKeys (records w a) = ∅ /\
             cachedDataKeysQueue (records w a) = []) /\
  (forall o, objects w o = ∅).

(** The [cachedData] content and the data after [n] calls of a silent
    transition function that start after tick [t] with data [d], each
    result being stored under its tick. *)
Fixpoint fill {T U} (props : ModelProps T U) (p : gmap string Param)
    (n : nat) (t : Z) (d : T) (c : gmap Z T) : gmap Z T * T :=
  match n with
  | O => (c, d)
  | S n =>
      let d' := (updateData props {| arg_cachedData := c; arg_data := d;
                                     arg_tick := t + 1; arg_params := p |}).1 in
      fill props p n (t + 1) d' (<[t + 1 := d']> c)
  end.

(** The ticks [t + 1], ..., [t + n]. *)
Definition ticks_after (t : Z) (n : nat) : list Z :=
  map (fun i => t + 1 + Z.of_nat i) (seq 0 n).

(** The end of [advance]: while the engine plays, the stored handle is
    cancelled and a new callback requested. *)
Definition rescheduled {T U} (w : World T U) : World T U :=
  match isPlaying (cur w) with
  | Some true =>
      let w :=
        match truthy (timer (cur w)) with
        | Some h => cancelAnimationFrame h w
        | None => w
        end in
      let '(h, w) := requestAnimationFrame w in
      modify (this_state w) (set_timer (Some h)) w
  | _ => w
  end.

(** The engine plays. *)
Definition playing {T U} (w : World T U) : bool :=
  match isPlaying (cur w) with
  | Some true => true
  | _ => false
  end.

(** The schedule once a stored handle has been cancelled. *)
Definition without_timer {T U} (w : World T U) : list Z :=
  match truthy (timer (cur w)) with
  | Some h => filter (fun x => x ≠ h) (pending w)
  | None => pending w
  end.

(** Handles are issued from 1 on, and the current record is one the
    engine built. *)
Definition settled {T U} (w : World T U) : Prop :=
  0 < next_handle w /\ (this_state w < next_record w)%nat.

(** No callback is outstanding. *)
Definition no_callback {T U} (w : World T U) : Prop :=
  settled w /\ pending w = [].

(** At most one callback is outstanding, and its handle is the stored one. *)
Definition single_callback {T U} (w : World T U) : Prop :=
  settled w /\
  (pending w = [] \/
   exists h, h <> 0 /\ pending w = [h] /\ timer (cur w) = Some h).

(** ** Completions through the engine *)

(** [setTick(target)] on an engine that can play, to an uncached tick
    after the resume tick, where the first call of the transition
    function signals [complete(r)] and nothing else.  The closure handed
    to the transition function is bound to the record [updateToTick] was
    given; on the first call that record is the one the engine is bound
    to. *)
Definition completing_seek {T U} (props : ModelProps T U) (target : Z) (r : U)
    (w : World T U) : Prop :=
  canPlay (cur w) = true /\
  bool_decide (target ∈ cachedDataKeys (cur w)) = false /\
  resume_tick (cur w) < target /\
  within (resume_tick (cur w)) (maxTime props) /\
  (updateData props
     {| arg_cachedData := objects w (cachedData (cur w));
        arg_data := data (cur w);
        arg_tick := resume_tick (cur w) + 1;
        arg_params := params (cur w) |}).2 = [CallComplete r].

(** The steps of a run of completions: a seek that completes with [r],
    or a [setData(d)] between two of them. *)
Inductive Episode (T U : Type) : Type :=
  | Completes (target : Z) (r : U)
  | Feeds (d : T).

Arguments Completes {T U} target r.
Arguments Feeds {T U} d.

Definition episode_op {T U} (e : Episode T U) : Op T :=
  match e with
  | Completes target _ => SetTick target
  | Feeds d => SetData d
  end.

(** Every seek of the run is a completing one in the state it starts
    from. *)
Fixpoint completing {T U} (props : ModelProps T U) (es : list (Episode T U))
    (w : World T U) : Prop :=
  match es with
  | [] => True
  | e :: es =>
      match e with
      | Completes target r => completing_seek props target r w
      | Feeds _ => True
      end /\
      completing props es (run props (episode_op e) w)
  end.

(** The results signalled by a run, oldest first. *)
Fixpoint signalled {T U} (es : list (Episode T U)) : list U :=
  match es with
  | [] => []
  | Completes _ r :: es => r :: signalled es
  | Feeds _ :: es => signalled es
  end.

(** ** How far the tick can go *)

(** [t] is at most one past [maxTime], or not past [initialTick]. *)
Definition in_range {T U} (props : ModelProps T U) (t : Z) : Prop :=
  t <= initialTick props \/ within (t - 1) (maxTime props).

(** The engine is bound to a record it built, and in every record built
    the tick and [maxTick] are in range. *)
Definition ranged {T U} (props : ModelProps T U) (w : World T U) : Prop :=
  (this_state w < next_record w)%nat /\
  forall a, (a < next_record w)%nat ->
    in_range props (tick (records w a)) /\ in_range props (maxTick (records w a)).

(** A write that leaves the tick and [maxTick] alone or in range. *)
Definition in_step {T U} (props : ModelProps T U)
    (f : ModelState T U -> ModelState T U) : Prop :=
  forall s,
    (tick (f s) = tick s \/ in_range props (tick (f s))) /\
    (maxTick (f s) = maxTick s \/ in_range props (maxTick (f s))).

(** ** A stop requested by the transition function *)

(** The transition function signals [stop()] on tick [t], and nothing on
    the other ticks. *)
Definition stops_at {T U} (props : ModelProps T U) (t : Z) : Prop :=
  forall a, (updateData props a).2 = if arg_tick a =? t then [CallStop] else [].

(** What a render shows of tick and data. *)
Definition shows {T} (t : Z) (d : T) (a : RenderDataArgs T) : Prop :=
  arg_tick a = t /\ arg_data a = d.

(** ** Reading the store after a write *)

Section StoreLemmas.

Context {T U : Type}.
Implicit Types (w : World T U) (s : ModelState T U).

Lemma records_modify state f w a :
  records (modify state f w) a =
  if decide (state = a) then f (records w state) else records w a.
Proof. reflexivity. Qed.

Lemma this_state_modify state f w : this_state (modify state f w) = this_state w.
Proof. reflexivity. Qed.

Lemma pending_modify state f w : pending (modify state f w) = pending w.
Proof. reflexivity. Qed.

Lemma objects_modify state f w : objects (modify state f w) = objects w.
Proof. reflexivity. Qed.

Lemma records_mutate o f w : records (mutate o f w) = records w.
Proof. reflexivity. Qed.

Lemma this_state_mutate o f w : this_state (mutate o f w) = this_state w.
Proof. reflexivity. Qed.

Lemma pending_mutate o f w : pending (mutate o f w) = pending w.
Proof. reflexivity. Qed.

Lemma objects_mutate o f w a :
  objects (mutate o f w) a = if decide (o = a) then f (objects w o) else objects w a.
Proof. reflexivity. Qed.

Lemma cur_mutate o f w : cur (mutate o f w) = cur w.
Proof. reflexivity. Qed.

Lemma cur_cancel h w : cur (cancelAnimationFrame h w) = cur w.
Proof. reflexivity. Qed.

Lemma this_state_cancel h w : this_state (cancelAnimationFrame h w) = this_state w.
Proof. reflexivity. Qed.

Lemma cur_log_update a w : cur (log_update a w) = cur w.
Proof. reflexivity. Qed.

Lemma cur_log_render a w : cur (log_render a w) = cur w.
Proof. reflexivity. Qed.

Lemma cur_modify state f w :
  cur (modify state f w) =
  if decide (state = this_state w) then f (cur w) else cur w.
Proof.
  unfold cur. rewrite records_modify, this_state_modify.
  destruct (decide (state = this_state w)) as [->|]; reflexivity.
Qed.

Lemma cur_modify_this f w :
  cur (modify (this_state w) f w) = f (cur w).
Proof. rewrite cur_modify. destruct (decide _); [reflexivity|congruence]. Qed.

Lemma cur_new_record s w :
  cur (set_this_state (new_record s w).1 (new_record s w).2) = s.
Proof. unfold cur. simpl. apply fn_lookup_insert. Qed.


End StoreLemmas.

(** Reads through the writes of the store, by cases on the addresses. *)
Ltac read_store :=
  repeat first
    [ rewrite this_state_modify | rewrite this_state_mutate
    | rewrite this_state_cancel
    | rewrite records_modify | rewrite records_mutate
    | rewrite objects_modify | rewrite objects_mutate
    | rewrite fn_lookup_insert
    | rewrite fn_lookup_insert_ne by congruence
    | progress simpl
    | case_decide; try congruence ].

(** ** The seek that goes nowhere *)

Section Seek.

Context {T U : Type}.
Variable props : ModelProps T U.
Implicit Types (w : World T U).

Lemma updateToTick_cached target shouldStop state stop pause render w :
  target ∈ cachedDataKeys (records w state) ->
  updateToTick props target shouldStop state stop pause render w = w.
Proof.
  intros Hin. unfold updateToTick.
  rewrite bool_decide_eq_true_2 by assumption. reflexivity.
Qed.

(** C8: an uncached seek to a target at or before the resume tick returns
    the store as it was: data, tick, both caches, the playback flags and
    the logs of callback invocations are the same, whatever [shouldStop]
    and the three capabilities are. *)
Theorem updateToTick_uncached_backward_noop
    target shouldStop state stop pause render w :
  target ∉ cachedDataKeys (records w state) ->
  target <= resume_tick (records w state) ->
  updateToTick props target shouldStop state stop pause render w = w.
Proof.
  intros Hnot Hle. unfold updateToTick.
  rewrite bool_decide_eq_false_2 by assumption.
  fold (resume_tick (records w state)).
  replace (Z.to_nat (target - resume_tick (records w state))) with 0%nat by lia.
  reflexivity.
Qed.

End Seek.

Lemma updateToTick_uncached_backward_noop_witness :
  let w := runs incrementer [SetTick 5] (new_Model incrementer) in
  (3 ∉ cachedDataKeys (records w (this_state w))) /\
  3 <= resume_tick (records w (this_state w)) /\
  updateToTick incrementer 3 true (this_state w) (stop incrementer) pause render w = w.
Proof.
  assert (H1 : 3 ∉ cachedDataKeys
            (cur (runs incrementer [SetTick 5] (new_Model incrementer)))).
  { vm_compute. set_solver. }
  assert (H2 : 3 <= resume_tick
            (cur (runs incrementer [SetTick 5] (new_Model incrementer)))).
  { vm_compute. discriminate. }
  split; [exact H1|]. split; [exact H2|].
  exact (updateToTick_uncached_backward_noop incrementer 3 true _ _ _ _ _ H1 H2).
Defined.

(** ** Invariants of the stepping loop *)

Section LoopRule.

Context {T U : Type}.
Variable props : ModelProps T U.
Variable Q : World T U -> Prop.
Variables (state : nat) (stop pause render : World T U -> World T U).

Hypothesis Q_check : forall t w, Q w -> Q (checkCanPlay t (maxTime props) state w).2.
Hypothesis Q_log : forall a w, Q w -> Q (log_update a w).
Hypothesis Q_invoke : forall c w, Q w -> Q (invoke props state stop pause c w).
Hypothesis Q_cache : forall t d w, Q w -> Q (cacheTick props state t d w).
Hypothesis Q_data : forall d w, Q w -> Q (modify state (set_data d) w).
Hypothesis Q_tick : forall t w, Q w -> Q (modify state (set_tick t) w).
Hypothesis Q_halt : forall w, Q w -> Q (modify state (set_isPlaying (Some false)) w).
Hypothesis Q_render : forall w, Q w -> Q (render w).

Lemma invokes_preserve calls w :
  Q w -> Q (foldl (fun w c => invoke props state stop pause c w) w calls).
Proof.
  revert w. induction calls as [|c calls IH]; intros w HQ; simpl; auto.
Qed.

Lemma stepping_preserves n shouldStop t d w :
  Q w -> Q (stepping props n shouldStop state stop pause render t d w).
Proof.
  revert t d w. induction n as [|n IH]; intros t d w HQ; simpl; [assumption|].
  pose proof (Q_check t w HQ) as Hc.
  destruct (checkCanPlay t (maxTime props) state w) as [ok w1]. simpl in Hc.
  destruct ok; [|assumption].
  destruct (updateData props _) as [d' calls].
  apply IH. apply Q_render.
  assert (HQ' : Q (modify state (set_tick (t + 1))
                     (modify state (set_data d')
                        (cacheTick props state (t + 1) d'
                           (foldl (fun w c => invoke props state stop pause c w)
                              (log_update
                                 {| arg_cachedData := objects w1 (cachedData (records w1 state));
                                    arg_data := d; arg_tick := t + 1;
                                    arg_params := params (records w1 state) |} w1)
                              calls))))).
  { apply Q_tick, Q_data, Q_cache, invokes_preserve, Q_log, Hc. }
  destruct shouldStop; [apply Q_halt|]; exact HQ'.
Qed.

Lemma updateToTick_preserves target shouldStop w :
  Q w -> Q (updateToTick props target shouldStop state stop pause render w).
Proof.
  intros HQ. unfold updateToTick.
  destruct (bool_decide _); [assumption|].
  apply stepping_preserves, HQ.
Qed.

End LoopRule.

(** ** What the capabilities do to the current record *)

Section Capabilities.

Context {T U : Type}.
Variable props : ModelProps T U.
Implicit Types (w : World T U).

Ltac open_reset :=
  unfold stop, reset, new_record, new_object; simpl;
  destruct (clearsDataCacheOnReset props), (clearsResultsCacheOnReset props);
  simpl; unfold cur; simpl; rewrite ?fn_lookup_insert.

Lemma stop_canPlay w : canPlay (cur (stop props w)) = true.
Proof. open_reset; reflexivity. Qed.

Lemma stop_timer w : timer (cur (stop props w)) = None.
Proof. open_reset; reflexivity. Qed.

Lemma stop_pending_eq w :
  pending (stop props w) = pending (stopAndCancelTimer (this_state w) w).
Proof.
  unfold stop, reset, new_record, new_object. simpl.
  destruct (clearsDataCacheOnReset props); reflexivity.
Qed.

Lemma stop_pending w x : x ∈ pending (stop props w) -> x ∈ pending w.
Proof.
  unfold stop, stopAndCancelTimer.
  destruct (truthy (timer (records w (this_state w)))) as [h|];
    unfold reset, new_record, new_object; simpl;
    destruct (clearsDataCacheOnReset props); simpl; auto.
  all: unfold cancelAnimationFrame; simpl.
  all: intros Hin; apply list_elem_of_filter in Hin; tauto.
Qed.

Lemma stopAndCancelTimer_cur state w :
  cur (stopAndCancelTimer state w) =
  match truthy (timer (records w state)) with
  | Some _ => if decide (state = this_state w) then set_timer None (cur w) else cur w
  | None => cur w
  end.
Proof.
  unfold stopAndCancelTimer. destruct (truthy _); [|reflexivity].
  rewrite cur_modify. reflexivity.
Qed.

Lemma stopAndCancelTimer_this state w :
  this_state (stopAndCancelTimer state w) = this_state w.
Proof. unfold stopAndCancelTimer. destruct (truthy _); reflexivity. Qed.

Lemma stopAndCancelTimer_pending state w x :
  x ∈ pending (stopAndCancelTimer state w) -> x ∈ pending w.
Proof.
  unfold stopAndCancelTimer. destruct (truthy _); simpl; auto.
  unfold cancelAnimationFrame; simpl.
  intros Hin; apply list_elem_of_filter in Hin; tauto.
Qed.

Lemma pause_cur w :
  cur (pause w) = set_isPlaying (Some false) (cur (stopAndCancelTimer (this_state w) w)).
Proof.
  unfold pause. rewrite cur_modify_this. reflexivity.
Qed.

Lemma complete_written result state stop w :
  exists w',
    complete props result state stop w = stop w' /\
    records w' state =
      set_canPlay false
        (set_results (retain (resultsCacheSize props) result (results (records w state)))
           (records w state)) /\
    (forall a, a <> state -> records w' a = records w a) /\
    objects w' = objects w /\ this_state w' = this_state w /\
    pending w' = pending w /\ next_handle w' = next_handle w /\
    updated w' = updated w /\ rendered w' = rendered w.
Proof.
  unfold complete, retain, modify.
  destruct (0 <? resultsCacheSize props).
  - simpl. rewrite fn_lookup_insert. simpl.
    destruct (resultsCacheSize props <? _);
      (eexists; split; [reflexivity|]; simpl; rewrite !fn_lookup_insert; simpl;
       split; [reflexivity|]; split; [|tauto];
       intros a Ha; rewrite !fn_lookup_insert_ne by congruence; reflexivity).
  - eexists; split; [reflexivity|]; simpl; rewrite !fn_lookup_insert; simpl.
    split; [destruct (records w state); reflexivity|]. split; [|tauto].
    intros a Ha; rewrite !fn_lookup_insert_ne by congruence; reflexivity.
Qed.

Lemma complete_canPlay result state w :
  canPlay (cur (complete props result state (stop props) w)) = true.
Proof. unfold complete. apply stop_canPlay. Qed.

Lemma complete_timer result state w :
  timer (cur (complete props result state (stop props) w)) = None.
Proof. unfold complete. apply stop_timer. Qed.

Lemma complete_pending result state w x :
  x ∈ pending (complete props result state (stop props) w) -> x ∈ pending w.
Proof.
  unfold complete. intros Hin. apply stop_pending in Hin.
  destruct (0 <? resultsCacheSize props); [|exact Hin].
  simpl in Hin. destruct (resultsCacheSize props <? _); exact Hin.
Qed.

End Capabilities.

(** ** Fields the data cache leaves alone *)

Section CacheFrame.

Context {T U : Type}.
Variable props : ModelProps T U.
Implicit Types (w : World T U).

Lemma cacheTick_records state t d w a :
  records (cacheTick props state t d w) a =
  if decide (state = a) then cache_record props t (records w state)
  else records w a.
Proof.
  unfold cacheTick, cache_record.
  destruct (0 <? dataCacheSize props); [|case_decide; congruence].
  cbv zeta. rewrite records_mutate.
  rewrite !records_modify, !decide_True by reflexivity. simpl.
  destruct (_ <=? _).
  - read_store; destruct (records w state); reflexivity.
  - destruct (truthy _); read_store; destruct (records w state); reflexivity.
Qed.

Lemma cacheTick_objects state t d w o :
  objects (cacheTick props state t d w) o =
  if decide (cachedData (records w state) = o)
  then cache_object props t d (records w state) (objects w o)
  else objects w o.
Proof.
  unfold cacheTick, cache_object.
  destruct (0 <? dataCacheSize props); [|case_decide; congruence].
  cbv zeta.
  rewrite !records_modify, !decide_True by reflexivity. simpl.
  destruct (_ <=? _).
  - read_store; subst; read_store; reflexivity.
  - destruct (truthy _); read_store; subst; read_store; reflexivity.
Qed.

(** [cacheTick] writes [maxTick], the queue and the key set of the record
    it is given, and nothing else in it. *)
Lemma cache_record_shape t (s : ModelState T U) :
  exists keys queue m,
    cache_record props t s =
    set_cachedDataKeys keys (set_cachedDataKeysQueue queue (set_maxTick m s)).
Proof.
  unfold cache_record. destruct s as [c k q cp d ip m p r tk tm tr]. simpl.
  destruct (0 <? _); [|exists k, q, m; reflexivity].
  destruct (_ <=? _); [exists ({[t]} ∪ k), (q ++ [t]), t; reflexivity|].
  destruct (truthy _) as [x|];
    [exists (k ∖ {[x]}), (tail (q ++ [t])), t|exists k, (tail (q ++ [t])), t];
    reflexivity.
Qed.

Lemma cacheTick_this state t d w :
  this_state (cacheTick props state t d w) = this_state w.
Proof.
  unfold cacheTick. destruct (0 <? _); [|reflexivity]. simpl.
  destruct (_ <=? _); simpl; [reflexivity|].
  destruct (truthy _); reflexivity.
Qed.

Lemma cacheTick_pending state t d w :
  pending (cacheTick props state t d w) = pending w.
Proof.
  unfold cacheTick. destruct (0 <? _); [|reflexivity]. simpl.
  destruct (_ <=? _); simpl; [reflexivity|].
  destruct (truthy _); reflexivity.
Qed.

(** Any field other than the three above reads the same afterwards. *)
Lemma cacheTick_cur_field {A} (g : ModelState T U -> A) state t d w :
  (forall keys queue m s,
     g (set_cachedDataKeys keys (set_cachedDataKeysQueue queue (set_maxTick m s))) = g s) ->
  g (cur (cacheTick props state t d w)) = g (cur w).
Proof.
  intros Hg. unfold cur. rewrite cacheTick_this, cacheTick_records.
  case_decide; [|reflexivity]. subst.
  destruct (cache_record_shape t (records w (this_state w))) as (k & q & m & ->).
  apply Hg.
Qed.

End CacheFrame.

(** ** Invariant (c): [canPlay = false] implies [isPlaying = false] *)

Section Flags.

Context {T U : Type}.
Variable props : ModelProps T U.
Implicit Types (w : World T U).

Lemma flags_modify_frame state f w :
  (forall s, canPlay (f s) = canPlay s) ->
  (forall s, isPlaying (f s) = isPlaying s) ->
  flags_consistent w -> flags_consistent (modify state f w).
Proof.
  unfold flags_consistent. intros Hc Hp H. rewrite cur_modify.
  destruct (decide _); [rewrite Hc, Hp|]; exact H.
Qed.

Lemma flags_modify_halt state f w :
  (forall s, isPlaying (f s) = Some false) ->
  flags_consistent w -> flags_consistent (modify state f w).
Proof.
  unfold flags_consistent. intros Hp H. rewrite cur_modify.
  destruct (decide _); [intros _; apply Hp|exact H].
Qed.

Lemma flags_stopAndCancelTimer state w :
  flags_consistent w -> flags_consistent (stopAndCancelTimer state w).
Proof.
  unfold flags_consistent. rewrite stopAndCancelTimer_cur.
  destruct (truthy _); [destruct (decide _)|]; auto.
Qed.

Lemma flags_checkCanPlay t m state w :
  flags_consistent w -> flags_consistent (checkCanPlay t m state w).2.
Proof.
  intros H. unfold checkCanPlay. destruct (_ || _); simpl; [|exact H].
  unfold flags_consistent. rewrite !cur_modify. simpl.
  destruct (decide _); [reflexivity|exact H].
Qed.

Lemma flags_stop w : flags_consistent (stop props w).
Proof. unfold flags_consistent. rewrite stop_canPlay. discriminate. Qed.

Lemma flags_pause w : flags_consistent (pause w).
Proof. unfold flags_consistent. rewrite pause_cur. reflexivity. Qed.

Lemma flags_invoke state c w :
  flags_consistent w ->
  flags_consistent (invoke props state (stop props) pause c w).
Proof.
  intros H. destruct c; simpl.
  - unfold complete. apply flags_stop.
  - apply flags_stop.
  - apply flags_pause.
Qed.

Lemma flags_cacheTick state t d w :
  flags_consistent w -> flags_consistent (cacheTick props state t d w).
Proof.
  unfold flags_consistent.
  rewrite (cacheTick_cur_field props canPlay), (cacheTick_cur_field props isPlaying);
    auto.
Qed.

Lemma flags_updateToTick target shouldStop state w :
  flags_consistent w ->
  flags_consistent
    (updateToTick props target shouldStop state (stop props) pause render w).
Proof.
  apply updateToTick_preserves.
  - intros; apply flags_checkCanPlay; assumption.
  - intros a w' H; exact H.
  - intros; apply flags_invoke; assumption.
  - intros; apply flags_cacheTick; assumption.
  - intros; apply flags_modify_frame; auto.
  - intros; apply flags_modify_frame; auto.
  - intros; apply flags_modify_halt; auto.
  - intros w' H; exact H.
Qed.

Lemma flags_setTick target w :
  flags_consistent w -> flags_consistent (setTick props target w).
Proof.
  intros H. unfold setTick.
  apply flags_updateToTick, flags_stopAndCancelTimer, H.
Qed.

Lemma flags_setData d w : flags_consistent (setData props d w).
Proof.
  unfold setData, flags_consistent. cbv zeta.
  rewrite !cur_modify_this. reflexivity.
Qed.

Lemma flags_setParams updatedParams w :
  flags_consistent w -> flags_consistent (setParams props updatedParams w).
Proof.
  intros H. unfold setParams. cbv zeta.
  destruct (resetsOnChange props); [|apply flags_modify_frame; auto].
  unfold reset, new_record, new_object, flags_consistent, cur in *. simpl.
  destruct (clearsDataCacheOnReset props); simpl;
    (destruct (decide (next_record w = this_state w)) as [E|E];
     [rewrite E; read_store; discriminate|read_store; auto]).
Qed.

Lemma checkCanPlay_true t m state w w' :
  checkCanPlay t m state w = (true, w') ->
  w' = w /\ canPlay (records w state) = true /\ exceeds t m = false.
Proof.
  unfold checkCanPlay.
  destruct (canPlay (records w state)), (exceeds t m); simpl; intros [=]; auto.
Qed.

Lemma checkCanPlay_false t m state w w' :
  checkCanPlay t m state w = (false, w') ->
  w' = modify state (set_isPlaying (Some false)) (modify state (set_canPlay false) w) /\
  (canPlay (records w state) = false \/ exceeds t m = true).
Proof.
  unfold checkCanPlay.
  destruct (canPlay (records w state)), (exceeds t m); simpl; intros [=]; auto.
Qed.

Lemma flags_schedule w :
  flags_consistent w ->
  flags_consistent
    (let w := match truthy (timer (cur w)) with
              | Some h => cancelAnimationFrame h w
              | None => w
              end in
     let '(h, w) := requestAnimationFrame w in
     modify (this_state w) (set_timer (Some h)) w).
Proof.
  intros H. cbv zeta. unfold requestAnimationFrame.
  destruct (truthy _); apply flags_modify_frame; auto.
Qed.

(** The clock callback leaves the flags consistent, whatever they were. *)
Lemma flags_advance timestamp w : flags_consistent (advance props timestamp w).
Proof.
  unfold advance.
  destruct (checkCanPlay _ _ _ w) as [[] w1] eqn:Hc.
  - apply checkCanPlay_true in Hc as (-> & Hcan & _).
    assert (H0 : flags_consistent w).
    { unfold flags_consistent, cur. rewrite Hcan. discriminate. }
    cbv zeta.
    set (w2 := match time (cur w) with
               | Some _ => w
               | None => modify (this_state w) (set_time (Some timestamp)) w
               end).
    assert (H2 : flags_consistent w2).
    { unfold w2. destruct (time (cur w)); [assumption|].
      apply flags_modify_frame; auto. }
    clearbody w2.
    set (w3 := if delay props <=? timestamp - nullish (time (cur w2)) 0 then _ else w2).
    assert (H3 : flags_consistent w3).
    { unfold w3. destruct (_ <=? _); [|assumption].
      apply flags_updateToTick, flags_modify_frame; auto. }
    clearbody w3.
    destruct (isPlaying (cur w3)) as [[]|]; try assumption.
    apply (flags_schedule w3 H3).
  - apply checkCanPlay_false in Hc as (-> & _).
    unfold flags_consistent, cur. read_store; reflexivity.
Qed.

Lemma flags_frame timestamp w :
  flags_consistent w -> flags_consistent (frame props timestamp w).
Proof.
  intros H. unfold frame. destruct (pending w); [assumption|apply flags_advance].
Qed.

End Flags.

(** C6 (amended): every public operation other than [play()] preserves
    [canPlay = false => isPlaying = false], and the clock callback
    establishes it from any state. *)
Theorem flags_consistent_preserved {T U} (props : ModelProps T U) :
  (forall (o : Op T) (w : World T U),
     o <> Play -> flags_consistent w -> flags_consistent (run props o w)) /\
  (forall timestamp (w : World T U), flags_consistent (advance props timestamp w)).
Proof.
  split; [|apply flags_advance].
  intros o w Hplay H. destruct o; simpl.
  - congruence.
  - apply flags_pause.
  - apply flags_stop.
  - apply flags_setTick, H.
  - apply flags_setParams, H.
  - apply flags_setData.
  - apply flags_frame, H.
Qed.

Lemma flags_consistent_preserved_witness :
  let w := runs incrementer [Play; Frame 0] (new_Model incrementer) in
  let ended := runs incrementer (Play :: map Frame (timestamps 12)) (new_Model incrementer) in
  ((SetTick 40 : Op Z) <> Play /\ flags_consistent w /\
   canPlay (cur (run incrementer (SetTick 40) w)) = false /\
   isPlaying (cur (run incrementer (SetTick 40) w)) = Some false) /\
  ((SetData 5 : Op Z) <> Play /\ flags_consistent ended /\
   canPlay (cur ended) = false /\
   canPlay (cur (run incrementer (SetData 5) ended)) = false /\
   isPlaying (cur (run incrementer (SetData 5) ended)) = Some false).
Proof.
  assert (H1 : (SetTick 40 : Op Z) <> Play) by discriminate.
  assert (H2 : flags_consistent (runs incrementer [Play; Frame 0] (new_Model incrementer))).
  { unfold flags_consistent. vm_compute. discriminate. }
  assert (H3 : canPlay (cur (run incrementer (SetTick 40)
                               (runs incrementer [Play; Frame 0] (new_Model incrementer))))
               = false) by (vm_compute; reflexivity).
  assert (H4 : (SetData 5 : Op Z) <> Play) by discriminate.
  assert (H5 : flags_consistent
                 (runs incrementer (Play :: map Frame (timestamps 12))
                    (new_Model incrementer))).
  { unfold flags_consistent. vm_compute. reflexivity. }
  assert (H6 : canPlay (cur (runs incrementer (Play :: map Frame (timestamps 12))
                               (new_Model incrementer))) = false)
    by (vm_compute; reflexivity).
  assert (H7 : canPlay (cur (run incrementer (SetData 5)
                               (runs incrementer (Play :: map Frame (timestamps 12))
                                  (new_Model incrementer)))) = false)
    by (vm_compute; reflexivity).
  split.
  - split; [exact H1|]. split; [exact H2|]. split; [exact H3|].
    exact (proj1 (flags_consistent_preserved incrementer) (SetTick 40) _ H1 H2 H3).
  - split; [exact H4|]. split; [exact H5|]. split; [exact H6|]. split; [exact H7|].
    exact (proj1 (flags_consistent_preserved incrementer) (SetData 5) _ H4 H5 H7).
Defined.

(** C6, as stated, fails at [play()]: on the incrementer that ran to its
    end, [play()] sets [isPlaying] while [canPlay] stays false. *)
Lemma play_breaks_flags_consistent :
  let w := runs incrementer (Play :: map Frame (timestamps 12)) (new_Model incrementer) in
  flags_consistent w /\ ~ flags_consistent (run incrementer Play w).
Proof.
  split.
  - unfold flags_consistent. vm_compute. reflexivity.
  - unfold flags_consistent. vm_compute. intros H. specialize (H eq_refl). discriminate.
Qed.

(** ** Cancelling the outstanding callback *)

Section Cancel.

Context {T U : Type}.
Variable props : ModelProps T U.
Implicit Types (w : World T U).

Lemma unscheduled_modify h state f w :
  (forall s, timer (f s) = timer s) ->
  unscheduled h w -> unscheduled h (modify state f w).
Proof.
  unfold unscheduled. intros Hf [Ht Hp]. rewrite cur_modify, pending_modify.
  split; [|exact Hp]. case_decide; [rewrite Hf|]; exact Ht.
Qed.

Lemma unscheduled_stopAndCancelTimer h state w :
  unscheduled h w -> unscheduled h (stopAndCancelTimer state w).
Proof.
  unfold unscheduled. intros [Ht Hp]. split.
  - rewrite stopAndCancelTimer_cur.
    destruct (truthy _); [case_decide|]; auto.
  - intros Hin. apply stopAndCancelTimer_pending in Hin. auto.
Qed.

(** [stopAndCancelTimer] on the current record, holding a handle. *)
Lemma stopAndCancelTimer_unschedules h w :
  timer (cur w) = Some h -> h <> 0 ->
  unscheduled h (stopAndCancelTimer (this_state w) w).
Proof.
  intros Ht Hh. unfold unscheduled, stopAndCancelTimer.
  fold (cur w). rewrite Ht. simpl.
  destruct (Z.eqb_spec h 0) as [|_]; [congruence|].
  rewrite cur_modify, this_state_cancel, pending_modify.
  split; [case_decide; [reflexivity|congruence]|].
  unfold cancelAnimationFrame. simpl.
  intros Hin. apply list_elem_of_filter in Hin. tauto.
Qed.

Lemma unscheduled_stop h w : unscheduled h w -> unscheduled h (stop props w).
Proof.
  intros [Ht Hp]. split; [apply stop_timer|].
  intros Hin. apply stop_pending in Hin. auto.
Qed.

Lemma unscheduled_pause h w : unscheduled h w -> unscheduled h (pause w).
Proof.
  intros H. unfold pause.
  apply unscheduled_modify; [reflexivity|].
  apply unscheduled_stopAndCancelTimer, H.
Qed.

Lemma unscheduled_invoke h state c w :
  unscheduled h w -> unscheduled h (invoke props state (stop props) pause c w).
Proof.
  intros H. destruct c; simpl.
  - destruct H as [Ht Hp]. split; [apply complete_timer|].
    intros Hin. apply complete_pending in Hin. auto.
  - apply unscheduled_stop, H.
  - apply unscheduled_pause, H.
Qed.

Lemma unscheduled_cacheTick h state t d w :
  unscheduled h w -> unscheduled h (cacheTick props state t d w).
Proof.
  unfold unscheduled.
  rewrite (cacheTick_cur_field props timer), cacheTick_pending; auto.
Qed.

Lemma unscheduled_updateToTick h target shouldStop state w :
  unscheduled h w ->
  unscheduled h
    (updateToTick props target shouldStop state (stop props) pause render w).
Proof.
  apply updateToTick_preserves.
  - intros t w' H. unfold checkCanPlay. destruct (_ || _); simpl; [|exact H].
    do 2 (apply unscheduled_modify; [reflexivity|]). exact H.
  - intros a w' H; exact H.
  - intros; apply unscheduled_invoke; assumption.
  - intros; apply unscheduled_cacheTick; assumption.
  - intros; apply unscheduled_modify; auto.
  - intros; apply unscheduled_modify; auto.
  - intros; apply unscheduled_modify; auto.
  - intros w' H; exact H.
Qed.

Lemma setParams_keeps_schedule updatedParams w :
  resetsOnChange props = false ->
  timer (cur (setParams props updatedParams w)) = timer (cur w) /\
  pending (setParams props updatedParams w) = pending w.
Proof.
  intros Hr. unfold setParams. rewrite Hr. cbv zeta.
  rewrite cur_modify_this. split; reflexivity.
Qed.

End Cancel.

(** C5 (amended): [pause()], [stop()] and [setTick()] start by cancelling
    the outstanding callback: each is its own mutation applied to the
    store [stopAndCancelTimer] returns, and when the current record held
    a handle [h] issued by the host (not zero), afterwards the handle is
    cleared and [h] is no longer outstanding.  [setParams()] without
    [resetsOnChange] cancels nothing: handle and schedule stay. *)
Theorem cancel_before_mutation {T U} (props : ModelProps T U)
    (w : World T U) (h : Z) :
  timer (cur w) = Some h -> h <> 0 ->
  (forall o, cancels_first o -> unscheduled h (run props o w)) /\
  (let w1 := stopAndCancelTimer (this_state w) w in
   unscheduled h w1 /\
   pause w = modify (this_state w1) (set_isPlaying (Some false)) w1 /\
   (forall target,
      setTick props target w =
      updateToTick props target true (this_state w1) (stop props) pause render w1) /\
   stop props w =
     (let w2 := modify (this_state w1) (set_isPlaying (Some false)) w1 in
      set_this_state (reset props (Some (this_state w2)) w2).1
        (reset props (Some (this_state w2)) w2).2)) /\
  (resetsOnChange props = false ->
   forall updatedParams,
     timer (cur (setParams props updatedParams w)) = Some h /\
     pending (setParams props updatedParams w) = pending w).
Proof.
  intros Ht Hh.
  pose proof (stopAndCancelTimer_unschedules h w Ht Hh) as H1.
  split; [|split].
  - intros o Ho. destruct o; simpl in Ho; try contradiction; simpl.
    + unfold pause. apply unscheduled_modify; [reflexivity|exact H1].
    + unfold stop. cbv zeta.
      destruct (reset props _ _) as [fresh w3] eqn:Hr.
      pose proof (stop_timer props w) as Hst.
      pose proof (stop_pending_eq props w) as Hsp.
      unfold stop in Hst, Hsp. cbv zeta in Hst, Hsp. rewrite Hr in Hst, Hsp.
      split; [exact Hst|]. rewrite Hsp. apply H1.
    + unfold setTick. apply unscheduled_updateToTick, H1.
  - cbv zeta. split; [exact H1|]. split; [reflexivity|].
    split; [reflexivity|].
    unfold stop. cbv zeta. destruct (reset props _ _); reflexivity.
  - intros Hr u. destruct (setParams_keeps_schedule props u w Hr) as [-> ->].
    split; [exact Ht|reflexivity].
Qed.

Lemma cancel_before_mutation_witness :
  let w := runs incrementer [Play; Frame 0] (new_Model incrementer) in
  timer (cur w) = Some 2 /\ 2 <> 0 /\
  unscheduled 2 (run incrementer (SetTick 5) w).
Proof.
  assert (H1 : timer (cur (runs incrementer [Play; Frame 0] (new_Model incrementer)))
               = Some 2) by (vm_compute; reflexivity).
  assert (H2 : 2 <> 0) by discriminate.
  split; [exact H1|]. split; [exact H2|].
  exact (proj1 (cancel_before_mutation incrementer _ 2 H1 H2) (SetTick 5) I).
Defined.

(** C5, as stated, fails for [setParams()]: on a playing engine it leaves
    the handle in place and its callback outstanding. *)
Lemma setParams_does_not_cancel :
  let w := runs liveIncrementer [Play] (new_Model liveIncrementer) in
  let w' := run liveIncrementer (SetParams {[ "speed"%string := PNum 2 ]}) w in
  timer (cur w) = Some 1 /\ timer (cur w') = Some 1 /\ pending w' = [1] /\
  ~ unscheduled 1 w'.
Proof.
  assert (H : timer (cur (run liveIncrementer (SetParams {[ "speed"%string := PNum 2 ]})
                        (runs liveIncrementer [Play] (new_Model liveIncrementer))))
              = Some 1) by (vm_compute; reflexivity).
  cbv zeta. split; [vm_compute; reflexivity|]. split; [exact H|].
  split; [vm_compute; reflexivity|].
  intros [Hnone _]. rewrite H in Hnone. discriminate.
Qed.

(** ** The sticky stop *)

Section Sticky.

Context {T U : Type}.
Variable props : ModelProps T U.
Implicit Types (w : World T U).

(** With [canPlay] false the stepper returns at once, or after the first
    stop-condition check, which clears the two flags again. *)
Lemma updateToTick_halted target shouldStop state stop pause render w :
  canPlay (records w state) = false ->
  updateToTick props target shouldStop state stop pause render w = w \/
  updateToTick props target shouldStop state stop pause render w =
    modify state (set_isPlaying (Some false)) (modify state (set_canPlay false) w).
Proof.
  intros Hc. unfold updateToTick.
  destruct (bool_decide _); [left; reflexivity|].
  destruct (Z.to_nat _) as [|n]; [left; reflexivity|].
  right. simpl. unfold checkCanPlay. rewrite Hc. reflexivity.
Qed.

Lemma play_cur w :
  cur (play w) = set_timer (Some (next_handle w)) (set_isPlaying (Some true) (cur w)).
Proof.
  unfold play, requestAnimationFrame, cur. cbv zeta. read_store; reflexivity.
Qed.

Lemma advance_halted timestamp w :
  canPlay (cur w) = false ->
  advance props timestamp w =
    modify (this_state w) (set_isPlaying (Some false))
      (modify (this_state w) (set_canPlay false) w).
Proof.
  intros Hc. unfold advance, checkCanPlay. fold (cur w). rewrite Hc. reflexivity.
Qed.

Lemma sticky_step (o : Op T) w :
  canPlay (cur w) = false ->
  (keeps_record props o -> canPlay (cur (run props o w)) = false) /\
  (is_playback o ->
   canPlay (cur (run props o w)) = false /\
   tick (cur (run props o w)) = tick (cur w)).
Proof.
  intros Hc. destruct o; simpl; (split; [intros Hk|intros Hp]); try contradiction.
  - rewrite play_cur. exact Hc.
  - rewrite play_cur. split; [exact Hc|reflexivity].
  - rewrite pause_cur, stopAndCancelTimer_cur. simpl.
    destruct (truthy _); [case_decide|]; exact Hc.
  - unfold setTick.
    set (w1 := stopAndCancelTimer (this_state w) w).
    assert (H1 : canPlay (cur w1) = false).
    { unfold w1. rewrite stopAndCancelTimer_cur.
      destruct (truthy _); [case_decide|]; exact Hc. }
    clearbody w1.
    destruct (updateToTick_halted target true (this_state w1) (stop props) pause render
                w1 H1) as [-> | ->]; [exact H1|].
    unfold cur. read_store; reflexivity.
  - unfold setParams. rewrite Hk. cbv zeta. rewrite cur_modify_this. exact Hc.
  - unfold setData. cbv zeta. rewrite !cur_modify_this. simpl.
    rewrite stopAndCancelTimer_cur.
    destruct (truthy _); [case_decide|]; rewrite ?cur_modify_this; exact Hc.
  - unfold frame. destruct (pending w); [exact Hc|].
    rewrite advance_halted by exact Hc. unfold cur. read_store; reflexivity.
  - unfold frame. destruct (pending w); [split; [exact Hc|reflexivity]|].
    rewrite advance_halted by exact Hc. unfold cur. read_store; split; reflexivity.
Qed.

End Sticky.

(** C7: once [canPlay] is false, no sequence of operations that avoids the
    reset algorithm ([stop()], and [setParams()] under [resetsOnChange])
    makes it true again, and no sequence of [play()] calls and clock
    callbacks moves the tick. *)
Theorem canPlay_sticky_false {T U} (props : ModelProps T U)
    (os : list (Op T)) (w : World T U) :
  canPlay (cur w) = false ->
  (Forall (keeps_record props) os -> canPlay (cur (runs props os w)) = false) /\
  (Forall is_playback os ->
   canPlay (cur (runs props os w)) = false /\
   tick (cur (runs props os w)) = tick (cur w)).
Proof.
  revert w. induction os as [|o os IH]; intros w Hc.
  - simpl. auto.
  - simpl. destruct (sticky_step props o w Hc) as [Hk Hp]. split.
    + intros Hall. inversion Hall as [|? ? Ho Hos]; subst.
      exact (proj1 (IH _ (Hk Ho)) Hos).
    + intros Hall. inversion Hall as [|? ? Ho Hos]; subst.
      destruct (Hp Ho) as [Hc' Ht]. rewrite <- Ht.
      exact (proj2 (IH _ Hc') Hos).
Qed.

Lemma canPlay_sticky_false_witness :
  let w := runs incrementer (Play :: map Frame (timestamps 12)) (new_Model incrementer) in
  canPlay (cur w) = false /\
  canPlay (cur (runs incrementer [Play; Frame 300; SetTick 20; Pause; SetData 0] w))
    = false /\
  tick (cur (runs incrementer [Play; Frame 300; Frame 316; Play] w)) = tick (cur w).
Proof.
  assert (H : canPlay (cur (runs incrementer (Play :: map Frame (timestamps 12))
                              (new_Model incrementer))) = false)
    by (vm_compute; reflexivity).
  split; [exact H|]. split.
  - apply (proj1 (canPlay_sticky_false incrementer
                    [Play; Frame 300; SetTick 20; Pause; SetData 0] _ H)).
    repeat constructor.
  - apply (proj2 (canPlay_sticky_false incrementer
                    [Play; Frame 300; Frame 316; Play] _ H)).
    repeat constructor.
Defined.

(** ** Properties of the two cache fields, record by record *)

Section RecordInvariant.

Context {T U : Type}.
Variable props : ModelProps T U.
Variable R : ModelState T U -> Prop.
Implicit Types (w : World T U).

Hypothesis R_fields : forall s s' : ModelState T U,
  cachedDataKeys s' = cachedDataKeys s ->
  cachedDataKeysQueue s' = cachedDataKeysQueue s -> R s -> R s'.
Hypothesis R_cache : forall t s, R s -> R (cache_record props t s).
Hypothesis R_empty : forall s : ModelState T U,
  cachedDataKeys s = ∅ -> cachedDataKeysQueue s = [] -> R s.

Lemma everywhere_modify state f w :
  (forall s, cachedDataKeys (f s) = cachedDataKeys s) ->
  (forall s, cachedDataKeysQueue (f s) = cachedDataKeysQueue s) ->
  everywhere R w -> everywhere R (modify state f w).
Proof.
  intros Hk Hq H a. rewrite records_modify.
  case_decide; [|apply H]. apply (R_fields (records w state)); auto.
Qed.

Lemma everywhere_stopAndCancelTimer state w :
  everywhere R w -> everywhere R (stopAndCancelTimer state w).
Proof.
  intros H. unfold stopAndCancelTimer. destruct (truthy _); [|exact H].
  apply everywhere_modify; auto.
Qed.

Lemma everywhere_checkCanPlay t m state w :
  everywhere R w -> everywhere R (checkCanPlay t m state w).2.
Proof.
  intros H. unfold checkCanPlay. destruct (_ || _); simpl; [|exact H].
  do 2 (apply everywhere_modify; auto).
Qed.

Lemma everywhere_reset state w :
  everywhere R w -> everywhere R (reset props state w).2.
Proof.
  intros H a. unfold reset, new_record, new_object.
  destruct state as [b|]; simpl;
    [destruct (clearsDataCacheOnReset props); simpl|];
    unfold insert, fn_insert; case_decide; try apply H;
    solve [apply R_empty; reflexivity
          |apply (R_fields (records w b)); [reflexivity|reflexivity|apply H]].
Qed.

Lemma everywhere_stop w : everywhere R w -> everywhere R (stop props w).
Proof.
  intros H. unfold stop. cbv zeta.
  destruct (reset props _ _) as [fresh w3] eqn:Hr.
  change (everywhere R (fresh, w3).2). rewrite <- Hr.
  apply everywhere_reset, everywhere_modify; auto.
  apply everywhere_stopAndCancelTimer, H.
Qed.

Lemma everywhere_pause w : everywhere R w -> everywhere R (pause w).
Proof.
  intros H. unfold pause. apply everywhere_modify; auto.
  apply everywhere_stopAndCancelTimer, H.
Qed.

Lemma everywhere_complete result state w :
  everywhere R w -> everywhere R (complete props result state (stop props) w).
Proof.
  intros H. unfold complete. apply everywhere_stop, everywhere_modify; auto.
  destruct (0 <? _); [|exact H].
  destruct (_ <? _); repeat (apply everywhere_modify; auto).
Qed.

Lemma everywhere_cacheTick state t d w :
  everywhere R w -> everywhere R (cacheTick props state t d w).
Proof.
  intros H a. rewrite cacheTick_records. case_decide; [apply R_cache|]; apply H.
Qed.

Lemma everywhere_updateToTick target shouldStop state w :
  everywhere R w ->
  everywhere R (updateToTick props target shouldStop state (stop props) pause render w).
Proof.
  apply updateToTick_preserves.
  - intros; apply everywhere_checkCanPlay; assumption.
  - intros a w' H; exact H.
  - intros c w' H. destruct c; simpl.
    + apply everywhere_complete, H.
    + apply everywhere_stop, H.
    + apply everywhere_pause, H.
  - intros; apply everywhere_cacheTick; assumption.
  - intros; apply everywhere_modify; auto.
  - intros; apply everywhere_modify; auto.
  - intros; apply everywhere_modify; auto.
  - intros w' H; exact H.
Qed.

Lemma everywhere_schedule w :
  everywhere R w ->
  everywhere R
    (let '(h, w) := requestAnimationFrame w in
     modify (this_state w) (set_timer (Some h)) w).
Proof.
  intros H. unfold requestAnimationFrame. apply everywhere_modify; auto.
Qed.

Lemma everywhere_advance timestamp w :
  everywhere R w -> everywhere R (advance props timestamp w).
Proof.
  intros H. unfold advance.
  pose proof (everywhere_checkCanPlay (tick (cur w)) (maxTime props) (this_state w) w H)
    as Hc.
  destruct (checkCanPlay _ _ _ w) as [[] w1]; simpl in Hc; [|exact Hc].
  cbv zeta.
  set (w2 := match time (cur w1) with
             | Some _ => w1
             | None => modify (this_state w1) (set_time (Some timestamp)) w1
             end).
  assert (H2 : everywhere R w2).
  { unfold w2. destruct (time (cur w1)); [assumption|].
    apply everywhere_modify; auto. }
  clearbody w2.
  set (w3 := if delay props <=? timestamp - nullish (time (cur w2)) 0 then _ else w2).
  assert (H3 : everywhere R w3).
  { unfold w3. destruct (_ <=? _); [|assumption].
    apply everywhere_updateToTick, everywhere_modify; auto. }
  clearbody w3.
  destruct (isPlaying (cur w3)) as [[]|]; try assumption.
  destruct (truthy _); [apply (everywhere_schedule (cancelAnimationFrame _ w3))
                       |apply everywhere_schedule]; exact H3.
Qed.

Lemma everywhere_run (o : Op T) w : everywhere R w -> everywhere R (run props o w).
Proof.
  intros H. destruct o; simpl.
  - unfold play. apply (everywhere_schedule (modify _ _ w)).
    apply everywhere_modify; auto.
  - apply everywhere_pause, H.
  - apply everywhere_stop, H.
  - unfold setTick. apply everywhere_updateToTick, everywhere_stopAndCancelTimer, H.
  - unfold setParams. cbv zeta.
    assert (H1 : everywhere R
              (modify (this_state w)
                 (fun s => set_params (updatedParams ∪ params s) s) w))
      by (apply everywhere_modify; auto).
    destruct (resetsOnChange props); [|exact H1].
    pose proof (everywhere_reset (Some (this_state w)) _ H1) as H2.
    rewrite this_state_modify.
    destruct (reset props _ _); exact H2.
  - unfold setData. repeat (apply everywhere_modify; auto).
    apply everywhere_stopAndCancelTimer, everywhere_modify; auto.
  - unfold frame. destruct (pending w); [exact H|].
    apply everywhere_advance. exact H.
Qed.

Lemma everywhere_runs (os : list (Op T)) w :
  everywhere R w -> everywhere R (runs props os w).
Proof.
  unfold runs. revert w. induction os as [|o os IH]; intros w H; simpl; [exact H|].
  apply IH, everywhere_run, H.
Qed.

Lemma everywhere_new_Model : everywhere R (new_Model props).
Proof.
  intros a. unfold new_Model, reset, new_record, new_object. simpl.
  unfold insert, fn_insert. case_decide; apply R_empty; reflexivity.
Qed.

End RecordInvariant.

Lemma cache_record_sound {T U} (props : ModelProps T U) t (s : ModelState T U) :
  cache_sound props s -> cache_sound props (cache_record props t s).
Proof.
  intros [Hlen Hsub]. unfold cache_record.
  destruct (Z.ltb_spec 0 (dataCacheSize props)) as [Hpos|]; [|split; assumption].
  cbv zeta.
  destruct (Z.leb_spec (Z.of_nat (length (cachedDataKeysQueue s ++ [t])))
              (dataCacheSize props)) as [Hroom|Hfull].
  - split; simpl; [lia|].
    intros k Hk. apply elem_of_union in Hk as [Hk|Hk].
    + left. apply elem_of_singleton in Hk as ->. set_solver.
    + destruct (Hsub k Hk); [left; set_solver|auto].
  - destruct (cachedDataKeysQueue s ++ [t]) as [|x q'] eqn:Hq.
    { destruct (cachedDataKeysQueue s); discriminate. }
    assert (Hin : forall k, k ∈ cachedDataKeys s -> k ∈ x :: q' \/ k = 0).
    { intros k Hk. destruct (Hsub k Hk); [left|auto]. rewrite <- Hq. set_solver. }
    assert (Hlen' : Z.of_nat (length q') <= Z.max 0 (dataCacheSize props)).
    { apply (f_equal length) in Hq. rewrite length_app in Hq. simpl in Hq. lia. }
    simpl. destruct (Z.eqb_spec x 0) as [->|Hx]; simpl; (split; [exact Hlen'|]).
    + intros k Hk. destruct (Hin k Hk) as [Hk'|]; [|auto].
      apply elem_of_cons in Hk' as [->|]; auto.
    + intros k Hk. simpl in Hk. apply elem_of_difference in Hk as [Hk Hne].
      destruct (Hin k Hk) as [Hk'|]; [|auto].
      apply elem_of_cons in Hk' as [->|]; [|auto]. set_solver.
Qed.

(** X14: the part of the cache invariant the code keeps, over every
    sequence of public operations: the queue is within [dataCacheSize],
    and every key other than 0 is queued. *)
Lemma cache_sound_runs {T U} (props : ModelProps T U) (os : list (Op T)) :
  cache_sound props (cur (runs props os (new_Model props))).
Proof.
  apply (everywhere_runs props (cache_sound props)).
  - intros s s' Hk Hq. unfold cache_sound. rewrite Hk, Hq. auto.
  - intros t s. apply cache_record_sound.
  - intros s Hk Hq. unfold cache_sound. rewrite Hk, Hq. split; [simpl; lia|].
    intros k Hin. set_solver.
  - apply everywhere_new_Model.
    intros s Hk Hq. unfold cache_sound. rewrite Hk, Hq. split; [simpl; lia|].
    intros k Hin. set_solver.
Qed.

(** ** A run of the incrementer *)

Lemma checkCanPlay_ok {T U} t m state (w : World T U) :
  canPlay (records w state) = true -> exceeds t m = false ->
  checkCanPlay t m state w = (true, w).
Proof. intros Hc He. unfold checkCanPlay. rewrite Hc, He. reflexivity. Qed.

Lemma checkCanPlay_over {T U} t m state (w : World T U) :
  exceeds t m = true ->
  checkCanPlay t m state w =
  (false, modify state (set_isPlaying (Some false)) (modify state (set_canPlay false) w)).
Proof.
  intros He. unfold checkCanPlay. rewrite He, orb_true_r. reflexivity.
Qed.

Lemma incrementer_at_time t v w :
  incrementer_at t w ->
  incrementer_at t (modify (this_state w) (set_time v) w).
Proof.
  unfold incrementer_at. rewrite cur_modify_this, pending_modify. tauto.
Qed.

Lemma incrementer_step t w :
  incrementer_at t w -> t <= 10 ->
  incrementer_at (t + 1)
    (updateToTick incrementer (t + 1) false (this_state w)
       (stop incrementer) pause render w).
Proof.
  intros (Hcan & Hplay & Hkeys & Htick & Hdata & Hpend) Hle.
  unfold updateToTick. fold (cur w). rewrite Hkeys.
  rewrite !bool_decide_eq_false_2 by set_solver.
  rewrite Htick. replace (Z.to_nat (t + 1 - t)) with 1%nat by lia.
  unfold stepping.
  rewrite checkCanPlay_ok;
    [|exact Hcan|apply Z.ltb_ge; exact Hle].
  unfold incrementer at 1 2. simpl.
  unfold incrementerUpdateData. simpl.
  unfold cacheTick. simpl.
  unfold incrementer_at, render, cur. read_store.
  fold (cur w). rewrite Hdata. repeat split; auto.
Qed.

Lemma incrementer_frame timestamp w :
  incrementer_playing w ->
  incrementer_playing (frame incrementer timestamp w) \/
  incrementer_ended (frame incrementer timestamp w).
Proof.
  intros (Hcan & Hplay & Hkeys & Htick & Hdata & h & Hpend).
  unfold frame. rewrite Hpend.
  set (w0 := set_pending [] w).
  assert (H0 : incrementer_at (tick (cur w)) w0).
  { unfold incrementer_at. repeat split; auto. }
  clearbody w0. destruct H0 as (Hcan0 & Hplay0 & Hkeys0 & Htick0 & Hdata0 & Hpend0).
  unfold advance.
  destruct (Z.ltb_spec 10 (tick (cur w0))) as [Hover|Hin].
  - right. rewrite checkCanPlay_over by (apply Z.ltb_lt; exact Hover).
    unfold incrementer_ended, cur. read_store.
    fold (cur w0). repeat split; auto; lia.
  - left. rewrite checkCanPlay_ok;
      [|exact Hcan0|apply Z.ltb_ge; exact Hin].
    assert (H0 : incrementer_at (tick (cur w0)) w0).
    { unfold incrementer_at. repeat split; auto; congruence. }
    set (w2 := match time (cur w0) with
               | Some _ => w0
               | None => modify (this_state w0) (set_time (Some timestamp)) w0
               end).
    assert (H2 : incrementer_at (tick (cur w0)) w2).
    { unfold w2. destruct (time (cur w0)); [exact H0|].
      apply incrementer_at_time, H0. }
    clearbody w2.
    set (w3 := if delay incrementer <=? timestamp - nullish (time (cur w2)) 0
               then _ else w2).
    assert (H3 : exists t, incrementer_at t w3 /\ tick (cur w0) <= t <= tick (cur w0) + 1).
    { unfold w3. destruct (_ <=? _).
      - exists (tick (cur w0) + 1). split; [|lia].
        pose proof (incrementer_at_time _ (Some timestamp) _ H2) as H2'.
        rewrite cur_modify_this. simpl.
        replace (tick (cur w2)) with (tick (cur w0))
          by (symmetry; apply H2).
        apply (incrementer_step _ _ H2'). exact Hin.
      - exists (tick (cur w0)). split; [exact H2|lia]. }
    clearbody w3. destruct H3 as (t & (Hc3 & Hp3 & Hk3 & Ht3 & Hd3 & Hpe3) & Hrange).
    rewrite Hp3. cbv zeta.
    set (w4 := match truthy (timer (cur w3)) with
               | Some h => cancelAnimationFrame h w3
               | None => w3
               end).
    assert (H4 : cur w4 = cur w3 /\ pending w4 = []).
    { unfold w4. destruct (truthy _); [|auto].
      unfold cancelAnimationFrame, cur. simpl. rewrite Hpe3. auto. }
    clearbody w4. destruct H4 as [Hcur4 Hpe4].
    unfold incrementer_playing, requestAnimationFrame, cur. read_store.
    fold (cur w4). rewrite Hcur4, Hpe4.
    repeat split; auto; try lia; try congruence. eauto.
Qed.

Lemma incrementer_frames timestamps w :
  incrementer_playing w \/ incrementer_ended w ->
  incrementer_playing (runs incrementer (map Frame timestamps) w) \/
  incrementer_ended (runs incrementer (map Frame timestamps) w).
Proof.
  unfold runs. revert w.
  induction timestamps as [|timestamp timestamps IH]; intros w H; simpl; [exact H|].
  apply IH. destruct H as [H|H].
  - apply incrementer_frame, H.
  - right. unfold frame.
    destruct H as (? & ? & ? & ? & Hpend). rewrite Hpend.
    repeat split; assumption.
Qed.

(** ** The scenarios of the specification, run on the code *)

(** C1: the incrementer with [maxTime = 10], played until no callback is
    outstanding.  After ten callbacks the tick is 10 and the engine still
    plays; the eleventh callback passes the stop-condition check (10 is
    not greater than 10) and steps to 11; the twelfth trips the check.
    The run ends with [tick = 11] and [data = 11], not 10, and later
    frames change nothing.  Whatever the timestamps of the callbacks,
    a run that has no callback left ended at tick 11, and at no point of
    a run is the tick 10 with [canPlay] false. *)
Theorem incrementer_run_ends_at_11 :
  let start := new_Model incrementer in
  let after n := runs incrementer (Play :: map Frame (timestamps n)) start in
  (tick (cur (after 10%nat)) = 10 /\ data (cur (after 10%nat)) = 10 /\
   canPlay (cur (after 10%nat)) = true /\
   isPlaying (cur (after 10%nat)) = Some true /\
   pending (after 10%nat) <> []) /\
  (tick (cur (after 11%nat)) = 11 /\ canPlay (cur (after 11%nat)) = true /\
   pending (after 11%nat) <> []) /\
  (tick (cur (after 12%nat)) = 11 /\ data (cur (after 12%nat)) = 11 /\
   canPlay (cur (after 12%nat)) = false /\
   isPlaying (cur (after 12%nat)) = Some false /\
   pending (after 12%nat) = []) /\
  (forall timestamp, frame incrementer timestamp (after 12%nat) = after 12%nat) /\
  (forall timestamps,
     let w := runs incrementer (Play :: map Frame timestamps) start in
     (pending w = [] ->
      tick (cur w) = 11 /\ data (cur w) = 11 /\
      canPlay (cur w) = false /\ isPlaying (cur w) = Some false) /\
     ~ (tick (cur w) = 10 /\ canPlay (cur w) = false)).
Proof.
  cbv zeta. split; [|split; [|split; [|split]]].
  - vm_compute. repeat split; try reflexivity; discriminate.
  - vm_compute. repeat split; try reflexivity; discriminate.
  - vm_compute. repeat split; reflexivity.
  - intros timestamp. unfold frame.
    replace (pending (runs incrementer (Play :: map Frame (timestamps 12))
                        (new_Model incrementer))) with (@nil Z)
      by (vm_compute; reflexivity).
    reflexivity.
  - intros tss.
    assert (Hstart : incrementer_playing (play (new_Model incrementer))).
    { unfold incrementer_playing.
      repeat split; try (vm_compute; reflexivity); try (vm_compute; discriminate).
      exists 1. vm_compute. reflexivity. }
    destruct (incrementer_frames tss _ (or_introl Hstart))
      as [(Hc & _ & _ & _ & _ & h & Hp)|(Hc & Hp & Ht & Hd & _)];
      change (runs incrementer (map Frame tss) (play (new_Model incrementer)))
        with (runs incrementer (Play :: map Frame tss) (new_Model incrementer)) in *.
    + split; [rewrite Hp; discriminate|]. rewrite Hc. intros [_ [=]].
    + split; [auto|]. rewrite Ht. intros [[=] _].
Qed.

(** C2: with [dataCacheSize = 2], seeking a fresh incrementer to tick 3
    evicts tick 1 and queues tick 3 without adding it to the key set: the
    queue is [2; 3] and the key set is {2}. *)
Theorem eviction_loses_newest_key :
  let w := runs (cachingIncrementer 2) [SetTick 3] (new_Model (cachingIncrementer 2)) in
  cachedDataKeysQueue (cur w) = [2; 3] /\
  elements (cachedDataKeys (cur w)) = [2] /\
  cachedDataKeys (cur w) <> list_to_set (cachedDataKeysQueue (cur w)) /\
  objects w (cachedData (cur w)) !! 3 = Some 3.
Proof.
  cbv zeta.
  assert (Hq : cachedDataKeysQueue
                 (cur (runs (cachingIncrementer 2) [SetTick 3]
                         (new_Model (cachingIncrementer 2)))) = [2; 3])
    by (vm_compute; reflexivity).
  assert (Hk : elements (cachedDataKeys
                 (cur (runs (cachingIncrementer 2) [SetTick 3]
                         (new_Model (cachingIncrementer 2))))) = [2])
    by (vm_compute; reflexivity).
  split; [exact Hq|]. split; [exact Hk|]. split; [|vm_compute; reflexivity].
  rewrite Hq. intros Heq.
  assert (H3 : 3 ∈ elements (cachedDataKeys
                 (cur (runs (cachingIncrementer 2) [SetTick 3]
                         (new_Model (cachingIncrementer 2)))))).
  { apply elem_of_elements. rewrite Heq. set_solver. }
  rewrite Hk in H3. apply list_elem_of_singleton in H3. discriminate.
Qed.

(** C3: under the default [resetsOnChange = true], [setParams] on the
    incrementer seeked to tick 5 merges the parameters and leaves the
    rest of the record as it was: the tick stays 5 and the data 5, where
    the reset algorithm gives [initialTick = 0] and [initData() = 0]; the
    record [reset] built sits in the store, bound to nothing. *)
Theorem setParams_discards_reset :
  let w := runs incrementer [SetTick 5] (new_Model incrementer) in
  let w' := run incrementer (SetParams {[ "speed"%string := PNum 2 ]}) w in
  resetsOnChange incrementer = true /\
  params (cur w') !! "speed"%string = Some (PNum 2) /\
  tick (cur w') = 5 /\ data (cur w') = 5 /\
  this_state w' = this_state w /\
  tick (records w' (reset incrementer (Some (this_state w)) w).1) = 0 /\
  data (records w' (reset incrementer (Some (this_state w)) w).1) = 0.
Proof. vm_compute. repeat split; reflexivity. Qed.

(** C4: with [dataCacheSize = 3], after seeking to tick 3 the tick 2 is
    cached with data 2; seeking to it calls neither callback, and leaves
    [tick = 3] and [data = 3]. *)
Theorem cached_seek_changes_nothing :
  let w := runs (cachingIncrementer 3) [SetTick 3] (new_Model (cachingIncrementer 3)) in
  let w' := run (cachingIncrementer 3) (SetTick 2) w in
  2 ∈ cachedDataKeys (cur w) /\
  objects w (cachedData (cur w)) !! 2 = Some 2 /\
  tick (cur w') = 3 /\ data (cur w') = 3 /\
  updated w' = updated w /\ rendered w' = rendered w.
Proof.
  cbv zeta. split.
  - apply elem_of_elements. vm_compute. set_solver.
  - vm_compute. repeat split; reflexivity.
Qed.

(** ** The results buffer *)

Section Results.

Context {T U : Type}.
Variable props : ModelProps T U.
Implicit Types (w : World T U) (buffer : list U).

Lemma retain_most_recent result buffer :
  0 < resultsCacheSize props ->
  Z.of_nat (length buffer) <= resultsCacheSize props ->
  retain (resultsCacheSize props) result buffer =
  most_recent (Z.to_nat (resultsCacheSize props)) (buffer ++ [result]).
Proof.
  intros Hpos Hlen. unfold retain, most_recent.
  rewrite (proj2 (Z.ltb_lt _ _) Hpos). rewrite length_app. simpl.
  destruct (Z.ltb_spec (resultsCacheSize props)
              (Z.of_nat (length buffer + 1))) as [Hfull|Hroom].
  - replace (length buffer + 1 - Z.to_nat (resultsCacheSize props))%nat
      with 1%nat by lia.
    destruct (buffer ++ [result]); reflexivity.
  - replace (length buffer + 1 - Z.to_nat (resultsCacheSize props))%nat
      with 0%nat by lia.
    reflexivity.
Qed.

Lemma retain_length result buffer :
  Z.of_nat (length buffer) <= resultsCacheSize props ->
  Z.of_nat (length (retain (resultsCacheSize props) result buffer))
    <= resultsCacheSize props.
Proof.
  intros Hlen. unfold retain.
  destruct (Z.ltb_spec 0 (resultsCacheSize props)) as [Hpos|]; [|exact Hlen].
  destruct (Z.ltb_spec (resultsCacheSize props)
              (Z.of_nat (length (buffer ++ [result])))) as [Hfull|Hroom];
    [|exact Hroom].
  rewrite length_app in *. simpl in *.
  destruct buffer; simpl in *; [lia|]. rewrite length_app. simpl. lia.
Qed.

Lemma most_recent_snoc (n : nat) (l : list U) (x : U) :
  (0 < n)%nat ->
  most_recent n (most_recent n l ++ [x]) = most_recent n (l ++ [x]).
Proof.
  intros Hn. unfold most_recent.
  rewrite !length_app, length_drop. simpl.
  destruct (decide (length l <= n)%nat) as [Hle|Hgt].
  - replace (length l - n)%nat with 0%nat by lia. rewrite drop_0.
    f_equal. lia.
  - replace (length l - (length l - n) + 1 - n)%nat with 1%nat by lia.
    replace (length l + 1 - n)%nat with (S (length l - n)) by lia.
    rewrite (drop_app_le l [x] (S (length l - n))) by lia.
    replace (S (length l - n)) with (length l - n + 1)%nat by lia.
    rewrite <- (drop_drop l 1 (length l - n)).
    destruct (drop (length l - n) l) eqn:Hd.
    + apply (f_equal length) in Hd. rewrite length_drop in Hd. simpl in Hd. lia.
    + reflexivity.
Qed.

Lemma most_recent_length (n : nat) (l : list U) :
  (length (most_recent n l) <= n)%nat.
Proof. unfold most_recent. rewrite length_drop. lia. Qed.

Lemma most_recent_app (n : nat) (l k : list U) :
  (0 < n)%nat ->
  most_recent n (most_recent n l ++ k) = most_recent n (l ++ k).
Proof.
  intros Hn. induction k as [|x k IH] using rev_ind.
  - rewrite !app_nil_r. unfold most_recent at 1.
    pose proof (most_recent_length n l).
    replace (length (most_recent n l) - n)%nat with 0%nat by lia.
    reflexivity.
  - rewrite !app_assoc.
    rewrite <- (most_recent_snoc n (most_recent n l ++ k)) by exact Hn.
    rewrite IH. apply most_recent_snoc, Hn.
Qed.

(** [stop()] hands the results to the fresh record when it does not clear
    them. *)
Lemma stop_results w :
  results (cur (stop props w)) =
  if clearsResultsCacheOnReset props then [] else results (cur w).
Proof.
  unfold stop, reset, new_record, new_object. simpl.
  rewrite stopAndCancelTimer_this.
  destruct (clearsDataCacheOnReset props), (clearsResultsCacheOnReset props);
    simpl; unfold cur; simpl; rewrite fn_lookup_insert; simpl; try reflexivity.
  all: rewrite fn_lookup_insert; simpl.
  all: pose proof (stopAndCancelTimer_cur (this_state w) w) as Hcur.
  all: unfold cur in Hcur; rewrite stopAndCancelTimer_this in Hcur; rewrite Hcur.
  all: destruct (truthy _); [case_decide|]; reflexivity.
Qed.

Lemma complete_results result w :
  results (cur (complete props result (this_state w) (stop props) w)) =
  if clearsResultsCacheOnReset props then []
  else retain (resultsCacheSize props) result (results (cur w)).
Proof.
  destruct (complete_written props result (this_state w) (stop props) w)
    as (w' & -> & Hrec & _ & _ & Hthis & _).
  rewrite stop_results. destruct (clearsResultsCacheOnReset props); [reflexivity|].
  unfold cur. rewrite Hthis, Hrec. reflexivity.
Qed.

End Results.

Lemma most_recent_overflow {A} (n : nat) (old new : list A) :
  (n <= length new)%nat -> most_recent n (old ++ new) = most_recent n new.
Proof.
  intros Hn. unfold most_recent. rewrite length_app, drop_app.
  rewrite drop_ge by lia. simpl. f_equal. lia.
Qed.

(** ** Tick 0 in the data cache *)

Lemma truthy_Some h r : truthy h = Some r -> h = Some r /\ r <> 0.
Proof.
  unfold truthy. destruct h as [x|]; [|discriminate].
  destruct (Z.eqb_spec x 0); [discriminate|]. intros [= ->]. auto.
Qed.

Lemma truthy_None h : truthy h = None -> h = None \/ h = Some 0.
Proof.
  unfold truthy. destruct h as [x|]; [|auto].
  destruct (Z.eqb_spec x 0); [subst; auto|discriminate].
Qed.

Section TickZero.

Context {T U : Type}.
Variable props : ModelProps T U.
Variable l : nat.
Implicit Types (w : World T U).

Lemma keeps_zero_modify state f w :
  (forall s, cachedData (f s) = cachedData s) ->
  (forall s, cachedDataKeys (f s) = cachedDataKeys s) ->
  keeps_zero l w -> keeps_zero l (modify state f w).
Proof.
  unfold keeps_zero. intros Hc Hk (Hl & Ho & Hz & Hm).
  rewrite records_modify, objects_modify.
  case_decide; subst; rewrite ?Hc, ?Hk; auto.
Qed.

Lemma keeps_zero_stopAndCancelTimer state w :
  keeps_zero l w -> keeps_zero l (stopAndCancelTimer state w).
Proof.
  intros H. unfold stopAndCancelTimer. destruct (truthy _); [|exact H].
  apply keeps_zero_modify; auto.
Qed.

Lemma keeps_zero_checkCanPlay t m state w :
  keeps_zero l w -> keeps_zero l (checkCanPlay t m state w).2.
Proof.
  intros H. unfold checkCanPlay. destruct (_ || _); simpl; [|exact H].
  do 2 (apply keeps_zero_modify; auto).
Qed.

Lemma keeps_zero_reset state w :
  keeps_zero l w -> keeps_zero l (reset props state w).2.
Proof.
  intros (Hl & Ho & Hz & Hm). unfold reset, new_record, new_object, keeps_zero.
  destruct state as [a|]; simpl;
    [destruct (clearsDataCacheOnReset props); simpl|];
    rewrite !fn_lookup_insert_ne by lia; auto with lia.
Qed.

Lemma keeps_zero_rebind a w :
  keeps_zero l w -> keeps_zero l (set_this_state a w).
Proof. intros H; exact H. Qed.

Lemma keeps_zero_stop w : keeps_zero l w -> keeps_zero l (stop props w).
Proof.
  intros H. unfold stop. cbv zeta.
  destruct (reset props _ _) as [fresh w3] eqn:Hr.
  apply keeps_zero_rebind.
  change w3 with (fresh, w3).2. rewrite <- Hr.
  apply keeps_zero_reset, keeps_zero_modify; auto.
  apply keeps_zero_stopAndCancelTimer, H.
Qed.

Lemma keeps_zero_pause w : keeps_zero l w -> keeps_zero l (pause w).
Proof.
  intros H. unfold pause. apply keeps_zero_modify; auto.
  apply keeps_zero_stopAndCancelTimer, H.
Qed.

Lemma keeps_zero_complete result state w :
  keeps_zero l w -> keeps_zero l (complete props result state (stop props) w).
Proof.
  intros H. unfold complete. apply keeps_zero_stop, keeps_zero_modify; auto.
  destruct (0 <? _); [|exact H].
  destruct (_ <? _); repeat (apply keeps_zero_modify; auto).
Qed.

Lemma cache_record_zero t (s : ModelState T U) :
  cachedData (cache_record props t s) = cachedData s /\
  (0 ∈ cachedDataKeys s -> 0 ∈ cachedDataKeys (cache_record props t s)).
Proof.
  unfold cache_record. destruct (0 <? _); [|auto].
  cbv zeta. destruct (_ <=? _); simpl; [split; [reflexivity|set_solver]|].
  destruct (truthy _) as [r|] eqn:Hr; simpl; [|auto].
  apply truthy_Some in Hr as [_ Hr]. split; [reflexivity|set_solver].
Qed.

Lemma cache_object_zero t d (s : ModelState T U) (m : gmap Z T) :
  is_Some (m !! 0) -> is_Some (cache_object props t d s m !! 0).
Proof.
  intros Hm. unfold cache_object. destruct (0 <? _); [|exact Hm].
  cbv zeta.
  assert (Hins : forall m' : gmap Z T, is_Some (m' !! 0) -> is_Some (<[t := d]> m' !! 0)).
  { intros m' Hm'. rewrite lookup_insert. case_decide; [eauto|exact Hm']. }
  destruct (_ <=? _); [apply Hins, Hm|].
  destruct (truthy _) as [r|] eqn:Hr; [|apply Hins, Hm].
  apply truthy_Some in Hr as [_ Hr].
  apply Hins. rewrite lookup_delete_ne by congruence. exact Hm.
Qed.

Lemma cacheTick_next state t d w :
  next_record (cacheTick props state t d w) = next_record w /\
  next_object (cacheTick props state t d w) = next_object w.
Proof.
  unfold cacheTick. destruct (0 <? _); [|auto]. cbv zeta.
  destruct (_ <=? _); [auto|]. destruct (truthy _); auto.
Qed.

Lemma keeps_zero_cacheTick state t d w :
  keeps_zero l w -> keeps_zero l (cacheTick props state t d w).
Proof.
  unfold keeps_zero. intros (Hl & Ho & Hz & Hm).
  destruct (cacheTick_next state t d w) as [-> ->].
  rewrite cacheTick_records.
  assert (Hrec : cachedData (if decide (state = l)
                             then cache_record props t (records w state)
                             else records w l) = cachedData (records w l) /\
                 0 ∈ cachedDataKeys (if decide (state = l)
                                     then cache_record props t (records w state)
                                     else records w l)).
  { case_decide; [subst|auto]. destruct (cache_record_zero t (records w l)); auto. }
  destruct Hrec as [Hcd Hkeys]. rewrite Hcd, cacheTick_objects.
  repeat split; auto.
  destruct (decide (cachedData (records w state) = cachedData (records w l)));
    [apply cache_object_zero|]; exact Hm.
Qed.

Lemma keeps_zero_updateToTick target shouldStop state w :
  keeps_zero l w ->
  keeps_zero l
    (updateToTick props target shouldStop state (stop props) pause render w).
Proof.
  apply updateToTick_preserves.
  - intros; apply keeps_zero_checkCanPlay; assumption.
  - intros a w' H; exact H.
  - intros c w' H. destruct c; simpl.
    + apply keeps_zero_complete, H.
    + apply keeps_zero_stop, H.
    + apply keeps_zero_pause, H.
  - intros; apply keeps_zero_cacheTick; assumption.
  - intros; apply keeps_zero_modify; auto.
  - intros; apply keeps_zero_modify; auto.
  - intros; apply keeps_zero_modify; auto.
  - intros w' H; exact H.
Qed.

Lemma keeps_zero_schedule w :
  keeps_zero l w ->
  keeps_zero l
    (let '(h, w) := requestAnimationFrame w in
     modify (this_state w) (set_timer (Some h)) w).
Proof.
  intros H. unfold requestAnimationFrame. apply keeps_zero_modify; auto.
Qed.

Lemma keeps_zero_advance timestamp w :
  keeps_zero l w -> keeps_zero l (advance props timestamp w).
Proof.
  intros H. unfold advance.
  pose proof (keeps_zero_checkCanPlay (tick (cur w)) (maxTime props) (this_state w) w H)
    as Hc.
  destruct (checkCanPlay _ _ _ w) as [[] w1]; simpl in Hc; [|exact Hc].
  cbv zeta.
  set (w2 := match time (cur w1) with
             | Some _ => w1
             | None => modify (this_state w1) (set_time (Some timestamp)) w1
             end).
  assert (H2 : keeps_zero l w2).
  { unfold w2. destruct (time (cur w1)); [assumption|].
    apply keeps_zero_modify; auto. }
  clearbody w2.
  set (w3 := if delay props <=? timestamp - nullish (time (cur w2)) 0 then _ else w2).
  assert (H3 : keeps_zero l w3).
  { unfold w3. destruct (_ <=? _); [|assumption].
    apply keeps_zero_updateToTick, keeps_zero_modify; auto. }
  clearbody w3.
  destruct (isPlaying (cur w3)) as [[]|]; try assumption.
  destruct (truthy _); [apply (keeps_zero_schedule (cancelAnimationFrame _ w3))
                       |apply keeps_zero_schedule]; exact H3.
Qed.

Lemma keeps_zero_run (o : Op T) w :
  keeps_zero l w -> keeps_zero l (run props o w).
Proof.
  intros H. destruct o; simpl.
  - unfold play. apply (keeps_zero_schedule (modify _ _ w)).
    apply keeps_zero_modify; auto.
  - apply keeps_zero_pause, H.
  - apply keeps_zero_stop, H.
  - unfold setTick. apply keeps_zero_updateToTick, keeps_zero_stopAndCancelTimer, H.
  - unfold setParams. cbv zeta.
    assert (H1 : keeps_zero l
              (modify (this_state w)
                 (fun s => set_params (updatedParams ∪ params s) s) w))
      by (apply keeps_zero_modify; auto).
    destruct (resetsOnChange props); [|exact H1].
    pose proof (keeps_zero_reset (Some (this_state w)) _ H1) as H2.
    rewrite this_state_modify.
    destruct (reset props _ _); exact H2.
  - unfold setData. repeat (apply keeps_zero_modify; auto).
    apply keeps_zero_stopAndCancelTimer, keeps_zero_modify; auto.
  - unfold frame. destruct (pending w); [exact H|].
    apply keeps_zero_advance. exact H.
Qed.

Lemma keeps_zero_runs (os : list (Op T)) w :
  keeps_zero l w -> keeps_zero l (runs props os w).
Proof.
  unfold runs. revert w. induction os as [|o os IH]; intros w H; simpl; [exact H|].
  apply IH, keeps_zero_run, H.
Qed.

End TickZero.

(** C10: when a push makes the queue longer than [dataCacheSize], the
    oldest queued tick leaves the queue; its entries in [cachedDataKeys]
    and in [cachedData] are deleted when it is not 0, and are left in
    place when it is 0.  From then on no sequence of public operations
    removes tick 0 from the key set or from the [cachedData] object of
    that record. *)
Theorem eviction_skips_tick_zero {T U} (props : ModelProps T U) :
  (forall state t d (w : World T U) x rest,
     0 < dataCacheSize props ->
     cachedDataKeysQueue (records w state) = x :: rest ->
     dataCacheSize props < Z.of_nat (length (x :: rest)) + 1 ->
     let w' := cacheTick props state t d w in
     let o := cachedData (records w state) in
     cachedDataKeysQueue (records w' state) = rest ++ [t] /\
     (x <> 0 ->
      cachedDataKeys (records w' state) = cachedDataKeys (records w state) ∖ {[x]} /\
      objects w' o = <[t := d]> (delete x (objects w o))) /\
     (x = 0 ->
      cachedDataKeys (records w' state) = cachedDataKeys (records w state) /\
      objects w' o = <[t := d]> (objects w o))) /\
  (forall l (os : list (Op T)) (w : World T U),
     keeps_zero l w -> keeps_zero l (runs props os w)).
Proof.
  split; [|intros l os w; apply keeps_zero_runs].
  intros state t d w x rest Hpos Hq Hfull. cbv zeta.
  rewrite cacheTick_records, cacheTick_objects, !decide_True by reflexivity.
  unfold cache_record, cache_object.
  rewrite (proj2 (Z.ltb_lt _ _) Hpos). cbv zeta. rewrite Hq.
  assert (Hlen : (Z.of_nat (length ((x :: rest) ++ [t])) <=? dataCacheSize props) = false).
  { apply Z.leb_gt. rewrite length_app. simpl in *. lia. }
  rewrite Hlen. simpl.
  destruct (Z.eqb_spec x 0) as [Hx|Hx]; simpl.
  - split; [reflexivity|]. split; [congruence|auto].
  - split; [reflexivity|]. split; [auto|congruence].
Qed.

Lemma eviction_skips_tick_zero_witness :
  let p := earlyIncrementer in
  let w0 := runs p [SetTick 0] (new_Model p) in
  let w1 := runs p [SetTick 1] (new_Model p) in
  (0 < dataCacheSize p /\
   cachedDataKeysQueue (records w0 (this_state w0)) = [0] /\
   dataCacheSize p < Z.of_nat (length [0]) + 1 /\
   cachedDataKeysQueue (records (cacheTick p (this_state w0) 1 2 w0) (this_state w0))
     = [1] /\
   cachedDataKeys (records (cacheTick p (this_state w0) 1 2 w0) (this_state w0))
     = cachedDataKeys (records w0 (this_state w0))) /\
  (cachedDataKeysQueue (cur w1) = [1] /\
   keeps_zero (this_state w1) w1 /\
   keeps_zero (this_state w1)
     (runs p [SetTick 4; Play; Frame 0; Frame 16; Pause; SetData 7; SetTick 9] w1)).
Proof.
  cbv zeta. split.
  - assert (H1 : 0 < dataCacheSize earlyIncrementer) by reflexivity.
    assert (H2 : cachedDataKeysQueue
                   (records (runs earlyIncrementer [SetTick 0] (new_Model earlyIncrementer))
                      (this_state (runs earlyIncrementer [SetTick 0]
                                     (new_Model earlyIncrementer)))) = [0])
      by (vm_compute; reflexivity).
    assert (H3 : dataCacheSize earlyIncrementer < Z.of_nat (length [0]) + 1)
      by reflexivity.
    split; [exact H1|]. split; [exact H2|]. split; [exact H3|].
    destruct (proj1 (eviction_skips_tick_zero earlyIncrementer) _ 1 2 _ 0 [] H1 H2 H3)
      as (Hq & _ & Hzero).
    split; [exact Hq|]. exact (proj1 (Hzero eq_refl)).
  - assert (H : keeps_zero
                  (this_state (runs earlyIncrementer [SetTick 1] (new_Model earlyIncrementer)))
                  (runs earlyIncrementer [SetTick 1] (new_Model earlyIncrementer))).
    { unfold keeps_zero. split; [vm_compute; lia|]. split; [vm_compute; lia|].
      split.
      - apply elem_of_elements. vm_compute. set_solver.
      - vm_compute. eauto. }
    split; [vm_compute; reflexivity|]. split; [exact H|].
    exact (proj2 (eviction_skips_tick_zero earlyIncrementer) _ _ _ H).
Defined.

(** ** A forward seek with the data cache off *)

Lemma exceeds_mono t t' m : t <= t' -> within t' m -> within t m.
Proof.
  unfold within, exceeds. destruct m as [z|]; [|reflexivity].
  intros Hle Hw. apply Z.ltb_ge. apply Z.ltb_ge in Hw. lia.
Qed.

Section ForwardSeek.

Context {T U : Type}.
Variable props : ModelProps T U.
Implicit Types (w : World T U).

Hypothesis Hsilent : silent props.
Hypothesis Hoff : dataCacheSize props <= 0.

Lemma cacheTick_off state t d w : cacheTick props state t d w = w.
Proof.
  unfold cacheTick. destruct (Z.ltb_spec 0 (dataCacheSize props)); [lia|reflexivity].
Qed.

Lemma halted_fields shouldStop (s : ModelState T U) :
  canPlay (halted shouldStop s) = canPlay s /\
  tick (halted shouldStop s) = tick s /\
  data (halted shouldStop s) = data s /\
  params (halted shouldStop s) = params s /\
  cachedData (halted shouldStop s) = cachedData s.
Proof. destruct shouldStop; repeat split; reflexivity. Qed.

(** The loop of [updateToTick] on the current record, for [n] ticks that
    all pass the stop-condition check. *)
Lemma stepping_silent n : forall shouldStop t d w,
  canPlay (cur w) = true ->
  (forall i, (i < n)%nat -> within (t + Z.of_nat i) (maxTime props)) ->
  let c := objects w (cachedData (cur w)) in
  let p := params (cur w) in
  let w' := stepping props n shouldStop (this_state w) (stop props) pause render t d w in
  this_state w' = this_state w /\
  pending w' = pending w /\
  objects w' = objects w /\
  updated w' = updated w ++ transitions props c p n t d /\
  rendered w' = rendered w ++ map (shown props) (transitions props c p n t d) /\
  cur w' =
    match n with
    | O => cur w
    | S _ => halted shouldStop
               (set_tick (t + Z.of_nat n) (set_data (replay props c p n t d) (cur w)))
    end /\
  next_handle w' = next_handle w.
Proof.
  induction n as [|n IH]; intros shouldStop t d w Hcan Hin; cbv zeta.
  - simpl. rewrite !app_nil_r. repeat split; reflexivity.
  - simpl stepping.
    assert (H0 : within t (maxTime props)).
    { replace t with (t + Z.of_nat 0) by lia. apply Hin. lia. }
    rewrite checkCanPlay_ok; [|exact Hcan|exact H0].
    fold (cur w).
    set (a := {| arg_cachedData := objects w (cachedData (cur w)); arg_data := d;
                 arg_tick := t + 1; arg_params := params (cur w) |}).
    pose proof (Hsilent a) as Hcalls.
    destruct (updateData props a) as [d' calls] eqn:Hupd. simpl in Hcalls. subst calls.
    simpl foldl. rewrite cacheTick_off.
    set (w1 := render _).
    assert (Hcur1 : cur w1 = halted shouldStop (set_tick (t + 1) (set_data d' (cur w)))).
    { unfold w1, render, halted. destruct shouldStop; unfold cur; read_store; reflexivity. }
    assert (Hthis1 : this_state w1 = this_state w).
    { unfold w1, render. destruct shouldStop; reflexivity. }
    assert (Hpend1 : pending w1 = pending w).
    { unfold w1, render. destruct shouldStop; reflexivity. }
    assert (Hobj1 : objects w1 = objects w).
    { unfold w1, render. destruct shouldStop; reflexivity. }
    assert (Hupd1 : updated w1 = updated w ++ [a]).
    { unfold w1, render. destruct shouldStop; reflexivity. }
    assert (Hnext1 : next_handle w1 = next_handle w).
    { unfold w1, render. destruct shouldStop; reflexivity. }
    assert (Hren1 : rendered w1 = rendered w ++ [shown props a]).
    { unfold w1, render, shown. rewrite Hupd. simpl.
      destruct shouldStop; unfold log_render; simpl; f_equal; f_equal;
        unfold cur; read_store; reflexivity. }
    clearbody w1.
    destruct (halted_fields shouldStop (set_tick (t + 1) (set_data d' (cur w))))
      as (Hh1 & Hh2 & Hh3 & Hh4 & Hh5).
    assert (Hcan1 : canPlay (cur w1) = true) by (rewrite Hcur1, Hh1; exact Hcan).
    assert (Hin1 : forall i, (i < n)%nat -> within (t + 1 + Z.of_nat i) (maxTime props)).
    { intros i Hi. replace (t + 1 + Z.of_nat i) with (t + Z.of_nat (S i)) by lia.
      apply Hin. lia. }
    specialize (IH shouldStop (t + 1) d' w1 Hcan1 Hin1). cbv zeta in IH.
    rewrite <- Hthis1.
    destruct IH as (I1 & I2 & I3 & I4 & I5 & I6 & I7).
    rewrite Hobj1, Hcur1, Hh4, Hh5 in I4, I5, I6. simpl in I4, I5, I6.
    cbn [transitions replay map]. cbv zeta. fold a. rewrite Hupd. simpl fst.
    repeat split.
    + rewrite I1. reflexivity.
    + rewrite I2. exact Hpend1.
    + rewrite I3. exact Hobj1.
    + rewrite I4, Hupd1, <- app_assoc. reflexivity.
    + rewrite I5, Hren1, <- app_assoc. reflexivity.
    + rewrite I6. destruct n as [|n'].
      * simpl. replace (t + 1) with (t + Z.of_nat 1) by lia. reflexivity.
      * replace (t + 1 + Z.of_nat (S n')) with (t + Z.of_nat (S (S n'))) by lia.
        destruct shouldStop, (cur w); reflexivity.
    + rewrite I7. exact Hnext1.
Qed.

End ForwardSeek.

Lemma stopAndCancelTimer_frame {T U} state (w : World T U) :
  objects (stopAndCancelTimer state w) = objects w /\
  updated (stopAndCancelTimer state w) = updated w /\
  rendered (stopAndCancelTimer state w) = rendered w /\
  next_handle (stopAndCancelTimer state w) = next_handle w /\
  forall a, exists v, records (stopAndCancelTimer state w) a = set_timer v (records w a).
Proof.
  unfold stopAndCancelTimer. destruct (truthy _).
  - repeat split; try reflexivity. intros a. rewrite records_modify.
    change (records (cancelAnimationFrame z w)) with (records w).
    case_decide; [subst; exists None; reflexivity|].
    exists (timer (records w a)). destruct (records w a); reflexivity.
  - repeat split; try reflexivity. intros a.
    exists (timer (records w a)). destruct (records w a); reflexivity.
Qed.

Lemma transitions_length {T U} (props : ModelProps T U) c p n t d :
  length (transitions props c p n t d) = n.
Proof. revert t d. induction n as [|n IH]; intros t d; simpl; [|rewrite IH]; reflexivity. Qed.

Lemma transitions_ticks {T U} (props : ModelProps T U) c p n t d :
  map arg_tick (transitions props c p n t d) = map (fun i => t + 1 + Z.of_nat i) (seq 0 n).
Proof.
  revert t d. induction n as [|n IH]; intros t d; [reflexivity|].
  cbn [transitions map seq]. cbv zeta. rewrite IH. f_equal; [simpl; lia|].
  rewrite <- seq_shift, map_map. apply map_ext. intros i. lia.
Qed.

(** X1: a forward seek replays the transition function.  On an engine
    whose data cache is off and whose transition function calls no
    capability, [setTick(target)] beyond the current tick, with every
    tick before the target within [maxTime], calls the transition
    function once per tick from [tick + 1] to [target], each time on the
    data the previous call returned, calls the render hook after each
    with the data just computed, and leaves [tick = target], the data of
    the last call and [isPlaying = false]. *)
Theorem setTick_replays {T U} (props : ModelProps T U) (w : World T U) (target : Z) :
  silent props ->
  dataCacheSize props <= 0 ->
  cachedDataKeys (cur w) = ∅ ->
  canPlay (cur w) = true ->
  tick (cur w) < target ->
  within (target - 1) (maxTime props) ->
  let n := Z.to_nat (target - tick (cur w)) in
  let calls := transitions props (objects w (cachedData (cur w))) (params (cur w))
                 n (tick (cur w)) (data (cur w)) in
  let w' := setTick props target w in
  tick (cur w') = target /\
  data (cur w') = replay props (objects w (cachedData (cur w))) (params (cur w))
                    n (tick (cur w)) (data (cur w)) /\
  isPlaying (cur w') = Some false /\
  canPlay (cur w') = true /\
  updated w' = updated w ++ calls /\
  rendered w' = rendered w ++ map (shown props) calls /\
  map arg_tick calls = map (fun i => tick (cur w) + 1 + Z.of_nat i) (seq 0 n).
Proof.
  intros Hsilent Hoff Hkeys Hcan Hlt Hmax. cbv zeta.
  unfold setTick.
  destruct (stopAndCancelTimer_frame (this_state w) w) as (Hobj & Hupd & Hren & _ & Hrec).
  pose proof (stopAndCancelTimer_this (this_state w) w) as Hthis.
  set (w1 := stopAndCancelTimer (this_state w) w) in *.
  destruct (Hrec (this_state w)) as [v Hcur1]. fold (cur w) in Hcur1.
  assert (Hcur1' : cur w1 = set_timer v (cur w)).
  { unfold cur. rewrite Hthis. exact Hcur1. }
  clearbody w1. clear Hrec Hcur1.
  unfold updateToTick. fold (cur w1). rewrite Hcur1'. simpl.
  rewrite Hkeys, !bool_decide_eq_false_2 by set_solver.
  assert (Hcan1 : canPlay (cur w1) = true) by (rewrite Hcur1'; exact Hcan).
  assert (Hin : forall i, (i < Z.to_nat (target - tick (cur w)))%nat ->
                          within (tick (cur w) + Z.of_nat i) (maxTime props)).
  { intros i Hi. apply (exceeds_mono _ (target - 1)); [lia|exact Hmax]. }
  destruct (stepping_silent props Hsilent Hoff (Z.to_nat (target - tick (cur w))) true
              (tick (cur w)) (data (cur w)) w1 Hcan1 Hin)
    as (_ & _ & _ & S4 & S5 & S6 & _).
  rewrite Hcur1', Hobj in S4, S5, S6. rewrite Hupd in S4. rewrite Hren in S5.
  simpl in S4, S5, S6.
  rewrite S4, S5, S6.
  destruct (Z.to_nat (target - tick (cur w))) as [|n] eqn:Hn; [lia|].
  rewrite <- Hn. simpl.
  repeat split; try reflexivity; [lia|exact Hcan|apply transitions_ticks].
Qed.

Lemma setTick_replays_witness :
  let w := new_Model incrementer in
  silent incrementer /\ dataCacheSize incrementer <= 0 /\
  cachedDataKeys (cur w) = ∅ /\ canPlay (cur w) = true /\
  tick (cur w) < 5 /\ within (5 - 1) (maxTime incrementer) /\
  tick (cur (setTick incrementer 5 w)) = 5 /\
  data (cur (setTick incrementer 5 w)) = 5.
Proof.
  assert (H1 : silent incrementer) by (intros a; reflexivity).
  assert (H2 : dataCacheSize incrementer <= 0) by (vm_compute; discriminate).
  assert (H3 : cachedDataKeys (cur (new_Model incrementer)) = ∅) by reflexivity.
  assert (H4 : canPlay (cur (new_Model incrementer)) = true) by reflexivity.
  assert (H5 : tick (cur (new_Model incrementer)) < 5) by reflexivity.
  assert (H6 : within (5 - 1) (maxTime incrementer)) by reflexivity.
  repeat (split; [assumption|]).
  destruct (setTick_replays incrementer (new_Model incrementer) 5 H1 H2 H3 H4 H5 H6)
    as (Ht & Hd & _).
  split; [exact Ht|]. rewrite Hd. vm_compute. reflexivity.
Defined.

(** ** Properties kept by every write of the engine *)

Section OpsRule.

Context {T U : Type}.
Variable props : ModelProps T U.
Variable Q : World T U -> Prop.
Implicit Types (w : World T U).

Hypothesis Q_modify : forall state f w, plain f -> Q w -> Q (modify state f w).
Hypothesis Q_cache : forall state t d w, Q w -> Q (cacheTick props state t d w).
Hypothesis Q_reset : forall state w, Q w -> Q (reset props state w).2.
Hypothesis Q_restart : forall state w,
  Q w -> Q (set_this_state (reset props state w).1 (reset props state w).2).
Hypothesis Q_cancel : forall h w, Q w -> Q (cancelAnimationFrame h w).
Hypothesis Q_request : forall w, Q w -> Q (requestAnimationFrame w).2.
Hypothesis Q_update : forall a w, Q w -> Q (log_update a w).
Hypothesis Q_render : forall a w, Q w -> Q (log_render a w).
Hypothesis Q_fire : forall rest w, Q w -> Q (set_pending rest w).

Ltac plainly := intros []; repeat split; reflexivity.

Lemma rule_stopAndCancelTimer state w : Q w -> Q (stopAndCancelTimer state w).
Proof.
  intros H. unfold stopAndCancelTimer. destruct (truthy _); [|exact H].
  apply Q_modify; [plainly|]. apply Q_cancel, H.
Qed.

Lemma rule_checkCanPlay t m state w : Q w -> Q (checkCanPlay t m state w).2.
Proof.
  intros H. unfold checkCanPlay. destruct (_ || _); simpl; [|exact H].
  do 2 (apply Q_modify; [plainly|]). exact H.
Qed.

Lemma rule_stop w : Q w -> Q (stop props w).
Proof.
  intros H. unfold stop. cbv zeta.
  set (w2 := modify _ _ _).
  assert (H2 : Q w2).
  { unfold w2. apply Q_modify; [plainly|]. apply rule_stopAndCancelTimer, H. }
  clearbody w2. pose proof (Q_restart (Some (this_state w2)) w2 H2) as H3.
  destruct (reset props _ _); exact H3.
Qed.

Lemma rule_pause w : Q w -> Q (pause w).
Proof.
  intros H. unfold pause. apply Q_modify; [plainly|].
  apply rule_stopAndCancelTimer, H.
Qed.

Lemma rule_complete result state w :
  Q w -> Q (complete props result state (stop props) w).
Proof.
  intros H. unfold complete. apply rule_stop, Q_modify; [plainly|].
  destruct (0 <? _); [|exact H].
  destruct (_ <? _); repeat (apply Q_modify; [plainly|]); exact H.
Qed.

Lemma rule_updateToTick target shouldStop state w :
  Q w -> Q (updateToTick props target shouldStop state (stop props) pause render w).
Proof.
  apply updateToTick_preserves.
  - intros; apply rule_checkCanPlay; assumption.
  - intros; apply Q_update; assumption.
  - intros c w' H. destruct c; simpl.
    + apply rule_complete, H.
    + apply rule_stop, H.
    + apply rule_pause, H.
  - intros; apply Q_cache; assumption.
  - intros; apply Q_modify; [plainly|assumption].
  - intros; apply Q_modify; [plainly|assumption].
  - intros; apply Q_modify; [plainly|assumption].
  - intros w' H. apply Q_render, H.
Qed.

Lemma rule_schedule w :
  Q w ->
  Q (let '(h, w) := requestAnimationFrame w in
     modify (this_state w) (set_timer (Some h)) w).
Proof.
  intros H. pose proof (Q_request w H) as Hq.
  destruct (requestAnimationFrame w) as [h w']. simpl in Hq.
  apply Q_modify; [plainly|exact Hq].
Qed.

Lemma rule_advance timestamp w : Q w -> Q (advance props timestamp w).
Proof.
  intros H. unfold advance.
  pose proof (rule_checkCanPlay (tick (cur w)) (maxTime props) (this_state w) w H) as Hc.
  destruct (checkCanPlay _ _ _ w) as [[] w1]; simpl in Hc; [|exact Hc].
  cbv zeta.
  set (w2 := match time (cur w1) with
             | Some _ => w1
             | None => modify (this_state w1) (set_time (Some timestamp)) w1
             end).
  assert (H2 : Q w2).
  { unfold w2. destruct (time (cur w1)); [assumption|].
    apply Q_modify; [plainly|assumption]. }
  clearbody w2.
  set (w3 := if delay props <=? timestamp - nullish (time (cur w2)) 0 then _ else w2).
  assert (H3 : Q w3).
  { unfold w3. destruct (_ <=? _); [|assumption].
    apply rule_updateToTick, Q_modify; [plainly|assumption]. }
  clearbody w3.
  destruct (isPlaying (cur w3)) as [[]|]; try assumption.
  destruct (truthy _); [apply (rule_schedule (cancelAnimationFrame _ w3)), Q_cancel
                       |apply rule_schedule]; exact H3.
Qed.

Lemma rule_run (o : Op T) w : Q w -> Q (run props o w).
Proof.
  intros H. destruct o; simpl.
  - unfold play. apply (rule_schedule (modify _ _ w)).
    apply Q_modify; [plainly|exact H].
  - apply rule_pause, H.
  - apply rule_stop, H.
  - unfold setTick. apply rule_updateToTick, rule_stopAndCancelTimer, H.
  - unfold setParams. cbv zeta.
    assert (H1 : Q (modify (this_state w)
                      (fun s => set_params (updatedParams ∪ params s) s) w))
      by (apply Q_modify; [plainly|exact H]).
    destruct (resetsOnChange props); [|exact H1].
    pose proof (Q_reset (Some (this_state w)) _ H1) as H2.
    rewrite this_state_modify.
    destruct (reset props _ _); exact H2.
  - unfold setData. repeat (apply Q_modify; [plainly|]).
    apply rule_stopAndCancelTimer, Q_modify; [plainly|exact H].
  - unfold frame. destruct (pending w); [exact H|].
    apply rule_advance, Q_fire, H.
Qed.

Lemma rule_runs (os : list (Op T)) w : Q w -> Q (runs props os w).
Proof.
  unfold runs. revert w. induction os as [|o os IH]; intros w H; simpl; [exact H|].
  apply IH, rule_run, H.
Qed.

End OpsRule.

(** ** The data cache switched off *)

Lemma caches_blank_runs {T U} (props : ModelProps T U) (os : list (Op T)) w :
  dataCacheSize props <= 0 -> caches_blank w -> caches_blank (runs props os w).
Proof.
  intros Hoff. apply rule_runs.
  - intros state f w' Hf [Hr Ho]. split; [|exact Ho].
    intros a. rewrite records_modify. case_decide; [|apply Hr].
    destruct (Hf (records w' state)) as (_ & -> & ->). apply Hr.
  - intros state t d w' H. rewrite cacheTick_off; assumption.
  - intros state w' [Hr Ho]. unfold reset, new_record, new_object.
    destruct state as [b|]; simpl;
      [destruct (clearsDataCacheOnReset props); simpl|];
      (split; [intros a|intros o]); unfold insert, fn_insert; simpl;
      repeat case_decide; simpl; auto; apply Hr.
  - intros state w' [Hr Ho]. unfold reset, new_record, new_object.
    destruct state as [b|]; simpl;
      [destruct (clearsDataCacheOnReset props); simpl|];
      (split; [intros a|intros o]); unfold insert, fn_insert; simpl;
      repeat case_decide; simpl; auto; apply Hr.
  - intros h w' H; exact H.
  - intros w' H; exact H.
  - intros a w' H; exact H.
  - intros a w' H; exact H.
  - intros rest w' H; exact H.
Qed.

(** X2: with [dataCacheSize] at 0 (or below), the data cache of a fresh
    engine stays empty under every sequence of public operations: no key,
    no queued tick, no entry in [cachedData]. *)
Theorem cache_off_stays_empty {T U} (props : ModelProps T U) (os : list (Op T)) :
  dataCacheSize props <= 0 ->
  cache_empty (runs props os (new_Model props)).
Proof.
  intros Hoff.
  assert (H0 : caches_blank (new_Model props)).
  { unfold new_Model, reset, new_record, new_object. simpl.
    split; [intros a|intros o]; unfold insert, fn_insert; simpl;
      repeat case_decide; simpl; auto. }
  destruct (caches_blank_runs props os _ Hoff H0) as [Hr Ho].
  unfold cache_empty, cur. destruct (Hr (this_state (runs props os (new_Model props)))).
  auto.
Qed.

Lemma cache_off_stays_empty_witness :
  dataCacheSize incrementer <= 0 /\
  cache_empty (runs incrementer [SetTick 5; Play; Frame 0; Stop; SetTick 2]
                 (new_Model incrementer)).
Proof.
  assert (H : dataCacheSize incrementer <= 0) by (vm_compute; discriminate).
  split; [exact H|]. exact (cache_off_stays_empty incrementer _ H).
Defined.

(** ** Filling the data cache *)

Lemma ticks_after_S t n : ticks_after t (S n) = (t + 1) :: ticks_after (t + 1) n.
Proof.
  unfold ticks_after. cbn [seq map]. f_equal; [lia|].
  rewrite <- seq_shift, map_map. apply map_ext. intros i. lia.
Qed.

Lemma fill_later {T U} (props : ModelProps T U) p n : forall t d (c : gmap Z T) k,
  k <= t -> (fill props p n t d c).1 !! k = c !! k.
Proof.
  induction n as [|n IH]; intros t d c k Hk; [reflexivity|].
  cbn [fill]. cbv zeta. rewrite IH by lia. apply lookup_insert_ne. lia.
Qed.

(** Each tick keeps the data it was computed with. *)
Lemma fill_lookup {T U} (props : ModelProps T U) p n : forall t d (c : gmap Z T) i,
  (0 < i <= n)%nat ->
  (fill props p n t d c).1 !! (t + Z.of_nat i) = Some (fill props p i t d c).2.
Proof.
  induction n as [|n IH]; intros t d c i Hi; [lia|].
  destruct i as [|i]; [lia|]. cbn [fill]. cbv zeta.
  destruct i as [|i].
  - cbn [fill]. rewrite fill_later by lia.
    replace (t + Z.of_nat 1) with (t + 1) by lia. apply lookup_insert_eq.
  - replace (t + Z.of_nat (S (S i))) with (t + 1 + Z.of_nat (S i)) by lia.
    apply IH. lia.
Qed.

Section CacheFill.

Context {T U : Type}.
Variable props : ModelProps T U.
Implicit Types (w : World T U).

Lemma cacheTick_logs state t d w :
  updated (cacheTick props state t d w) = updated w /\
  rendered (cacheTick props state t d w) = rendered w.
Proof.
  unfold cacheTick. destruct (0 <? _); [|auto]. cbv zeta.
  destruct (_ <=? _); [auto|]. destruct (truthy _); auto.
Qed.

(** One pass through the loop body when the transition function calls no
    capability: the store after the render hook. *)
Lemma silent_iteration (shouldStop : bool) (t' : Z) (d' : T) (a : RenderDataArgs T) w :
  let state := this_state w in
  let w1 := render
              (let w := modify state (set_tick t')
                          (modify state (set_data d')
                             (cacheTick props state t' d' (log_update a w))) in
               if shouldStop
               then modify state (set_isPlaying (Some false)) w else w) in
  this_state w1 = this_state w /\
  pending w1 = pending w /\
  updated w1 = updated w ++ [a] /\
  cur w1 = halted shouldStop (set_tick t' (set_data d' (cache_record props t' (cur w)))) /\
  (forall o, objects w1 o =
             if decide (cachedData (cur w) = o)
             then cache_object props t' d' (cur w) (objects w o)
             else objects w o) /\
  rendered w1 =
    rendered w ++ [{| arg_cachedData := cache_object props t' d' (cur w)
                                          (objects w (cachedData (cur w)));
                      arg_data := d'; arg_tick := t'; arg_params := params (cur w) |}].
Proof.
  cbv zeta.
  set (w0 := cacheTick props (this_state w) t' d' (log_update a w)).
  assert (Hthis0 : this_state w0 = this_state w)
    by exact (cacheTick_this props _ _ _ (log_update a w)).
  assert (Hpend0 : pending w0 = pending w)
    by exact (cacheTick_pending props _ _ _ (log_update a w)).
  assert (Hupd0 : updated w0 = updated w ++ [a]).
  { unfold w0. rewrite (proj1 (cacheTick_logs _ _ _ _)). reflexivity. }
  assert (Hren0 : rendered w0 = rendered w).
  { unfold w0. rewrite (proj2 (cacheTick_logs _ _ _ _)). reflexivity. }
  assert (Hcur0 : cur w0 = cache_record props t' (cur w)).
  { unfold cur. rewrite Hthis0. unfold w0. rewrite cacheTick_records.
    rewrite decide_True by reflexivity. reflexivity. }
  assert (Hobj0 : forall o, objects w0 o =
             if decide (cachedData (cur w) = o)
             then cache_object props t' d' (cur w) (objects w o)
             else objects w o).
  { intros o. unfold w0. rewrite cacheTick_objects. reflexivity. }
  clearbody w0.
  assert (Hcd : cachedData (cache_record props t' (cur w)) = cachedData (cur w)).
  { destruct (cache_record_shape props t' (cur w)) as (k & q & m & ->). reflexivity. }
  assert (Hpar : params (cache_record props t' (cur w)) = params (cur w)).
  { destruct (cache_record_shape props t' (cur w)) as (k & q & m & ->). reflexivity. }
  unfold render, halted.
  destruct shouldStop; unfold cur in *; read_store;
    rewrite ?Hthis0 in *; rewrite ?Hcur0, ?Hcd, ?Hpar, ?Hobj0, ?Hren0;
    rewrite ?decide_True by reflexivity;
    repeat split; auto; rewrite fn_lookup_insert; reflexivity.
Qed.

End CacheFill.

Lemma cache_record_room {T U} (props : ModelProps T U) t (s : ModelState T U) :
  0 < dataCacheSize props ->
  Z.of_nat (length (cachedDataKeysQueue s)) + 1 <= dataCacheSize props ->
  cache_record props t s =
  set_cachedDataKeys ({[t]} ∪ cachedDataKeys s)
    (set_cachedDataKeysQueue (cachedDataKeysQueue s ++ [t]) (set_maxTick t s)).
Proof.
  intros Hon Hroom. unfold cache_record.
  rewrite (proj2 (Z.ltb_lt _ _) Hon). cbv zeta.
  rewrite (proj2 (Z.leb_le _ _)); [reflexivity|].
  rewrite length_app. simpl. lia.
Qed.

Lemma cache_object_room {T U} (props : ModelProps T U) t d (s : ModelState T U)
    (m : gmap Z T) :
  0 < dataCacheSize props ->
  Z.of_nat (length (cachedDataKeysQueue s)) + 1 <= dataCacheSize props ->
  cache_object props t d s m = <[t := d]> m.
Proof.
  intros Hon Hroom. unfold cache_object.
  rewrite (proj2 (Z.ltb_lt _ _) Hon). cbv zeta.
  rewrite (proj2 (Z.leb_le _ _)); [reflexivity|].
  rewrite length_app. simpl. lia.
Qed.

(** The loop of [updateToTick] on the current record while the queue has
    room for every new tick. *)
Lemma stepping_fills {T U} (props : ModelProps T U) n :
  silent props -> 0 < dataCacheSize props ->
  forall shouldStop t d (w : World T U),
  canPlay (cur w) = true ->
  (forall i, (i < n)%nat -> within (t + Z.of_nat i) (maxTime props)) ->
  Z.of_nat (length (cachedDataKeysQueue (cur w))) + Z.of_nat n <= dataCacheSize props ->
  let o := cachedData (cur w) in
  let p := params (cur w) in
  let w' := stepping props n shouldStop (this_state w) (stop props) pause render t d w in
  this_state w' = this_state w /\
  cachedData (cur w') = o /\ params (cur w') = p /\ canPlay (cur w') = true /\
  cachedDataKeysQueue (cur w') = cachedDataKeysQueue (cur w) ++ ticks_after t n /\
  cachedDataKeys (cur w') = list_to_set (ticks_after t n) ∪ cachedDataKeys (cur w) /\
  objects w' o = (fill props p n t d (objects w o)).1 /\
  length (updated w') = (length (updated w) + n)%nat /\
  length (rendered w') = (length (rendered w) + n)%nat /\
  (n <> 0%nat ->
   tick (cur w') = t + Z.of_nat n /\
   data (cur w') = (fill props p n t d (objects w o)).2 /\
   maxTick (cur w') = t + Z.of_nat n).
Proof.
  intros Hsilent Hon.
  induction n as [|n IH]; intros shouldStop t d w Hcan Hin Hroom; cbv zeta.
  - simpl. rewrite app_nil_r, !Nat.add_0_r.
    repeat split; auto; [set_solver|congruence..].
  - simpl stepping.
    assert (H0 : within t (maxTime props)).
    { replace t with (t + Z.of_nat 0) by lia. apply Hin. lia. }
    rewrite checkCanPlay_ok; [|exact Hcan|exact H0].
    fold (cur w).
    set (a := {| arg_cachedData := objects w (cachedData (cur w)); arg_data := d;
                 arg_tick := t + 1; arg_params := params (cur w) |}).
    pose proof (Hsilent a) as Hcalls.
    destruct (updateData props a) as [d' calls] eqn:Hupd. simpl in Hcalls. subst calls.
    simpl foldl.
    destruct (silent_iteration props shouldStop (t + 1) d' a w)
      as (Hthis1 & _ & Hupd1 & Hcur1 & Hobj1 & Hren1).
    cbv zeta in Hthis1, Hupd1, Hcur1, Hobj1, Hren1. cbv zeta.
    set (w1 := render _) in *. clearbody w1.
    rewrite cache_record_room in Hcur1 by lia.
    specialize (Hobj1 (cachedData (cur w))).
    rewrite decide_True, cache_object_room in Hobj1 by (reflexivity || lia).
    assert (F : canPlay (cur w1) = true /\ params (cur w1) = params (cur w) /\
                cachedData (cur w1) = cachedData (cur w) /\
                cachedDataKeysQueue (cur w1) = cachedDataKeysQueue (cur w) ++ [t + 1] /\
                cachedDataKeys (cur w1) = {[t + 1]} ∪ cachedDataKeys (cur w) /\
                tick (cur w1) = t + 1 /\ data (cur w1) = d' /\ maxTick (cur w1) = t + 1).
    { rewrite Hcur1. destruct shouldStop; repeat split; auto. }
    destruct F as (F1 & F2 & F3 & F4 & F5 & F6 & F7 & F8).
    assert (Hin1 : forall i, (i < n)%nat -> within (t + 1 + Z.of_nat i) (maxTime props)).
    { intros i Hi. replace (t + 1 + Z.of_nat i) with (t + Z.of_nat (S i)) by lia.
      apply Hin. lia. }
    assert (Hroom1 : Z.of_nat (length (cachedDataKeysQueue (cur w1))) + Z.of_nat n
                     <= dataCacheSize props).
    { rewrite F4, length_app. simpl. lia. }
    specialize (IH shouldStop (t + 1) d' w1 F1 Hin1 Hroom1). cbv zeta in IH.
    rewrite <- Hthis1.
    destruct IH as (I1 & I2 & I3 & I4 & I5 & I6 & I7 & I8 & I9 & I10).
    rewrite F3 in I2, I7, I10. rewrite F2 in I3, I7, I10. rewrite Hobj1 in I7, I10.
    rewrite ticks_after_S. cbn [fill]. cbv zeta. fold a. rewrite Hupd. simpl fst.
    repeat split.
    + rewrite I1. reflexivity.
    + exact I2.
    + exact I3.
    + exact I4.
    + rewrite I5, F4, <- app_assoc. reflexivity.
    + rewrite I6, F5. set_solver.
    + exact I7.
    + rewrite I8, Hupd1, length_app. simpl. lia.
    + rewrite I9, Hren1, length_app. simpl. lia.
    + destruct n as [|n']; [simpl; rewrite F6; lia|].
      rewrite (proj1 (I10 ltac:(discriminate))). lia.
    + destruct n as [|n']; [simpl; exact F7|].
      exact (proj1 (proj2 (I10 ltac:(discriminate)))).
    + destruct n as [|n']; [simpl; rewrite F8; lia|].
      rewrite (proj2 (proj2 (I10 ltac:(discriminate)))). lia.
Qed.

(** X3: a forward seek fills an empty data cache.  With a transition
    function that calls no capability and a cache large enough for the
    ticks stepped, [setTick(target)] on a record whose cache is empty
    queues the ticks [tick + 1 .. target] in order, makes exactly them
    the keys, sets [maxTick] and [tick] to the target, and leaves in
    [cachedData], under each of these ticks, the data the transition
    function returned at that tick. *)
Theorem setTick_fills_cache {T U} (props : ModelProps T U) (w : World T U) (target : Z) :
  silent props ->
  cachedDataKeys (cur w) = ∅ ->
  cachedDataKeysQueue (cur w) = [] ->
  canPlay (cur w) = true ->
  tick (cur w) < target ->
  within (target - 1) (maxTime props) ->
  target - tick (cur w) <= dataCacheSize props ->
  let n := Z.to_nat (target - tick (cur w)) in
  let p := params (cur w) in
  let c := objects w (cachedData (cur w)) in
  let w' := setTick props target w in
  tick (cur w') = target /\ maxTick (cur w') = target /\
  cachedDataKeysQueue (cur w') = ticks_after (tick (cur w)) n /\
  cachedDataKeys (cur w') = list_to_set (ticks_after (tick (cur w)) n) /\
  data (cur w') = (fill props p n (tick (cur w)) (data (cur w)) c).2 /\
  (forall i, (0 < i <= n)%nat ->
     objects w' (cachedData (cur w')) !! (tick (cur w) + Z.of_nat i) =
     Some (fill props p i (tick (cur w)) (data (cur w)) c).2) /\
  length (updated w') = (length (updated w) + n)%nat.
Proof.
  intros Hsilent Hkeys Hqueue Hcan Hlt Hmax Hsize. cbv zeta.
  unfold setTick.
  destruct (stopAndCancelTimer_frame (this_state w) w) as (Hobj & Hupd & _ & _ & Hrec).
  pose proof (stopAndCancelTimer_this (this_state w) w) as Hthis.
  set (w1 := stopAndCancelTimer (this_state w) w) in *.
  destruct (Hrec (this_state w)) as [v Hcur1]. fold (cur w) in Hcur1.
  assert (Hcur1' : cur w1 = set_timer v (cur w)).
  { unfold cur. rewrite Hthis. exact Hcur1. }
  clearbody w1. clear Hrec Hcur1.
  unfold updateToTick. fold (cur w1). rewrite Hcur1'. simpl.
  rewrite Hkeys, !bool_decide_eq_false_2 by set_solver.
  assert (Hcan1 : canPlay (cur w1) = true) by (rewrite Hcur1'; exact Hcan).
  assert (Hin : forall i, (i < Z.to_nat (target - tick (cur w)))%nat ->
                          within (tick (cur w) + Z.of_nat i) (maxTime props)).
  { intros i Hi. apply (exceeds_mono _ (target - 1)); [lia|exact Hmax]. }
  assert (Hroom : Z.of_nat (length (cachedDataKeysQueue (cur w1))) +
                  Z.of_nat (Z.to_nat (target - tick (cur w))) <= dataCacheSize props).
  { rewrite Hcur1'. simpl. rewrite Hqueue. simpl. lia. }
  destruct (stepping_fills props (Z.to_nat (target - tick (cur w))) Hsilent
              ltac:(lia) true (tick (cur w)) (data (cur w)) w1 Hcan1 Hin Hroom)
    as (_ & S2 & _ & _ & S5 & S6 & S7 & S8 & _ & S10).
  rewrite Hcur1' in S2, S5, S6, S7, S10. simpl in S2, S5, S6, S7, S10.
  rewrite Hobj in S7, S10. rewrite Hupd in S8.
  destruct (S10 ltac:(lia)) as (St & Sd & Sm).
  rewrite Hqueue in S5. rewrite Hkeys in S6.
  repeat split.
  - rewrite St. lia.
  - rewrite Sm. lia.
  - exact S5.
  - rewrite S6. set_solver.
  - exact Sd.
  - intros i Hi. rewrite S2, S7. apply fill_lookup. exact Hi.
  - exact S8.
Qed.

Lemma setTick_fills_cache_witness :
  let p := cachingIncrementer 3 in
  let w := new_Model p in
  silent p /\ cachedDataKeys (cur w) = ∅ /\ cachedDataKeysQueue (cur w) = [] /\
  canPlay (cur w) = true /\ tick (cur w) < 3 /\ within (3 - 1) (maxTime p) /\
  3 - tick (cur w) <= dataCacheSize p /\
  cachedDataKeysQueue (cur (setTick p 3 w)) = [1; 2; 3] /\
  objects (setTick p 3 w) (cachedData (cur (setTick p 3 w))) !! 2 = Some 2.
Proof.
  assert (H1 : silent (cachingIncrementer 3)) by (intros a; reflexivity).
  assert (H2 : cachedDataKeys (cur (new_Model (cachingIncrementer 3))) = ∅) by reflexivity.
  assert (H3 : cachedDataKeysQueue (cur (new_Model (cachingIncrementer 3))) = [])
    by reflexivity.
  assert (H4 : canPlay (cur (new_Model (cachingIncrementer 3))) = true) by reflexivity.
  assert (H5 : tick (cur (new_Model (cachingIncrementer 3))) < 3) by reflexivity.
  assert (H6 : within (3 - 1) (maxTime (cachingIncrementer 3))) by reflexivity.
  assert (H7 : 3 - tick (cur (new_Model (cachingIncrementer 3)))
               <= dataCacheSize (cachingIncrementer 3)) by (vm_compute; discriminate).
  repeat (split; [assumption|]).
  destruct (setTick_fills_cache (cachingIncrementer 3) _ 3 H1 H2 H3 H4 H5 H6 H7)
    as (_ & _ & Hq & _ & _ & Hl & _).
  split; [exact Hq|].
  exact (Hl 2%nat ltac:(vm_compute; lia)).
Defined.

(** ** The clock callback and the delay *)

Section Clock.

Context {T U : Type}.
Variable props : ModelProps T U.
Implicit Types (w : World T U).

Lemma rescheduled_spec w :
  this_state (rescheduled w) = this_state w /\
  objects (rescheduled w) = objects w /\
  updated (rescheduled w) = updated w /\
  rendered (rescheduled w) = rendered w /\
  cur (rescheduled w) =
    (if playing w then set_timer (Some (next_handle w)) (cur w) else cur w) /\
  pending (rescheduled w) =
    (if playing w then without_timer w ++ [next_handle w] else pending w) /\
  next_handle (rescheduled w) = (if playing w then next_handle w + 1 else next_handle w) /\
  next_record (rescheduled w) = next_record w.
Proof.
  unfold rescheduled, playing, without_timer.
  destruct (isPlaying (cur w)) as [[]|]; try (repeat split; reflexivity).
  cbv zeta. unfold requestAnimationFrame.
  destruct (truthy (timer (cur w))); repeat split; try reflexivity;
    unfold cur; read_store; reflexivity.
Qed.

(** [advance] when the stop-condition check passes. *)
Lemma advance_ok timestamp w :
  canPlay (cur w) = true -> within (tick (cur w)) (maxTime props) ->
  advance props timestamp w =
  rescheduled
    (let w := match time (cur w) with
              | None => modify (this_state w) (set_time (Some timestamp)) w
              | Some _ => w
              end in
     if delay props <=? timestamp - nullish (time (cur w)) 0 then
       let w := modify (this_state w) (set_time (Some timestamp)) w in
       updateToTick props (tick (cur w) + ticksPerAnimation props) false (this_state w)
         (stop props) pause render w
     else w).
Proof.
  intros Hcan Hin. unfold advance.
  rewrite checkCanPlay_ok; [reflexivity|exact Hcan|exact Hin].
Qed.

End Clock.

(** X4: a callback that comes before the delay has elapsed takes no step.
    When the stop-condition check passes and less than [delay] has gone
    by since the last step, [advance] calls neither the transition
    function nor the render hook and leaves tick, data and caches as they
    are; if the engine plays, it cancels the stored handle and schedules
    the next callback, and otherwise it changes nothing. *)
Theorem advance_throttled {T U} (props : ModelProps T U) (w : World T U)
    (timestamp last : Z) :
  canPlay (cur w) = true ->
  within (tick (cur w)) (maxTime props) ->
  time (cur w) = Some last ->
  timestamp - last < delay props ->
  let w' := advance props timestamp w in
  updated w' = updated w /\ rendered w' = rendered w /\
  objects w' = objects w /\ this_state w' = this_state w /\
  cur w' = (if playing w then set_timer (Some (next_handle w)) (cur w) else cur w) /\
  pending w' = (if playing w then without_timer w ++ [next_handle w] else pending w).
Proof.
  intros Hcan Hin Htime Hearly. cbv zeta.
  rewrite advance_ok by assumption. cbv zeta. rewrite Htime. simpl.
  rewrite Htime. simpl.
  rewrite (proj2 (Z.leb_gt _ _)) by lia.
  destruct (rescheduled_spec w) as (H1 & H2 & H3 & H4 & H5 & H6 & _).
  repeat split; assumption.
Qed.

Lemma advance_throttled_witness :
  let p := mkProps true true 0 100 0 (Finite 10) 0 true 0 1
             incrementerInitData incrementerUpdateData None in
  let w := runs p [Play; Frame 0] (new_Model p) in
  canPlay (cur w) = true /\ within (tick (cur w)) (maxTime p) /\
  time (cur w) = Some 0 /\ 16 - 0 < delay p /\
  tick (cur (advance p 16 w)) = 0 /\ updated (advance p 16 w) = [] /\
  pending (advance p 16 w) = [3].
Proof.
  set (p := mkProps true true 0 100 0 (Finite 10) 0 true 0 1
              incrementerInitData incrementerUpdateData None).
  assert (H1 : canPlay (cur (runs p [Play; Frame 0] (new_Model p))) = true)
    by (vm_compute; reflexivity).
  assert (H2 : within (tick (cur (runs p [Play; Frame 0] (new_Model p)))) (maxTime p))
    by (vm_compute; reflexivity).
  assert (H3 : time (cur (runs p [Play; Frame 0] (new_Model p))) = Some 0)
    by (vm_compute; reflexivity).
  assert (H4 : 16 - 0 < delay p) by (vm_compute; reflexivity).
  cbv zeta. repeat (split; [assumption|]).
  destruct (advance_throttled p _ 16 0 H1 H2 H3 H4) as (Hu & _ & _ & _ & Hc & Hp).
  rewrite Hu, Hc, Hp. vm_compute. repeat split; reflexivity.
Defined.

(** X5: a callback that is due steps [ticksPerAnimation] ticks.  On an
    engine whose data cache is off and whose transition function calls
    no capability, when at least [delay] has gone by since the last step
    (a first callback counts from its own timestamp) and the ticks to
    step are within [maxTime], [advance] records the timestamp, calls the
    transition function once per tick and ends [ticksPerAnimation] ticks
    further with the replayed data; [isPlaying] is as before, and a
    playing engine has its next callback scheduled. *)
Theorem advance_steps {T U} (props : ModelProps T U) (w : World T U) (timestamp : Z) :
  silent props ->
  dataCacheSize props <= 0 ->
  cachedDataKeys (cur w) = ∅ ->
  canPlay (cur w) = true ->
  0 < ticksPerAnimation props ->
  within (tick (cur w) + ticksPerAnimation props - 1) (maxTime props) ->
  delay props <= timestamp - nullish (time (cur w)) timestamp ->
  let n := Z.to_nat (ticksPerAnimation props) in
  let calls := transitions props (objects w (cachedData (cur w))) (params (cur w))
                 n (tick (cur w)) (data (cur w)) in
  let w' := advance props timestamp w in
  tick (cur w') = tick (cur w) + ticksPerAnimation props /\
  data (cur w') = replay props (objects w (cachedData (cur w))) (params (cur w))
                    n (tick (cur w)) (data (cur w)) /\
  time (cur w') = Some timestamp /\
  canPlay (cur w') = true /\
  isPlaying (cur w') = isPlaying (cur w) /\
  updated w' = updated w ++ calls /\
  rendered w' = rendered w ++ map (shown props) calls /\
  pending w' = (if playing w then without_timer w ++ [next_handle w] else pending w).
Proof.
  intros Hsilent Hoff Hkeys Hcan Htpa Hmax Hdue. cbv zeta.
  assert (Hin0 : within (tick (cur w)) (maxTime props)).
  { apply (exceeds_mono _ (tick (cur w) + ticksPerAnimation props - 1)); [lia|exact Hmax]. }
  rewrite advance_ok by assumption. cbv zeta.
  set (w2 := match time (cur w) with
             | Some _ => w
             | None => modify (this_state w) (set_time (Some timestamp)) w
             end).
  assert (H2 : this_state w2 = this_state w /\ objects w2 = objects w /\
               updated w2 = updated w /\ rendered w2 = rendered w /\
               pending w2 = pending w /\ next_handle w2 = next_handle w /\
               cur w2 = set_time (Some (nullish (time (cur w)) timestamp)) (cur w)).
  { unfold w2. destruct (time (cur w)) eqn:Htime; simpl.
    - repeat split. destruct (cur w); simpl in *. subst. reflexivity.
    - rewrite cur_modify_this. repeat split. }
  clearbody w2. destruct H2 as (T1 & T2 & T3 & T4 & T5 & T6 & T7).
  rewrite T7. simpl.
  rewrite (proj2 (Z.leb_le _ _)) by exact Hdue.
  rewrite T1.
  set (w3 := modify (this_state w) (set_time (Some timestamp)) w2).
  assert (Hcur3 : cur w3 = set_time (Some timestamp) (cur w)).
  { unfold w3, cur. rewrite this_state_modify, T1, records_modify, decide_True by reflexivity.
    fold (cur w). rewrite <- T1. fold (cur w2). rewrite T7.
    destruct (cur w); reflexivity. }
  assert (H3 : this_state w3 = this_state w /\ objects w3 = objects w /\
               updated w3 = updated w /\ rendered w3 = rendered w /\
               pending w3 = pending w /\ next_handle w3 = next_handle w).
  { unfold w3. repeat split; assumption. }
  clearbody w3. destruct H3 as (U1 & U2 & U3 & U4 & U5 & U6).
  rewrite <- U1.
  unfold updateToTick. fold (cur w3). rewrite Hcur3. simpl.
  rewrite Hkeys, !bool_decide_eq_false_2 by set_solver.
  replace (tick (cur w) + ticksPerAnimation props - tick (cur w))
    with (ticksPerAnimation props) by lia.
  assert (Hcan3 : canPlay (cur w3) = true) by (rewrite Hcur3; exact Hcan).
  assert (Hin : forall i, (i < Z.to_nat (ticksPerAnimation props))%nat ->
                          within (tick (cur w) + Z.of_nat i) (maxTime props)).
  { intros i Hi.
    apply (exceeds_mono _ (tick (cur w) + ticksPerAnimation props - 1)); [lia|exact Hmax]. }
  destruct (stepping_silent props Hsilent Hoff (Z.to_nat (ticksPerAnimation props)) false
              (tick (cur w)) (data (cur w)) w3 Hcan3 Hin)
    as (S1 & S2 & S3 & S4 & S5 & S6 & S7).
  rewrite Hcur3, U2 in S4, S5, S6. simpl in S4, S5, S6.
  rewrite U3 in S4. rewrite U4 in S5.
  set (w4 := stepping _ _ _ _ _ _ _ _ _ _) in *. clearbody w4.
  destruct (Z.to_nat (ticksPerAnimation props)) as [|n] eqn:Hn; [lia|].
  destruct (rescheduled_spec w4) as (R1 & R2 & R3 & R4 & R5 & R6 & _).
  assert (Hplay : playing w4 = playing w).
  { unfold playing. rewrite S6. reflexivity. }
  assert (Hwt : without_timer w4 = without_timer w).
  { unfold without_timer. rewrite S6, S2, U5. reflexivity. }
  rewrite R3, R4, R5, R6, Hplay, Hwt, S4, S5, S6, S7, U6.
  rewrite <- Hn.
  destruct (playing w); simpl; repeat split; try reflexivity;
    try lia; try assumption; rewrite S2; exact U5.
Qed.

Lemma advance_steps_witness :
  let p := incrementer in
  let w := runs p [Play] (new_Model p) in
  silent p /\ dataCacheSize p <= 0 /\ cachedDataKeys (cur w) = ∅ /\
  canPlay (cur w) = true /\ 0 < ticksPerAnimation p /\
  within (tick (cur w) + ticksPerAnimation p - 1) (maxTime p) /\
  delay p <= 16 - nullish (time (cur w)) 16 /\
  tick (cur (advance p 16 w)) = 1 /\ data (cur (advance p 16 w)) = 1.
Proof.
  assert (H1 : silent incrementer) by (intros a; reflexivity).
  assert (H2 : dataCacheSize incrementer <= 0) by (vm_compute; discriminate).
  assert (H3 : cachedDataKeys (cur (runs incrementer [Play] (new_Model incrementer))) = ∅)
    by reflexivity.
  assert (H4 : canPlay (cur (runs incrementer [Play] (new_Model incrementer))) = true)
    by (vm_compute; reflexivity).
  assert (H5 : 0 < ticksPerAnimation incrementer) by reflexivity.
  assert (H6 : within (tick (cur (runs incrementer [Play] (new_Model incrementer)))
                       + ticksPerAnimation incrementer - 1) (maxTime incrementer))
    by (vm_compute; reflexivity).
  assert (H7 : delay incrementer
               <= 16 - nullish (time (cur (runs incrementer [Play]
                                             (new_Model incrementer)))) 16)
    by (vm_compute; discriminate).
  cbv zeta. repeat (split; [assumption|]).
  destruct (advance_steps incrementer _ 16 H1 H2 H3 H4 H5 H6 H7) as (Ht & Hd & _).
  rewrite Ht, Hd. vm_compute. split; reflexivity.
Defined.

(** ** One callback at a time *)

Section OneCallback.

Context {T U : Type}.
Variable props : ModelProps T U.
Implicit Types (w : World T U).

Lemma cacheTick_next_handle state t d w :
  next_handle (cacheTick props state t d w) = next_handle w.
Proof.
  unfold cacheTick. destruct (0 <? _); [|auto]. cbv zeta.
  destruct (_ <=? _); [auto|]. destruct (truthy _); auto.
Qed.

Lemma reset_frame state w :
  pending (reset props state w).2 = pending w /\
  next_handle (reset props state w).2 = next_handle w /\
  this_state (reset props state w).2 = this_state w /\
  (reset props state w).1 = next_record w /\
  next_record (reset props state w).2 = S (next_record w) /\
  forall a, a <> next_record w -> records (reset props state w).2 a = records w a.
Proof.
  unfold reset, new_record, new_object.
  destruct state as [b|]; simpl; [destruct (clearsDataCacheOnReset props); simpl|];
    repeat split; intros a Ha; rewrite fn_lookup_insert_ne by congruence; reflexivity.
Qed.

Lemma no_callback_updateToTick target shouldStop state w :
  no_callback w ->
  no_callback (updateToTick props target shouldStop state (stop props) pause render w).
Proof.
  apply rule_updateToTick.
  - intros s f w' _ H; exact H.
  - intros s t d w' [[Hn Ha] Hp]. unfold no_callback, settled.
    rewrite cacheTick_next_handle, cacheTick_this, cacheTick_pending.
    rewrite (proj1 (cacheTick_next props s t d w')). auto.
  - intros s w' [[Hn Ha] Hp].
    destruct (reset_frame s w') as (R1 & R2 & R3 & R4 & R5 & _).
    unfold no_callback, settled. simpl. rewrite R1, R2, R4, R5. auto with lia.
  - intros h w' [[Hn Ha] Hp]. unfold no_callback, settled, cancelAnimationFrame. simpl.
    rewrite Hp. auto.
  - intros a w' H; exact H.
  - intros a w' H; exact H.
Qed.

Lemma single_callback_cancelled w :
  single_callback w -> no_callback (stopAndCancelTimer (this_state w) w).
Proof.
  intros [Hs [Hp|(h & Hh & Hp & Ht)]]; unfold stopAndCancelTimer; fold (cur w).
  - destruct (truthy _); [|split; assumption].
    split; [exact Hs|]. unfold cancelAnimationFrame. simpl. rewrite Hp. reflexivity.
  - rewrite Ht. simpl. destruct (Z.eqb_spec h 0); [contradiction|].
    split; [exact Hs|]. unfold cancelAnimationFrame. simpl. rewrite Hp.
    rewrite filter_cons_False by auto. reflexivity.
Qed.

Lemma no_callback_single w : no_callback w -> single_callback w.
Proof. intros [Hs Hp]. split; [exact Hs|left; exact Hp]. Qed.

Lemma no_callback_rescheduled w :
  no_callback w -> single_callback (rescheduled w).
Proof.
  intros [[Hn Ha] Hp].
  destruct (rescheduled_spec w) as (R1 & _ & _ & _ & R5 & R6 & R7 & R8).
  unfold single_callback, settled. rewrite R1, R5, R6, R7, R8.
  assert (Hwt : without_timer w = []).
  { unfold without_timer. rewrite Hp. destruct (truthy _); reflexivity. }
  rewrite Hwt, Hp. destruct (playing w); simpl.
  - split; [split; [lia|exact Ha]|]. right. exists (next_handle w).
    split; [lia|]. split; reflexivity.
  - split; [split; assumption|]. left. reflexivity.
Qed.

Lemma single_callback_run (o : Op T) w :
  single_callback w ->
  (o = Play -> pending w = []) ->
  single_callback (run props o w).
Proof.
  intros H Hplay. destruct o; simpl.
  - specialize (Hplay eq_refl). destruct H as [[Hn Ha] _].
    unfold play, requestAnimationFrame, single_callback, settled. cbv zeta. simpl.
    rewrite Hplay. split; [split; [lia|exact Ha]|]. right. exists (next_handle w).
    split; [lia|]. split; [reflexivity|]. unfold cur. read_store; reflexivity.
  - apply no_callback_single. unfold pause.
    apply (single_callback_cancelled w H).
  - apply no_callback_single.
    pose proof (single_callback_cancelled w H) as [[Hn Ha] Hp].
    unfold stop. cbv zeta.
    set (w2 := modify _ _ _).
    assert (H2 : no_callback w2) by (split; [split|]; assumption).
    clearbody w2. destruct H2 as [[Hn2 Ha2] Hp2].
    destruct (reset_frame (Some (this_state w2)) w2) as (R1 & R2 & R3 & R4 & R5 & _).
    destruct (reset props _ _) as [fresh w3]. simpl in *.
    unfold no_callback, settled. simpl. rewrite R1, R2, R4, R5. auto with lia.
  - apply no_callback_single. unfold setTick.
    apply no_callback_updateToTick, single_callback_cancelled, H.
  - unfold setParams. cbv zeta.
    set (w1 := modify _ _ w).
    assert (H1 : single_callback w1).
    { destruct H as [Hs Hc]. split; [exact Hs|]. unfold w1. rewrite cur_modify_this.
      exact Hc. }
    clearbody w1. destruct (resetsOnChange props); [|exact H1].
    destruct H1 as [[Hn Ha] Hc].
    destruct (reset_frame (Some (this_state w1)) w1) as (R1 & R2 & R3 & R4 & R5 & R6).
    destruct (reset props _ _) as [fresh w3]. simpl in *.
    unfold single_callback, settled, cur. rewrite R1, R2, R3, R5, R6 by lia.
    split; [split; [exact Hn|lia]|exact Hc].
  - apply no_callback_single. unfold setData. cbv zeta.
    set (w1 := modify _ (set_data d) w).
    assert (H1 : single_callback w1).
    { destruct H as [Hs Hc]. split; [exact Hs|]. unfold w1. rewrite cur_modify_this.
      exact Hc. }
    pose proof (single_callback_cancelled w1 H1) as H2.
    exact H2.
  - unfold frame. destruct (pending w) as [|h rest] eqn:Hp; [exact H|].
    assert (H0 : no_callback (set_pending rest w)).
    { destruct H as [Hs [Hnil|(h' & _ & Hone & _)]]; [congruence|].
      rewrite Hp in Hone. injection Hone as _ ->. split; [exact Hs|reflexivity]. }
    set (w0 := set_pending rest w) in *. clearbody w0. clear Hp.
    unfold advance.
    destruct (checkCanPlay _ _ _ w0) as [[] w1] eqn:Hc.
    + apply checkCanPlay_true in Hc as (-> & _ & _).
      cbv zeta.
      set (w2 := match time (cur w0) with
                 | Some _ => w0
                 | None => modify (this_state w0) (set_time (Some timestamp)) w0
                 end).
      assert (H2 : no_callback w2) by (unfold w2; destruct (time (cur w0)); exact H0).
      clearbody w2.
      set (w3 := if delay props <=? timestamp - nullish (time (cur w2)) 0 then _ else w2).
      assert (H3 : no_callback w3).
      { unfold w3. destruct (_ <=? _); [|exact H2].
        apply no_callback_updateToTick. exact H2. }
      clearbody w3.
      exact (no_callback_rescheduled w3 H3).
    + apply checkCanPlay_false in Hc as (-> & _).
      apply no_callback_single. exact H0.
Qed.

End OneCallback.

(** X6: at most one callback is outstanding.  On a store where handles
    are positive and the current record is allocated, if the only
    outstanding callback (if any) is the one whose handle the current
    record stores, this stays so after [pause], [stop], [setTick],
    [setParams], [setData] and a clock callback, and after a [play()]
    made while no callback is outstanding. *)
Theorem one_callback_at_a_time {T U} (props : ModelProps T U) (o : Op T)
    (w : World T U) :
  single_callback w ->
  (o = Play -> pending w = []) ->
  single_callback (run props o w).
Proof. apply single_callback_run. Qed.

Lemma one_callback_at_a_time_witness :
  let w := runs incrementer [Play; Frame 0; Frame 16] (new_Model incrementer) in
  single_callback w /\
  ((Frame 32 : Op Z) = Play -> pending w = []) /\
  single_callback (run incrementer (Frame 32) w).
Proof.
  assert (H1 : single_callback
                 (runs incrementer [Play; Frame 0; Frame 16] (new_Model incrementer))).
  { split; [split; vm_compute; [reflexivity|lia]|]. right. exists 3.
    split; [discriminate|]. vm_compute. split; reflexivity. }
  assert (H2 : (Frame 32 : Op Z) = Play ->
               pending (runs incrementer [Play; Frame 0; Frame 16]
                          (new_Model incrementer)) = []) by discriminate.
  split; [exact H1|]. split; [exact H2|].
  exact (one_callback_at_a_time incrementer (Frame 32) _ H1 H2).
Defined.

(** ** After the stop condition *)

Section Ended.

Context {T U : Type}.
Variable props : ModelProps T U.
Implicit Types (w : World T U).

Lemma ended_step (o : Op T) w :
  canPlay (cur w) = false -> keeps_record props o ->
  updated (run props o w) = updated w /\ rendered (run props o w) = rendered w.
Proof.
  intros Hc Hk. destruct o; simpl in *; try contradiction.
  - unfold play, requestAnimationFrame. split; reflexivity.
  - unfold pause.
    destruct (stopAndCancelTimer_frame (this_state w) w) as (_ & Hu & Hr & _).
    split; assumption.
  - unfold setTick.
    destruct (stopAndCancelTimer_frame (this_state w) w) as (_ & Hu & Hr & _ & Hrec).
    set (w1 := stopAndCancelTimer (this_state w) w) in *.
    assert (H1 : canPlay (records w1 (this_state w1)) = false).
    { fold (cur w1). unfold w1. rewrite stopAndCancelTimer_cur.
      destruct (truthy _); [case_decide|]; exact Hc. }
    clearbody w1.
    destruct (updateToTick_halted props target true (this_state w1) (stop props) pause
                render w1 H1) as [-> | ->]; split; assumption.
  - unfold setParams. rewrite Hk. split; reflexivity.
  - unfold setData. cbv zeta.
    set (w1 := modify (this_state w) (set_data d) w).
    destruct (stopAndCancelTimer_frame (this_state w1) w1) as (_ & Hu & Hr & _).
    split; assumption.
  - unfold frame. destruct (pending w); [split; reflexivity|].
    rewrite advance_halted by exact Hc. split; reflexivity.
Qed.

End Ended.

(** X7: an ended engine calls no callback.  Once [canPlay] is false,
    no sequence of [play], [pause], [setTick], [setData], clock callbacks
    and [setParams] without [resetsOnChange] invokes the transition
    function or the render hook. *)
Theorem ended_engine_calls_nothing {T U} (props : ModelProps T U)
    (os : list (Op T)) (w : World T U) :
  canPlay (cur w) = false ->
  Forall (keeps_record props) os ->
  updated (runs props os w) = updated w /\
  rendered (runs props os w) = rendered w.
Proof.
  revert w. induction os as [|o os IH]; intros w Hc Hall; [split; reflexivity|].
  inversion Hall as [|? ? Ho Hos]; subst. simpl.
  destruct (ended_step props o w Hc Ho) as [Hu Hr].
  destruct (IH (run props o w) (proj1 (sticky_step props o w Hc) Ho) Hos) as [Hu' Hr'].
  unfold runs in *. rewrite Hu', Hr'. split; assumption.
Qed.

Lemma ended_engine_calls_nothing_witness :
  let w := runs incrementer (Play :: map Frame (timestamps 12)) (new_Model incrementer) in
  canPlay (cur w) = false /\
  length (updated (runs incrementer [Play; Frame 300; SetTick 20; Frame 316] w)) = 11%nat.
Proof.
  assert (H : canPlay (cur (runs incrementer (Play :: map Frame (timestamps 12))
                              (new_Model incrementer))) = false)
    by (vm_compute; reflexivity).
  split; [exact H|].
  rewrite (proj1 (ended_engine_calls_nothing incrementer
                    [Play; Frame 300; SetTick 20; Frame 316] _ H
                    ltac:(repeat constructor))).
  vm_compute. reflexivity.
Defined.

(** ** What [stop()] leaves *)

Lemma stopAndCancelTimer_next {T U} state (w : World T U) :
  next_record (stopAndCancelTimer state w) = next_record w.
Proof. unfold stopAndCancelTimer. destruct (truthy _); reflexivity. Qed.

Lemma stopAndCancelTimer_without {T U} (w : World T U) :
  pending (stopAndCancelTimer (this_state w) w) = without_timer w.
Proof.
  unfold stopAndCancelTimer, without_timer. fold (cur w).
  destruct (truthy (timer (cur w))); reflexivity.
Qed.

(** The record [stop()] builds and binds, and what it leaves of the
    others. *)
Lemma stop_fields {T U} (props : ModelProps T U) (w : World T U) :
  let w' := stop props w in
  (tick (cur w') = initialTick props /\ maxTick (cur w') = initialTick props /\
   data (cur w') = initData props (params (cur w)) /\
   params (cur w') = params (cur w) /\
   canPlay (cur w') = true /\ isPlaying (cur w') = Some false /\
   time (cur w') = None /\ timer (cur w') = None /\
   pending w' = without_timer w /\
   results (cur w') = (if clearsResultsCacheOnReset props then [] else results (cur w)) /\
   (if clearsDataCacheOnReset props
    then cachedDataKeys (cur w') = ∅ /\ cachedDataKeysQueue (cur w') = [] /\
         objects w' (cachedData (cur w')) = ∅
    else cachedDataKeys (cur w') = cachedDataKeys (cur w) /\
         cachedDataKeysQueue (cur w') = cachedDataKeysQueue (cur w) /\
         cachedData (cur w') = cachedData (cur w) /\ objects w' = objects w) /\
   updated w' = updated w /\ rendered w' = rendered w) /\
  this_state w' = next_record w /\
  next_handle w' = next_handle w /\
  forall a, a <> next_record w -> canPlay (records w' a) = canPlay (records w a).
Proof.
  cbv zeta.
  destruct (stopAndCancelTimer_frame (this_state w) w) as (Hobj & Hupd & Hren & Hnh & Hrec).
  pose proof (stopAndCancelTimer_this (this_state w) w) as Hthis.
  pose proof (stopAndCancelTimer_without w) as Hpend.
  pose proof (stopAndCancelTimer_next (this_state w) w) as Hnext.
  destruct (Hrec (this_state w)) as [v Hcur].
  unfold stop. cbv zeta.
  set (w1 := stopAndCancelTimer (this_state w) w) in *. clearbody w1.
  split; [|split; [|split]].
  - clear Hrec.
    unfold reset, new_record, new_object. simpl.
    rewrite Hthis, fn_lookup_insert. simpl. rewrite Hcur. fold (cur w).
    destruct (clearsDataCacheOnReset props); simpl;
      unfold cur at 1 2 3 4 5 6 7 8 9 10; simpl;
      rewrite !fn_lookup_insert; simpl; repeat split; auto.
    all: unfold cur; simpl; rewrite !fn_lookup_insert; simpl;
      rewrite ?fn_lookup_insert; auto.
  - unfold reset, new_record, new_object. simpl.
    destruct (clearsDataCacheOnReset props); simpl; exact Hnext.
  - unfold reset, new_record, new_object. simpl.
    destruct (clearsDataCacheOnReset props); simpl; exact Hnh.
  - intros a Ha. destruct (Hrec a) as [va Hva].
    unfold reset, new_record, new_object. simpl.
    destruct (clearsDataCacheOnReset props); simpl;
      (rewrite fn_lookup_insert_ne by (rewrite Hnext; auto));
      unfold insert, fn_insert; case_decide; try subst a; simpl;
      rewrite Hva; reflexivity.
Qed.

Lemma stopAndCancelTimer_next_object {T U} state (w : World T U) :
  next_object (stopAndCancelTimer state w) = next_object w.
Proof. unfold stopAndCancelTimer. destruct (truthy _); reflexivity. Qed.

(** The [cachedData] object [stop()] gives the record it builds: under
    [clearsDataCacheOnReset] the next object of the store is allocated
    for it, and no other object is written. *)
Lemma stop_objects {T U} (props : ModelProps T U) (w : World T U) :
  let w' := stop props w in
  if clearsDataCacheOnReset props
  then cachedData (cur w') = next_object w /\
       next_object w' = S (next_object w) /\
       objects w' (next_object w) = ∅ /\
       (forall o, o <> next_object w -> objects w' o = objects w o)
  else next_object w' = next_object w.
Proof.
  cbv zeta.
  destruct (stopAndCancelTimer_frame (this_state w) w) as (Hobj & _).
  pose proof (stopAndCancelTimer_next_object (this_state w) w) as Hno.
  unfold stop. cbv zeta.
  set (w1 := stopAndCancelTimer (this_state w) w) in *. clearbody w1.
  unfold reset, new_record, new_object. simpl.
  destruct (clearsDataCacheOnReset props); simpl; [|exact Hno].
  unfold cur. simpl. rewrite !fn_lookup_insert. simpl. rewrite Hno.
  repeat split.
  - rewrite fn_lookup_insert. reflexivity.
  - intros o Ho. rewrite fn_lookup_insert_ne by auto. rewrite Hobj. reflexivity.
Qed.

(** X8: [stop()] rewinds the engine.  Whatever the state, afterwards tick
    and [maxTick] are [initialTick], the data is [initData] of the
    parameters in force (which are kept), [canPlay] is true, [isPlaying]
    is false, time and handle are cleared and the stored handle is no
    longer outstanding; the results are emptied or carried over as
    [clearsResultsCacheOnReset] says.  Under [clearsDataCacheOnReset] the
    key set and the queue are empty and [cachedData] is a new object: the
    next address of the store is allocated for it and holds no entry, and
    every other object, the one the engine had among them, is left as it
    was.  Without the flag the keys and the queue are carried over,
    [cachedData] is the same object, and no object is allocated or
    written.  No callback is invoked. *)
Theorem stop_rewinds {T U} (props : ModelProps T U) (w : World T U) :
  let w' := stop props w in
  tick (cur w') = initialTick props /\ maxTick (cur w') = initialTick props /\
  data (cur w') = initData props (params (cur w)) /\
  params (cur w') = params (cur w) /\
  canPlay (cur w') = true /\ isPlaying (cur w') = Some false /\
  time (cur w') = None /\ timer (cur w') = None /\
  pending w' = without_timer w /\
  results (cur w') = (if clearsResultsCacheOnReset props then [] else results (cur w)) /\
  (if clearsDataCacheOnReset props
   then cachedDataKeys (cur w') = ∅ /\ cachedDataKeysQueue (cur w') = [] /\
        cachedData (cur w') = next_object w /\
        next_object w' = S (next_object w) /\
        objects w' (cachedData (cur w')) = ∅ /\
        (forall o, o <> next_object w -> objects w' o = objects w o) /\
        ((cachedData (cur w) < next_object w)%nat ->
         cachedData (cur w') <> cachedData (cur w) /\
         objects w' (cachedData (cur w)) = objects w (cachedData (cur w)))
   else cachedDataKeys (cur w') = cachedDataKeys (cur w) /\
        cachedDataKeysQueue (cur w') = cachedDataKeysQueue (cur w) /\
        cachedData (cur w') = cachedData (cur w) /\ objects w' = objects w /\
        next_object w' = next_object w) /\
  updated w' = updated w /\ rendered w' = rendered w.
Proof.
  destruct (stop_fields props w)
    as ((F1 & F2 & F3 & F4 & F5 & F6 & F7 & F8 & F9 & F10 & F11 & F12 & F13) & _).
  pose proof (stop_objects props w) as Hobj. cbv zeta in *.
  do 10 (split; [assumption|]). split; [|split; assumption].
  destruct (clearsDataCacheOnReset props).
  - destruct F11 as (A & B & C). destruct Hobj as (D & E & F & G).
    split; [exact A|]. split; [exact B|]. split; [exact D|]. split; [exact E|].
    split; [exact C|]. split; [exact G|].
    intros Hold. split; [rewrite D; lia|apply G; lia].
  - destruct F11 as (A & B & C & D). repeat split; assumption.
Qed.

Lemma stop_rewinds_witness :
  let p := cachingIncrementer 3 in
  let w := runs p [SetTick 2] (new_Model p) in
  (cachedData (cur w) < next_object w)%nat /\
  objects w (cachedData (cur w)) !! 2 = Some 2 /\
  cachedData (cur (stop p w)) <> cachedData (cur w) /\
  objects (stop p w) (cachedData (cur (stop p w))) = ∅ /\
  objects (stop p w) (cachedData (cur w)) !! 2 = Some 2.
Proof.
  assert (H1 : (cachedData (cur (runs (cachingIncrementer 3) [SetTick 2]
                                   (new_Model (cachingIncrementer 3))))
                < next_object (runs (cachingIncrementer 3) [SetTick 2]
                                 (new_Model (cachingIncrementer 3))))%nat)
    by (vm_compute; lia).
  assert (H2 : objects (runs (cachingIncrementer 3) [SetTick 2]
                          (new_Model (cachingIncrementer 3)))
                 (cachedData (cur (runs (cachingIncrementer 3) [SetTick 2]
                                     (new_Model (cachingIncrementer 3))))) !! 2
               = Some 2) by (vm_compute; reflexivity).
  split; [exact H1|]. split; [exact H2|].
  destruct (stop_rewinds (cachingIncrementer 3)
              (runs (cachingIncrementer 3) [SetTick 2] (new_Model (cachingIncrementer 3))))
    as (_ & _ & _ & _ & _ & _ & _ & _ & _ & _ & H11 & _).
  change (clearsDataCacheOnReset (cachingIncrementer 3)) with true in H11.
  destruct H11 as (_ & _ & _ & _ & Hnew & _ & Hkeep).
  destruct (Hkeep H1) as [Hne Hold].
  split; [exact Hne|]. split; [exact Hnew|]. rewrite Hold. exact H2.
Defined.

(** ** Merging parameters *)

(** X9: [setParams] merges, the update winning.  On a store whose
    current record is allocated, after [setParams(update)] every key of
    the update has the update's value, every other key keeps its value,
    and a second [setParams] merges over the first. *)
Theorem setParams_merges {T U} (props : ModelProps T U) (w : World T U)
    (update later : gmap string Param) :
  settled w ->
  let w' := setParams props update w in
  settled w' /\
  params (cur w') = update ∪ params (cur w) /\
  (forall k, params (cur w') !! k =
             match update !! k with
             | Some v => Some v
             | None => params (cur w) !! k
             end) /\
  params (cur (setParams props later w')) = later ∪ (update ∪ params (cur w)).
Proof.
  intros Hs.
  assert (Hone : forall (u : gmap string Param) (w0 : World T U),
            settled w0 ->
            settled (setParams props u w0) /\
            params (cur (setParams props u w0)) = u ∪ params (cur w0)).
  { intros u w0 [Hn Ha]. unfold setParams. cbv zeta.
    set (w1 := modify (this_state w0) _ w0).
    assert (H1 : settled w1 /\ params (cur w1) = u ∪ params (cur w0)).
    { unfold w1. rewrite cur_modify_this. split; [split; assumption|reflexivity]. }
    clearbody w1. destruct H1 as [[Hn1 Ha1] Hp1].
    destruct (resetsOnChange props); [|split; [split|]; assumption].
    destruct (reset_frame props (Some (this_state w1)) w1) as (R1 & R2 & R3 & R4 & R5 & R6).
    destruct (reset props _ _) as [fresh w3]. simpl in *.
    unfold settled, cur. rewrite R2, R3, R5, R6 by lia.
    split; [split; [exact Hn1|lia]|exact Hp1]. }
  cbv zeta. destruct (Hone update w Hs) as [Hs' Hp]. split; [exact Hs'|].
  split; [exact Hp|]. split.
  - intros k. rewrite Hp, lookup_union. destruct (update !! k), (params (cur w) !! k);
      reflexivity.
  - destruct (Hone later _ Hs') as [_ ->]. rewrite Hp. reflexivity.
Qed.

Lemma setParams_merges_witness :
  let w := runs incrementer [SetTick 2] (new_Model incrementer) in
  settled w /\
  params (cur (setParams incrementer {[ "speed"%string := PNum 3 ]}
                 (setParams incrementer {[ "speed"%string := PNum 2 ]} w)))
    !! "speed"%string = Some (PNum 3).
Proof.
  assert (H : settled (runs incrementer [SetTick 2] (new_Model incrementer))).
  { split; vm_compute; [reflexivity|lia]. }
  split; [exact H|].
  destruct (setParams_merges incrementer _ {[ "speed"%string := PNum 2 ]}
              {[ "speed"%string := PNum 3 ]} H) as (_ & _ & _ & ->).
  vm_compute. reflexivity.
Defined.

(** ** A completion signalled during a seek *)

Section Completion.

Context {T U : Type}.
Variable props : ModelProps T U.
Implicit Types (w : World T U).

Lemma complete_allocated result state stop w :
  exists w',
    complete props result state stop w = stop w' /\
    records w' state =
      set_canPlay false
        (set_results (retain (resultsCacheSize props) result (results (records w state)))
           (records w state)) /\
    this_state w' = this_state w /\
    pending w' = pending w /\
    updated w' = updated w /\ rendered w' = rendered w /\
    next_record w' = next_record w.
Proof.
  unfold complete, retain, modify.
  destruct (0 <? resultsCacheSize props).
  - simpl. rewrite fn_lookup_insert. simpl.
    destruct (resultsCacheSize props <? _);
      (eexists; split; [reflexivity|]; simpl; rewrite !fn_lookup_insert; simpl;
       split; [reflexivity|tauto]).
  - eexists; split; [reflexivity|]; simpl; rewrite !fn_lookup_insert; simpl.
    split; [destruct (records w state); reflexivity|tauto].
Qed.

(** The loop on a record the engine is no longer bound to, once that
    record has [canPlay = false]: nothing the engine reads changes. *)
Lemma stepping_unbound n shouldStop state t d w :
  this_state w <> state ->
  canPlay (records w state) = false ->
  let w' := stepping props n shouldStop state (stop props) pause render t d w in
  cur w' = cur w /\ objects w' = objects w /\ updated w' = updated w /\
  rendered w' = rendered w /\ pending w' = pending w.
Proof.
  intros Hne Hcan. cbv zeta. destruct n as [|n]; [repeat split; reflexivity|].
  simpl stepping. unfold checkCanPlay. rewrite Hcan. simpl.
  repeat split; try reflexivity.
  rewrite !cur_modify, this_state_modify.
  destruct (decide (state = this_state w)); [congruence|reflexivity].
Qed.

(** The rest of an iteration after the transition function returned, on
    a record the engine is no longer bound to. *)
Lemma iteration_unbound (shouldStop : bool) state t d w :
  this_state w <> state ->
  let w' :=
    let w1 := cacheTick props state t d w in
    let w1 := modify state (set_data d) w1 in
    let w1 := modify state (set_tick t) w1 in
    let w1 := if shouldStop then modify state (set_isPlaying (Some false)) w1 else w1 in
    render w1 in
  cur w' = cur w /\ this_state w' = this_state w /\
  canPlay (records w' state) = canPlay (records w state) /\
  updated w' = updated w /\
  rendered w' = rendered w ++
    [{| arg_cachedData := objects w' (cachedData (cur w'));
        arg_data := data (cur w); arg_tick := tick (cur w);
        arg_params := params (cur w) |}] /\
  pending w' = pending w.
Proof.
  intros Hne. cbv zeta.
  set (w2 := cacheTick props state t d w).
  assert (H2 : cur w2 = cur w /\ this_state w2 = this_state w /\
               canPlay (records w2 state) = canPlay (records w state) /\
               updated w2 = updated w /\ rendered w2 = rendered w /\
               pending w2 = pending w).
  { unfold w2. pose proof (cacheTick_this props state t d w) as Hthis.
    destruct (cacheTick_logs props state t d w) as [Hu Hr].
    repeat split; auto using cacheTick_pending.
    - unfold cur. rewrite Hthis, cacheTick_records.
      destruct (decide (state = this_state w)); [congruence|reflexivity].
    - rewrite cacheTick_records. destruct (decide (state = state)); [|congruence].
      destruct (cache_record_shape props t (records w state)) as (k & q & m & ->).
      reflexivity. }
  clearbody w2. destruct H2 as (C1 & C2 & C3 & C4 & C5 & C6).
  set (w3 := if shouldStop then _ else _).
  assert (H3 : cur w3 = cur w /\ this_state w3 = this_state w /\
               canPlay (records w3 state) = canPlay (records w state) /\
               updated w3 = updated w /\ rendered w3 = rendered w /\
               pending w3 = pending w).
  { unfold w3. rewrite <- C2 in Hne. rewrite <- C1, <- C2, <- C3, <- C4, <- C5, <- C6.
    destruct shouldStop; repeat split; try reflexivity;
      rewrite ?cur_modify, ?this_state_modify, ?records_modify;
      repeat (destruct (decide _); try congruence); reflexivity. }
  clearbody w3. destruct H3 as (D1 & D2 & D3 & D4 & D5 & D6).
  unfold render. rewrite cur_log_render.
  repeat split; auto.
  unfold log_render. simpl. rewrite D5, D1. reflexivity.
Qed.

End Completion.

(** A seek whose first transition call signals one completion. *)
Lemma setTick_completing {T U} (props : ModelProps T U) (w : World T U)
    (target : Z) (r : U) (d' : T) :
  settled w ->
  canPlay (cur w) = true ->
  target ∉ cachedDataKeys (cur w) ->
  resume_tick (cur w) < target ->
  within (resume_tick (cur w)) (maxTime props) ->
  let a := {| arg_cachedData := objects w (cachedData (cur w));
              arg_data := data (cur w);
              arg_tick := resume_tick (cur w) + 1;
              arg_params := params (cur w) |} in
  updateData props a = (d', [CallComplete r]) ->
  let w' := setTick props target w in
  updated w' = updated w ++ [a] /\
  rendered w' = rendered w ++
    [{| arg_cachedData := objects w' (cachedData (cur w'));
        arg_data := initData props (params (cur w));
        arg_tick := initialTick props;
        arg_params := params (cur w) |}] /\
  tick (cur w') = initialTick props /\
  data (cur w') = initData props (params (cur w)) /\
  params (cur w') = params (cur w) /\
  canPlay (cur w') = true /\ isPlaying (cur w') = Some false /\
  results (cur w') = (if clearsResultsCacheOnReset props then []
                      else retain (resultsCacheSize props) r (results (cur w))) /\
  pending w' = without_timer w.
Proof.
  intros [_ Hal] Hcan Hnot Hlt Hin a Hupd. cbv zeta.
  unfold setTick.
  destruct (stopAndCancelTimer_frame (this_state w) w) as (Hobj & Hu & Hr & _ & Hrec).
  pose proof (stopAndCancelTimer_this (this_state w) w) as Hthis.
  pose proof (stopAndCancelTimer_without w) as Hpend.
  pose proof (stopAndCancelTimer_next (this_state w) w) as Hnext.
  pose proof (stopAndCancelTimer_cur (this_state w) w) as Hcur.
  assert (Htimer : truthy (timer (cur (stopAndCancelTimer (this_state w) w))) = None).
  { rewrite Hcur. fold (cur w). destruct (truthy (timer (cur w))) eqn:E; [|exact E].
    destruct (decide _); [reflexivity|congruence]. }
  destruct (Hrec (this_state w)) as [v Hv]. fold (cur w) in Hv. clear Hrec Hcur.
  set (w1 := stopAndCancelTimer (this_state w) w) in *.
  assert (Hcur1 : cur w1 = set_timer v (cur w)).
  { unfold cur at 1. rewrite Hthis. exact Hv. }
  clearbody w1. rewrite Hthis.
  unfold updateToTick. rewrite Hv. simpl.
  rewrite bool_decide_eq_false_2 by exact Hnot.
  fold (resume_tick (cur w)).
  destruct (Z.to_nat (target - resume_tick (cur w))) as [|m] eqn:Hm; [lia|].
  simpl stepping.
  rewrite checkCanPlay_ok; [|rewrite Hv; exact Hcan|exact Hin].
  rewrite Hv, Hobj. simpl. fold a. rewrite Hupd. simpl foldl. unfold invoke.
  destruct (complete_allocated props r (this_state w) (stop props) (log_update a w1))
    as (wc & -> & K1 & K2 & K3 & K4 & K5 & K6).
  unfold log_update in K1, K2, K3, K4, K5, K6. simpl in K1, K2, K3, K4, K5, K6.
  rewrite Hthis in K2.
  assert (Hcurc : cur wc =
            set_canPlay false
              (set_results (retain (resultsCacheSize props) r (results (cur w)))
                 (set_timer v (cur w)))).
  { unfold cur at 1. rewrite K2, K1, Hv. reflexivity. }
  destruct (stop_fields props wc)
    as ((F1 & _ & F3 & F4 & F5 & F6 & _ & _ & F9 & F10 & _ & F12 & F13) & G1 & _ & G3).
  cbv zeta in *.
  assert (Hne : this_state (stop props wc) <> this_state w).
  { rewrite G1, K6, Hnext. lia. }
  assert (Hold : canPlay (records (stop props wc) (this_state w)) = false).
  { rewrite G3; [rewrite K1; reflexivity|].
    rewrite K6, Hnext. lia. }
  set (ws := stop props wc) in *. clearbody ws.
  destruct (iteration_unbound props true (this_state w) (resume_tick (cur w) + 1) d' ws Hne)
    as (I1 & I2 & I3 & I4 & I5 & I6).
  cbv zeta in I1, I2, I3, I4, I5, I6.
  set (w6 := render _) in *. clearbody w6.
  assert (Hne6 : this_state w6 <> this_state w) by (rewrite I2; exact Hne).
  assert (Hold6 : canPlay (records w6 (this_state w)) = false) by (rewrite I3; exact Hold).
  destruct (stepping_unbound props m true (this_state w) (resume_tick (cur w) + 1) d'
              w6 Hne6 Hold6) as (S1 & S2 & S3 & S4 & S5).
  cbv zeta in S1, S2, S3, S4, S5.
  rewrite S1, S2, S3, S4, S5, I1, I4, I5, I6, F1, F3, F4, F5, F6, F9, F10, F12, F13.
  rewrite Hcurc, K4, K5. unfold without_timer at 1. rewrite Hcurc. simpl.
  rewrite Hcur1 in Htimer. simpl in Htimer.
  unfold log_update. simpl. rewrite Hu, Hr, Htimer, K3, Hpend, ?I1.
  repeat split; reflexivity.
Qed.

(** X10: a completion signalled during a seek ends the seek and rewinds
    the engine.  On an engine that can play, [setTick(target)] to an
    uncached later tick whose first call of the transition function
    signals [complete(r)] (and nothing else) invokes the transition
    function exactly once, however far the target is, and renders once;
    afterwards, and in what that render is shown, the engine is at
    [initialTick] with [initData(params)]: the data the transition
    function returned with the signal is not the engine's.  [canPlay] is
    true again, [isPlaying] is false, the parameters are kept, and the
    results are empty or hold [r] as [clearsResultsCacheOnReset] says. *)
Theorem completion_ends_seek {T U} (props : ModelProps T U) (w : World T U)
    (target : Z) (r : U) (d' : T) :
  settled w ->
  canPlay (cur w) = true ->
  target ∉ cachedDataKeys (cur w) ->
  resume_tick (cur w) < target ->
  within (resume_tick (cur w)) (maxTime props) ->
  let a := {| arg_cachedData := objects w (cachedData (cur w));
              arg_data := data (cur w);
              arg_tick := resume_tick (cur w) + 1;
              arg_params := params (cur w) |} in
  updateData props a = (d', [CallComplete r]) ->
  let w' := setTick props target w in
  updated w' = updated w ++ [a] /\
  rendered w' = rendered w ++
    [{| arg_cachedData := objects w' (cachedData (cur w'));
        arg_data := initData props (params (cur w));
        arg_tick := initialTick props;
        arg_params := params (cur w) |}] /\
  tick (cur w') = initialTick props /\
  data (cur w') = initData props (params (cur w)) /\
  params (cur w') = params (cur w) /\
  canPlay (cur w') = true /\ isPlaying (cur w') = Some false /\
  results (cur w') = (if clearsResultsCacheOnReset props then []
                      else retain (resultsCacheSize props) r (results (cur w))) /\
  pending w' = without_timer w.
Proof. exact (setTick_completing props w target r d'). Qed.

Lemma completion_ends_seek_witness :
  let p := finisher 3 false in
  let w := new_Model p in
  settled w /\ canPlay (cur w) = true /\ (5 ∉ cachedDataKeys (cur w)) /\
  resume_tick (cur w) < 5 /\ within (resume_tick (cur w)) (maxTime p) /\
  length (updated (setTick p 5 w)) = 1%nat /\
  tick (cur (setTick p 5 w)) = 0 /\
  results (cur (setTick p 5 w)) = [1].
Proof.
  assert (H1 : settled (new_Model (finisher 3 false))).
  { split; vm_compute; [reflexivity|lia]. }
  assert (H2 : canPlay (cur (new_Model (finisher 3 false))) = true) by reflexivity.
  assert (H3 : 5 ∉ cachedDataKeys (cur (new_Model (finisher 3 false)))).
  { change (cachedDataKeys (cur (new_Model (finisher 3 false)))) with (∅ : gset Z).
    set_solver. }
  assert (H4 : resume_tick (cur (new_Model (finisher 3 false))) < 5) by reflexivity.
  assert (H5 : within (resume_tick (cur (new_Model (finisher 3 false))))
                 (maxTime (finisher 3 false))) by reflexivity.
  repeat (split; [assumption|]).
  destruct (completion_ends_seek (finisher 3 false) (new_Model (finisher 3 false)) 5 1 1
              H1 H2 H3 H4 H5 eq_refl) as (Hu & _ & Ht & _ & _ & _ & _ & Hr & _).
  split; [rewrite Hu; reflexivity|]. split; [exact Ht|]. rewrite Hr. reflexivity.
Defined.

(** ** Replaying from given data *)

Lemma setData_fields {T U} (props : ModelProps T U) (d : T) (w : World T U) :
  exists v,
    cur (setData props d w) =
      set_tick (initialTick props)
        (set_isPlaying (Some false) (set_timer v (set_data d (cur w)))) /\
    this_state (setData props d w) = this_state w /\
    objects (setData props d w) = objects w /\
    updated (setData props d w) = updated w /\
    rendered (setData props d w) = rendered w /\
    pending (setData props d w) = without_timer w.
Proof.
  unfold setData. cbv zeta.
  set (w0 := modify (this_state w) (set_data d) w).
  assert (H0 : cur w0 = set_data d (cur w)) by apply cur_modify_this.
  change (this_state (modify (this_state w) (set_data d) w)) with (this_state w0).
  destruct (stopAndCancelTimer_frame (this_state w0) w0) as (Hobj & Hu & Hr & _ & Hrec).
  pose proof (stopAndCancelTimer_this (this_state w0) w0) as Hthis.
  pose proof (stopAndCancelTimer_without w0) as Hpend.
  destruct (Hrec (this_state w0)) as [v Hv]. fold (cur w0) in Hv.
  set (w1 := stopAndCancelTimer (this_state w0) w0) in *. clearbody w1.
  exists v. rewrite !objects_modify, !pending_modify.
  unfold cur at 1. rewrite ?this_state_modify, ?records_modify, ?this_state_modify.
  repeat (destruct (decide _); [|congruence]).
  rewrite Hthis, Hv, H0, Hobj, Hpend.
  repeat split; [exact Hu|exact Hr|].
  unfold without_timer. rewrite H0. reflexivity.
Qed.

(** X11: [setData(d)] followed by a seek replays from [d].  When the
    transition function signals nothing, the data cache is off and
    empty, and the engine can play, [setData(d); setTick(target)] with
    [target] after [initialTick] ends at [target] with the transition
    function applied [target - initialTick] times to [d], wherever the
    tick was before: the function is invoked on the ticks
    [initialTick + 1 .. target]. *)
Theorem setData_then_seek {T U} (props : ModelProps T U) (w : World T U)
    (d : T) (target : Z) :
  silent props ->
  dataCacheSize props <= 0 ->
  cachedDataKeys (cur w) = ∅ ->
  canPlay (cur w) = true ->
  initialTick props < target ->
  within (target - 1) (maxTime props) ->
  let n := Z.to_nat (target - initialTick props) in
  let calls := transitions props (objects w (cachedData (cur w))) (params (cur w))
                 n (initialTick props) d in
  let w' := setTick props target (setData props d w) in
  tick (cur w') = target /\
  data (cur w') = replay props (objects w (cachedData (cur w))) (params (cur w))
                    n (initialTick props) d /\
  isPlaying (cur w') = Some false /\
  updated w' = updated w ++ calls /\
  rendered w' = rendered w ++ map (shown props) calls /\
  map arg_tick calls = map (fun i => initialTick props + 1 + Z.of_nat i) (seq 0 n).
Proof.
  intros Hsilent Hoff Hkeys Hcan Hlt Hmax. cbv zeta.
  destruct (setData_fields props d w) as (v0 & D1 & D2 & D3 & D4 & D5 & _).
  set (w0 := setData props d w) in *. clearbody w0.
  unfold setTick.
  destruct (stopAndCancelTimer_frame (this_state w0) w0) as (Hobj & Hupd & Hren & _ & Hrec).
  pose proof (stopAndCancelTimer_this (this_state w0) w0) as Hthis.
  set (w1 := stopAndCancelTimer (this_state w0) w0) in *.
  destruct (Hrec (this_state w0)) as [v Hcur1]. fold (cur w0) in Hcur1.
  assert (Hcur1' : cur w1 = set_timer v (cur w0)).
  { unfold cur. rewrite Hthis. exact Hcur1. }
  clearbody w1. clear Hrec Hcur1.
  unfold updateToTick. fold (cur w1). rewrite Hcur1', D1. simpl.
  rewrite Hkeys, !bool_decide_eq_false_2 by set_solver.
  assert (Hcan1 : canPlay (cur w1) = true) by (rewrite Hcur1', D1; exact Hcan).
  assert (Hin : forall i, (i < Z.to_nat (target - initialTick props))%nat ->
                          within (initialTick props + Z.of_nat i) (maxTime props)).
  { intros i Hi. apply (exceeds_mono _ (target - 1)); [lia|exact Hmax]. }
  destruct (stepping_silent props Hsilent Hoff (Z.to_nat (target - initialTick props)) true
              (initialTick props) d w1 Hcan1 Hin)
    as (_ & _ & _ & S4 & S5 & S6 & _).
  rewrite Hcur1', D1, Hobj, D3 in S4, S5, S6. rewrite Hupd, D4 in S4. rewrite Hren, D5 in S5.
  simpl in S4, S5, S6.
  rewrite S4, S5, S6.
  destruct (Z.to_nat (target - initialTick props)) as [|n] eqn:Hn; [lia|].
  rewrite <- Hn. simpl.
  repeat split; try reflexivity; [lia|apply transitions_ticks].
Qed.

Lemma setData_then_seek_witness :
  let w := runs incrementer [SetTick 7] (new_Model incrementer) in
  silent incrementer /\ dataCacheSize incrementer <= 0 /\
  cachedDataKeys (cur w) = ∅ /\ canPlay (cur w) = true /\
  initialTick incrementer < 3 /\ within (3 - 1) (maxTime incrementer) /\
  tick (cur (setTick incrementer 3 (setData incrementer 40 w))) = 3 /\
  data (cur (setTick incrementer 3 (setData incrementer 40 w))) = 43.
Proof.
  assert (H1 : silent incrementer) by (intros a; reflexivity).
  assert (H2 : dataCacheSize incrementer <= 0) by (vm_compute; discriminate).
  assert (H3 : cachedDataKeys (cur (runs incrementer [SetTick 7] (new_Model incrementer)))
               = ∅) by reflexivity.
  assert (H4 : canPlay (cur (runs incrementer [SetTick 7] (new_Model incrementer)))
               = true) by reflexivity.
  assert (H5 : initialTick incrementer < 3) by reflexivity.
  assert (H6 : within (3 - 1) (maxTime incrementer)) by reflexivity.
  repeat (split; [assumption|]).
  destruct (setData_then_seek incrementer _ 40 3 H1 H2 H3 H4 H5 H6) as (Ht & Hd & _).
  split; [exact Ht|]. rewrite Hd. vm_compute. reflexivity.
Defined.

(** ** The results kept across completions *)

Section Retention.

Context {T U : Type}.
Variable props : ModelProps T U.
Implicit Types (w : World T U).

Lemma settled_run (o : Op T) w : settled w -> settled (run props o w).
Proof.
  apply (rule_run props settled).
  - intros state f w' _ H. exact H.
  - intros state t d w' [Hn Ha]. split.
    + rewrite cacheTick_next_handle. exact Hn.
    + rewrite cacheTick_this.
      destruct (cacheTick_next props state t d w') as [-> _]. exact Ha.
  - intros state w' [Hn Ha].
    destruct (reset_frame props state w') as (_ & R2 & R3 & _ & R5 & _).
    split; [rewrite R2; exact Hn|rewrite R3, R5; lia].
  - intros state w' [Hn Ha].
    destruct (reset_frame props state w') as (_ & R2 & _ & R4 & R5 & _).
    split; simpl; [rewrite R2; exact Hn|rewrite R4, R5; lia].
  - intros h w' H; exact H.
  - intros w' [Hn Ha]. split; simpl; [lia|exact Ha].
  - intros a w' H; exact H.
  - intros a w' H; exact H.
  - intros rest w' H; exact H.
Qed.

(** [complete] on a record the engine is not bound to: the result goes
    to that record, and the record [stop()] builds takes the buffer of
    the bound one. *)
Lemma complete_left_behind result state w :
  state <> this_state w ->
  results (cur (complete props result state (stop props) w)) =
  if clearsResultsCacheOnReset props then [] else results (cur w).
Proof.
  intros Hne.
  destruct (complete_written props result state (stop props) w)
    as (w' & -> & _ & Hrec & _ & Hthis & _).
  rewrite stop_results. destruct (clearsResultsCacheOnReset props); [reflexivity|].
  unfold cur. rewrite Hthis. rewrite Hrec by auto. reflexivity.
Qed.

Lemma completing_seek_results target r w :
  settled w ->
  completing_seek props target r w ->
  results (cur (setTick props target w)) =
  if clearsResultsCacheOnReset props then []
  else retain (resultsCacheSize props) r (results (cur w)).
Proof.
  intros Hs (Hcan & Hnot & Hlt & Hin & Hsig).
  apply bool_decide_eq_false in Hnot.
  remember (updateData props
              {| arg_cachedData := objects w (cachedData (cur w));
                 arg_data := data (cur w);
                 arg_tick := resume_tick (cur w) + 1;
                 arg_params := params (cur w) |}) as u eqn:Hupd.
  destruct u as [d' calls]. simpl in Hsig. subst calls. symmetry in Hupd.
  destruct (setTick_completing props w target r d' Hs Hcan Hnot Hlt Hin Hupd)
    as (_ & _ & _ & _ & _ & _ & _ & Hres & _).
  exact Hres.
Qed.

Lemma setData_results d w : results (cur (setData props d w)) = results (cur w).
Proof. destruct (setData_fields props d w) as (v & -> & _). reflexivity. Qed.

Lemma completing_results es : forall w,
  settled w ->
  clearsResultsCacheOnReset props = false ->
  0 < resultsCacheSize props ->
  Z.of_nat (length (results (cur w))) <= resultsCacheSize props ->
  completing props es w ->
  results (cur (runs props (map episode_op es) w)) =
  most_recent (Z.to_nat (resultsCacheSize props)) (results (cur w) ++ signalled es).
Proof.
  induction es as [|e es IH]; intros w Hs Hkeep Hpos Hlen Hc.
  - simpl. rewrite app_nil_r. unfold most_recent.
    replace (length (results (cur w)) - Z.to_nat (resultsCacheSize props))%nat
      with 0%nat by lia.
    reflexivity.
  - destruct Hc as [He Hc].
    change (runs props (map episode_op (e :: es)) w)
      with (runs props (map episode_op es) (run props (episode_op e) w)).
    pose proof (settled_run (episode_op e) w Hs) as Hs1.
    destruct e as [target r|d]; simpl in Hs1, Hc; simpl episode_op; simpl run;
      simpl signalled.
    + pose proof (completing_seek_results target r w Hs He) as Hres.
      rewrite Hkeep in Hres.
      rewrite IH; try assumption.
      * rewrite Hres, (retain_most_recent props) by assumption.
        rewrite (cons_middle r (results (cur w)) (signalled es)), app_assoc.
        apply most_recent_app. lia.
      * rewrite Hres. apply retain_length, Hlen.
    + rewrite IH; try assumption; rewrite setData_results; [reflexivity|exact Hlen].
Qed.

End Retention.




(** Completions that reach a record the engine has left are not kept,
    also with [clearsResultsCacheOnReset] off: of two completions
    signalled in one call of the transition function the engine keeps
    the first; a completion signalled on the tick after a [stop()] of
    the same seek is not kept. *)
Lemma later_completion_is_lost :
  results (cur (runs (twice 2) [SetTick 1] (new_Model (twice 2)))) = [7] /\
  length (updated (runs (late 1) [SetTick 2] (new_Model (late 1)))) = 2%nat /\
  results (cur (runs (late 1) [SetTick 2] (new_Model (late 1)))) = [].
Proof. vm_compute. repeat split. Qed.

(** ** A pause requested by the transition function *)

Lemma stopAndCancelTimer_fields {T U} (w : World T U) :
  exists v,
    truthy v = None /\
    cur (stopAndCancelTimer (this_state w) w) = set_timer v (cur w) /\
    this_state (stopAndCancelTimer (this_state w) w) = this_state w /\
    objects (stopAndCancelTimer (this_state w) w) = objects w /\
    updated (stopAndCancelTimer (this_state w) w) = updated w /\
    rendered (stopAndCancelTimer (this_state w) w) = rendered w /\
    pending (stopAndCancelTimer (this_state w) w) = without_timer w.
Proof.
  unfold stopAndCancelTimer, without_timer. fold (cur w).
  destruct (truthy (timer (cur w))) eqn:E.
  - exists None. repeat split. unfold cur. read_store; reflexivity.
  - exists (timer (cur w)). repeat split; [exact E|]. destruct (cur w); reflexivity.
Qed.

(** X12: [pause()] called by the transition function during playback
    keeps the tick it was called on.  With one tick per callback, the
    data cache off and empty, a clock callback that is due and whose
    call of the transition function returns [d'] and signals [pause()]
    leaves the engine at the next tick with [d'], renders it, and
    schedules nothing: [isPlaying] is false and the stored handle is not
    outstanding. *)
Theorem pause_from_transition {T U} (props : ModelProps T U) (w : World T U)
    (timestamp : Z) (d' : T) :
  dataCacheSize props <= 0 ->
  cachedDataKeys (cur w) = ∅ ->
  canPlay (cur w) = true ->
  within (tick (cur w)) (maxTime props) ->
  ticksPerAnimation props = 1 ->
  delay props <= timestamp - nullish (time (cur w)) timestamp ->
  let a := {| arg_cachedData := objects w (cachedData (cur w));
              arg_data := data (cur w);
              arg_tick := tick (cur w) + 1;
              arg_params := params (cur w) |} in
  updateData props a = (d', [CallPause]) ->
  let w' := advance props timestamp w in
  tick (cur w') = tick (cur w) + 1 /\
  data (cur w') = d' /\
  isPlaying (cur w') = Some false /\
  canPlay (cur w') = true /\
  time (cur w') = Some timestamp /\
  updated w' = updated w ++ [a] /\
  rendered w' = rendered w ++
    [{| arg_cachedData := objects w (cachedData (cur w));
        arg_data := d'; arg_tick := tick (cur w) + 1;
        arg_params := params (cur w) |}] /\
  pending w' = without_timer w.
Proof.
  intros Hoff Hkeys Hcan Hin Htpa Hdue a Hupd. cbv zeta.
  rewrite advance_ok by assumption. cbv zeta.
  set (w2 := match time (cur w) with
             | Some _ => w
             | None => modify (this_state w) (set_time (Some timestamp)) w
             end).
  assert (H2 : this_state w2 = this_state w /\ objects w2 = objects w /\
               updated w2 = updated w /\ rendered w2 = rendered w /\
               pending w2 = pending w /\
               cur w2 = set_time (Some (nullish (time (cur w)) timestamp)) (cur w)).
  { unfold w2. destruct (time (cur w)) eqn:Htime; simpl.
    - repeat split. destruct (cur w); simpl in *. subst. reflexivity.
    - rewrite cur_modify_this. repeat split. }
  clearbody w2. destruct H2 as (T1 & T2 & T3 & T4 & T5 & T7).
  rewrite T7. simpl.
  rewrite (proj2 (Z.leb_le _ _)) by exact Hdue.
  rewrite T1.
  set (w3 := modify (this_state w) (set_time (Some timestamp)) w2).
  assert (Hcur3 : cur w3 = set_time (Some timestamp) (cur w)).
  { unfold w3, cur. rewrite this_state_modify, T1, records_modify, decide_True by reflexivity.
    fold (cur w). rewrite <- T1. fold (cur w2). rewrite T7.
    destruct (cur w); reflexivity. }
  assert (H3 : this_state w3 = this_state w /\ objects w3 = objects w /\
               updated w3 = updated w /\ rendered w3 = rendered w /\
               pending w3 = pending w).
  { unfold w3. repeat split; assumption. }
  clearbody w3. destruct H3 as (U1 & U2 & U3 & U4 & U5).
  rewrite <- U1.
  unfold updateToTick. fold (cur w3). rewrite Hcur3. simpl.
  rewrite Hkeys, !bool_decide_eq_false_2 by set_solver.
  rewrite Htpa.
  replace (tick (cur w) + 1 - tick (cur w)) with 1 by lia.
  change (Z.to_nat 1) with 1%nat. simpl stepping.
  rewrite checkCanPlay_ok; [|fold (cur w3); rewrite Hcur3; exact Hcan|exact Hin].
  fold (cur w3). rewrite Hcur3, U2. simpl. fold a. rewrite Hupd. simpl foldl.
  unfold invoke, pause. rewrite (cacheTick_off props Hoff).
  set (wl := log_update a w3).
  assert (Hl : cur wl = set_time (Some timestamp) (cur w) /\
               this_state wl = this_state w3 /\ objects wl = objects w /\
               updated wl = updated w ++ [a] /\ rendered wl = rendered w /\
               pending wl = pending w /\
               without_timer wl = without_timer w).
  { unfold wl. rewrite cur_log_update, Hcur3. unfold log_update. simpl.
    rewrite U3. repeat split; try assumption.
    unfold without_timer, cur. simpl. fold (cur w3). rewrite Hcur3, U5. reflexivity. }
  clearbody wl. destruct Hl as (L1 & L2 & L3 & L4 & L5 & L6 & L7).
  rewrite <- L2.
  destruct (stopAndCancelTimer_fields wl) as (v & Hv & P1 & P2 & P3 & P4 & P5 & P6).
  set (wp := stopAndCancelTimer (this_state wl) wl) in *. clearbody wp.
  rewrite P2.
  set (w5 := render _).
  assert (H5 : cur w5 =
                 set_tick (tick (cur w) + 1)
                   (set_data d'
                      (set_isPlaying (Some false)
                         (set_timer v (set_time (Some timestamp) (cur w))))) /\
               updated w5 = updated w ++ [a] /\
               rendered w5 = rendered w ++
                 [{| arg_cachedData := objects w (cachedData (cur w));
                     arg_data := d'; arg_tick := tick (cur w) + 1;
                     arg_params := params (cur w) |}] /\
               pending w5 = without_timer w).
  { assert (Hc : cur (modify (this_state wl) (set_tick (tick (cur w) + 1))
                        (modify (this_state wl) (set_data d')
                           (modify (this_state wl) (set_isPlaying (Some false)) wp))) =
                 set_tick (tick (cur w) + 1)
                   (set_data d'
                      (set_isPlaying (Some false)
                         (set_timer v (set_time (Some timestamp) (cur w)))))).
    { unfold cur at 1. rewrite !this_state_modify, P2, !records_modify.
      repeat (destruct (decide _); [|congruence]).
      rewrite <- P2. fold (cur wp). rewrite P1, L1. reflexivity. }
    unfold w5, render. rewrite cur_log_render. split; [exact Hc|].
    unfold log_render. simpl. rewrite Hc, P3, P4, P5, P6, L3, L4, L5, L7. simpl.
    repeat split; reflexivity. }
  clearbody w5. destruct H5 as (E1 & E2 & E3 & E4).
  unfold rescheduled. rewrite E1. simpl.
  rewrite E1, E2, E3, E4. simpl.
  repeat split; try reflexivity. exact Hcan.
Qed.

Lemma pause_from_transition_witness :
  let w := runs pauser [Play] (new_Model pauser) in
  dataCacheSize pauser <= 0 /\ cachedDataKeys (cur w) = ∅ /\
  canPlay (cur w) = true /\ within (tick (cur w)) (maxTime pauser) /\
  ticksPerAnimation pauser = 1 /\
  delay pauser <= 16 - nullish (time (cur w)) 16 /\
  tick (cur (advance pauser 16 w)) = 1 /\
  isPlaying (cur (advance pauser 16 w)) = Some false /\
  pending (advance pauser 16 w) = [].
Proof.
  assert (H1 : dataCacheSize pauser <= 0) by (vm_compute; discriminate).
  assert (H2 : cachedDataKeys (cur (runs pauser [Play] (new_Model pauser))) = ∅)
    by reflexivity.
  assert (H3 : canPlay (cur (runs pauser [Play] (new_Model pauser))) = true)
    by reflexivity.
  assert (H4 : within (tick (cur (runs pauser [Play] (new_Model pauser))))
                 (maxTime pauser)) by reflexivity.
  assert (H5 : ticksPerAnimation pauser = 1) by reflexivity.
  assert (H6 : delay pauser
               <= 16 - nullish (time (cur (runs pauser [Play] (new_Model pauser)))) 16)
    by (vm_compute; discriminate).
  do 6 (split; [assumption|]).
  destruct (pause_from_transition pauser _ 16 1 H1 H2 H3 H4 H5 H6 eq_refl)
    as (Ht & _ & Hp & _ & _ & _ & _ & Hq).
  split; [exact Ht|]. split; [exact Hp|]. rewrite Hq. reflexivity.
Defined.

(** ** Constructing a [CanvasModel] *)

(** X13: a [CanvasModel] is constructed only from a context.  With [ctx]
    given the constructor returns, bound to that context and to the
    context's own canvas (a [canvas] passed beside it is not looked at),
    with height and width defaulting to that canvas's; without [ctx] it
    throws in every case, also when a canvas is passed whose
    [getContext('2d')] succeeds. *)
Theorem CanvasModel_requires_ctx {T U} (allProps : CanvasProps)
    (props : ModelProps T U) :
  match prop_ctx allProps with
  | Some ctx =>
      new_CanvasModel allProps props =
      inr ({| this_ctx := ctx; this_canvas := ctx_canvas ctx;
              this_height :=
                nullish (prop_height allProps) (canvas_height (ctx_canvas ctx));
              this_width :=
                nullish (prop_width allProps) (canvas_width (ctx_canvas ctx)) |},
           new_Model props)
  | None =>
      new_CanvasModel allProps props =
      inl (match prop_canvas allProps with
           | None => "Neither context nor canvas provided"
           | Some canvas =>
               if has_context2d canvas then "Cannot resolve 2d context."
               else "Couldn't get 2d context from canvas"
           end)%string
  end.
Proof.
  unfold new_CanvasModel, getContext.
  destruct (prop_ctx allProps) as [ctx|]; [reflexivity|].
  destruct (prop_canvas allProps) as [canvas|]; [|reflexivity].
  destruct (has_context2d canvas); reflexivity.
Qed.

(** ** How far the tick can go *)

Section TickRange.

Context {T U : Type}.
Variable props : ModelProps T U.
Implicit Types (w : World T U).

Ltac kept := intros []; split; left; reflexivity.

Lemma ranged_modify state f w :
  in_step props f -> ranged props w -> ranged props (modify state f w).
Proof.
  intros Hf [Hthis Hall]. split; [exact Hthis|].
  intros a Ha. rewrite records_modify. destruct (decide (state = a)) as [->|]; [|auto].
  destruct (Hall a Ha) as [H1 H2].
  destruct (Hf (records w a)) as [[->|?] [->|?]]; auto.
Qed.

Lemma ranged_stopAndCancelTimer state w :
  ranged props w -> ranged props (stopAndCancelTimer state w).
Proof.
  intros H. unfold stopAndCancelTimer. destruct (truthy _); [|exact H].
  apply ranged_modify; [kept|exact H].
Qed.

Lemma ranged_checkCanPlay t m state w :
  ranged props w -> ranged props (checkCanPlay t m state w).2.
Proof.
  intros H. unfold checkCanPlay. destruct (_ || _); simpl; [|exact H].
  do 2 (apply ranged_modify; [kept|]). exact H.
Qed.

Lemma reset_ticks state w :
  tick (records (reset props state w).2 (next_record w)) = initialTick props /\
  maxTick (records (reset props state w).2 (next_record w)) = initialTick props.
Proof.
  unfold reset, new_record, new_object. simpl.
  destruct (records w <$> state) as [s|]; [destruct (clearsDataCacheOnReset props)|];
    simpl; rewrite fn_lookup_insert; split; reflexivity.
Qed.

Lemma ranged_reset state w :
  ranged props w ->
  ranged props (reset props state w).2 /\
  ranged props (set_this_state (reset props state w).1 (reset props state w).2).
Proof.
  intros [Hthis Hall].
  destruct (reset_frame props state w) as (_ & _ & R3 & R4 & R5 & R6).
  destruct (reset_ticks state w) as [K1 K2].
  assert (Hrec : forall a, (a < S (next_record w))%nat ->
            in_range props (tick (records (reset props state w).2 a)) /\
            in_range props (maxTick (records (reset props state w).2 a))).
  { intros a Ha. destruct (decide (a = next_record w)) as [->|Hne].
    - rewrite K1, K2. split; left; lia.
    - rewrite R6 by exact Hne. apply Hall. lia. }
  split; (split; [|simpl; rewrite R5; exact Hrec]).
  - rewrite R3, R5. lia.
  - simpl. rewrite R4, R5. lia.
Qed.

Lemma ranged_stop w : ranged props w -> ranged props (stop props w).
Proof.
  intros H. unfold stop. cbv zeta.
  set (w2 := modify _ _ _).
  assert (H2 : ranged props w2).
  { unfold w2. apply ranged_modify; [kept|]. apply ranged_stopAndCancelTimer, H. }
  clearbody w2.
  destruct (ranged_reset (Some (this_state w2)) w2 H2) as [_ H3].
  destruct (reset props _ _); exact H3.
Qed.

Lemma ranged_pause w : ranged props w -> ranged props (pause w).
Proof.
  intros H. unfold pause. apply ranged_modify; [kept|].
  apply ranged_stopAndCancelTimer, H.
Qed.

Lemma ranged_complete result state w :
  ranged props w -> ranged props (complete props result state (stop props) w).
Proof.
  intros H. unfold complete. apply ranged_stop, ranged_modify; [kept|].
  destruct (0 <? _); [|exact H].
  destruct (_ <? _); repeat (apply ranged_modify; [kept|]); exact H.
Qed.

Lemma ranged_invokes state calls w :
  ranged props w ->
  ranged props (foldl (fun w c => invoke props state (stop props) pause c w) w calls).
Proof.
  revert w. induction calls as [|c calls IH]; intros w H; simpl; [exact H|].
  apply IH. destruct c; simpl.
  - apply ranged_complete, H.
  - apply ranged_stop, H.
  - apply ranged_pause, H.
Qed.

Lemma ranged_cacheTick state t d w :
  in_range props t -> ranged props w -> ranged props (cacheTick props state t d w).
Proof.
  intros Ht [Hthis Hall].
  destruct (cacheTick_next props state t d w) as [Hn _].
  split; [rewrite cacheTick_this, Hn; exact Hthis|].
  intros a Ha. rewrite Hn in Ha. rewrite cacheTick_records.
  destruct (decide (state = a)) as [->|]; [|auto].
  destruct (Hall a Ha) as [H1 H2].
  unfold cache_record. destruct (0 <? _); [|auto].
  cbv zeta. destruct (_ <=? _); [auto|].
  destruct (truthy _); auto.
Qed.

(** The loop: a tick is written only after the check passed on the tick
    before it. *)
Lemma ranged_stepping n shouldStop state : forall t d w,
  ranged props w ->
  ranged props (stepping props n shouldStop state (stop props) pause render t d w).
Proof.
  induction n as [|n IH]; intros t d w H; simpl; [exact H|].
  destruct (checkCanPlay t (maxTime props) state w) as [ok w1] eqn:Hc.
  pose proof (ranged_checkCanPlay t (maxTime props) state w H) as H1.
  rewrite Hc in H1. simpl in H1.
  destruct ok; [|exact H1].
  apply checkCanPlay_true in Hc as (-> & _ & Hin).
  assert (Ht : in_range props (t + 1)).
  { right. unfold within. replace (t + 1 - 1) with t by lia. exact Hin. }
  destruct (updateData props _) as [d' calls].
  apply IH. unfold render.
  assert (Hr : forall a w', ranged props w' -> ranged props (log_render a w'))
    by (intros a w' Hw; exact Hw).
  apply Hr.
  assert (H4 : ranged props
                 (modify state (set_tick (t + 1))
                    (modify state (set_data d')
                       (cacheTick props state (t + 1) d'
                          (foldl (fun w c => invoke props state (stop props) pause c w)
                             (log_update
                                {| arg_cachedData := objects w (cachedData (records w state));
                                   arg_data := d; arg_tick := t + 1;
                                   arg_params := params (records w state) |} w)
                             calls))))).
  { apply ranged_modify; [intros []; split; [right; exact Ht|left; reflexivity]|].
    apply ranged_modify; [kept|].
    apply ranged_cacheTick; [exact Ht|].
    apply ranged_invokes. exact H. }
  destruct shouldStop; [apply ranged_modify; [kept|]|]; exact H4.
Qed.

Lemma ranged_updateToTick target shouldStop state w :
  ranged props w ->
  ranged props (updateToTick props target shouldStop state (stop props) pause render w).
Proof.
  intros H. unfold updateToTick. destruct (bool_decide _); [exact H|].
  apply ranged_stepping, H.
Qed.

Lemma ranged_schedule w :
  ranged props w ->
  ranged props (let '(h, w) := requestAnimationFrame w in
                modify (this_state w) (set_timer (Some h)) w).
Proof.
  intros H. unfold requestAnimationFrame. apply ranged_modify; [kept|exact H].
Qed.

Lemma ranged_advance timestamp w :
  ranged props w -> ranged props (advance props timestamp w).
Proof.
  intros H. unfold advance.
  pose proof (ranged_checkCanPlay (tick (cur w)) (maxTime props) (this_state w) w H) as Hc.
  destruct (checkCanPlay _ _ _ w) as [[] w1]; simpl in Hc; [|exact Hc].
  cbv zeta.
  set (w2 := match time (cur w1) with
             | Some _ => w1
             | None => modify (this_state w1) (set_time (Some timestamp)) w1
             end).
  assert (H2 : ranged props w2).
  { unfold w2. destruct (time (cur w1)); [assumption|].
    apply ranged_modify; [kept|assumption]. }
  clearbody w2.
  set (w3 := if delay props <=? timestamp - nullish (time (cur w2)) 0 then _ else w2).
  assert (H3 : ranged props w3).
  { unfold w3. destruct (_ <=? _); [|assumption].
    apply ranged_updateToTick, ranged_modify; [kept|assumption]. }
  clearbody w3.
  destruct (isPlaying (cur w3)) as [[]|]; try assumption.
  destruct (truthy _); [apply (ranged_schedule (cancelAnimationFrame _ w3))
                       |apply ranged_schedule]; exact H3.
Qed.

Lemma ranged_run (o : Op T) w : ranged props w -> ranged props (run props o w).
Proof.
  intros H. destruct o; simpl.
  - unfold play. apply (ranged_schedule (modify _ _ w)).
    apply ranged_modify; [kept|exact H].
  - apply ranged_pause, H.
  - apply ranged_stop, H.
  - unfold setTick. apply ranged_updateToTick, ranged_stopAndCancelTimer, H.
  - unfold setParams. cbv zeta.
    assert (H1 : ranged props (modify (this_state w)
                      (fun s => set_params (updatedParams ∪ params s) s) w))
      by (apply ranged_modify; [kept|exact H]).
    destruct (resetsOnChange props); [|exact H1].
    destruct (ranged_reset (Some (this_state w)) _ H1) as [H2 _].
    rewrite this_state_modify.
    destruct (reset props _ _); exact H2.
  - unfold setData.
    apply ranged_modify; [intros []; split; [right; left; simpl; lia|left; reflexivity]|].
    apply ranged_modify; [kept|].
    apply ranged_stopAndCancelTimer, ranged_modify; [kept|exact H].
  - unfold frame. destruct (pending w); [exact H|].
    apply ranged_advance. exact H.
Qed.

Lemma ranged_runs (os : list (Op T)) w : ranged props w -> ranged props (runs props os w).
Proof.
  unfold runs. revert w. induction os as [|o os IH]; intros w H; simpl; [exact H|].
  apply IH, ranged_run, H.
Qed.

Lemma ranged_new_Model : ranged props (new_Model props).
Proof.
  unfold new_Model.
  destruct (reset_frame props None (boot props)) as (_ & _ & _ & R4 & R5 & _).
  destruct (reset_ticks None (boot props)) as [K1 K2].
  destruct (reset props None (boot props)) as [fresh w1].
  change (next_record (boot props)) with 0%nat in *. simpl in R4, R5, K1, K2.
  split; simpl; [rewrite R4, R5; lia|].
  intros a Ha. rewrite R5 in Ha. assert (a = 0%nat) as -> by lia.
  rewrite K1, K2. split; left; lia.
Qed.

End TickRange.

(** X15: the tick never runs more than one past [maxTime].  For an
    engine with a finite [maxTime], after every sequence of public
    operations and clock callbacks, whatever the transition function
    returns and signals, the tick is at most [maxTime + 1] (or
    [initialTick], when that is larger). *)
Theorem tick_stays_in_range {T U} (props : ModelProps T U) (os : list (Op T)) (m : Z) :
  maxTime props = Finite m ->
  tick (cur (runs props os (new_Model props))) <= Z.max (initialTick props) (m + 1).
Proof.
  intros Hmax.
  destruct (ranged_runs props os _ (ranged_new_Model props)) as [Hthis Hall].
  destruct (Hall _ Hthis) as [[H|H] _]; fold (cur (runs props os (new_Model props))) in H.
  - lia.
  - unfold within, exceeds in H. rewrite Hmax in H.
    apply Z.ltb_ge in H. lia.
Qed.

Lemma tick_stays_in_range_witness :
  maxTime incrementer = Finite 10 /\
  tick (cur (runs incrementer [Play; Frame 0; SetTick 40; Frame 16; SetTick 50]
               (new_Model incrementer))) <= 11.
Proof.
  split; [reflexivity|].
  exact (tick_stays_in_range incrementer
           [Play; Frame 0; SetTick 40; Frame 16; SetTick 50] 10 eq_refl).
Defined.

(** ** A stop requested by the transition function *)

Section Detached.

Context {T U : Type}.
Variable props : ModelProps T U.
Implicit Types (w : World T U).

(** The loop on a record the engine is no longer bound to, while that
    record can play and the transition function signals nothing. *)
Lemma stepping_detached n shouldStop state : forall t d w,
  this_state w <> state ->
  canPlay (records w state) = true ->
  (forall i, (i < n)%nat -> within (t + Z.of_nat i) (maxTime props)) ->
  (forall a, t < arg_tick a -> (updateData props a).2 = []) ->
  let w' := stepping props n shouldStop state (stop props) pause render t d w in
  exists calls renders,
    updated w' = updated w ++ calls /\
    map arg_tick calls = map (fun i => t + 1 + Z.of_nat i) (seq 0 n) /\
    rendered w' = rendered w ++ renders /\
    length renders = n /\
    Forall (shows (tick (cur w)) (data (cur w))) renders /\
    cur w' = cur w.
Proof.
  induction n as [|n IH]; intros t d w Hne Hcan Hin Hquiet; cbv zeta.
  - exists [], []. simpl. rewrite !app_nil_r. repeat split; constructor.
  - simpl stepping.
    assert (H0 : within t (maxTime props)).
    { replace t with (t + Z.of_nat 0) by lia. apply Hin. lia. }
    rewrite checkCanPlay_ok; [|exact Hcan|exact H0].
    set (a := {| arg_cachedData := objects w (cachedData (records w state)); arg_data := d;
                 arg_tick := t + 1; arg_params := params (records w state) |}).
    pose proof (Hquiet a ltac:(simpl; lia)) as Hcalls.
    destruct (updateData props a) as [d' calls] eqn:Hupd. simpl in Hcalls. subst calls.
    simpl foldl.
    assert (Hnel : this_state (log_update a w) <> state) by exact Hne.
    destruct (iteration_unbound props shouldStop state (t + 1) d' (log_update a w) Hnel)
      as (I1 & I2 & I3 & I4 & I5 & _).
    cbv zeta in I1, I2, I3, I4, I5.
    set (w1 := render _) in *. clearbody w1.
    rewrite cur_log_update in I1, I5.
    assert (Hne1 : this_state w1 <> state) by (rewrite I2; exact Hne).
    assert (Hcan1 : canPlay (records w1 state) = true) by (rewrite I3; exact Hcan).
    assert (Hin1 : forall i, (i < n)%nat -> within (t + 1 + Z.of_nat i) (maxTime props)).
    { intros i Hi. replace (t + 1 + Z.of_nat i) with (t + Z.of_nat (S i)) by lia.
      apply Hin. lia. }
    assert (Hquiet1 : forall a, t + 1 < arg_tick a -> (updateData props a).2 = []).
    { intros a' Ha'. apply Hquiet. lia. }
    destruct (IH (t + 1) d' w1 Hne1 Hcan1 Hin1 Hquiet1)
      as (calls & renders & J1 & J2 & J3 & J4 & J5 & J6).
    cbv zeta in J1, J3, J6.
    exists (a :: calls),
      ({| arg_cachedData := objects w1 (cachedData (cur w1));
          arg_data := data (cur w); arg_tick := tick (cur w);
          arg_params := params (cur w) |} :: renders).
    rewrite J1, J3, J6, I4, I5, I1. unfold log_update. simpl.
    rewrite <- !app_assoc. simpl. rewrite J2, J4.
    repeat split.
    + f_equal; [lia|]. rewrite <- seq_shift, map_map. apply map_ext. intros i. lia.
    + constructor; [split; reflexivity|]. rewrite I1 in J5. exact J5.
Qed.

End Detached.

(** X16: [stop()] called by the transition function does not end a seek.
    On an engine that can play, [setTick(target)] to an uncached later
    tick, with a transition function that signals [stop()] on the first
    tick of the seek and nothing afterwards, still invokes the function
    on every tick up to the target and renders as many times; every one
    of these renders shows [initialTick] and [initData(params)], and
    that is where the engine is left, playable and not playing. *)
Theorem stop_does_not_end_seek {T U} (props : ModelProps T U) (w : World T U)
    (target : Z) :
  settled w ->
  canPlay (cur w) = true ->
  target ∉ cachedDataKeys (cur w) ->
  resume_tick (cur w) < target ->
  within (target - 1) (maxTime props) ->
  stops_at props (resume_tick (cur w) + 1) ->
  let n := Z.to_nat (target - resume_tick (cur w)) in
  let w' := setTick props target w in
  exists calls renders,
    updated w' = updated w ++ calls /\
    map arg_tick calls = map (fun i => resume_tick (cur w) + 1 + Z.of_nat i) (seq 0 n) /\
    rendered w' = rendered w ++ renders /\
    length renders = n /\
    Forall (shows (initialTick props) (initData props (params (cur w)))) renders /\
    tick (cur w') = initialTick props /\
    data (cur w') = initData props (params (cur w)) /\
    canPlay (cur w') = true /\ isPlaying (cur w') = Some false.
Proof.
  intros [_ Hal] Hcan Hnot Hlt Hmax Hstops. cbv zeta.
  unfold setTick.
  destruct (stopAndCancelTimer_frame (this_state w) w) as (Hobj & Hu & Hr & _ & Hrec).
  pose proof (stopAndCancelTimer_this (this_state w) w) as Hthis.
  pose proof (stopAndCancelTimer_next (this_state w) w) as Hnext.
  destruct (Hrec (this_state w)) as [v Hv]. fold (cur w) in Hv.
  set (w1 := stopAndCancelTimer (this_state w) w) in *. clearbody w1. clear Hrec.
  rewrite Hthis.
  unfold updateToTick. rewrite Hv. simpl.
  rewrite bool_decide_eq_false_2 by exact Hnot.
  fold (resume_tick (cur w)).
  destruct (Z.to_nat (target - resume_tick (cur w))) as [|m] eqn:Hm; [lia|].
  simpl stepping.
  assert (Hin0 : within (resume_tick (cur w)) (maxTime props)).
  { apply (exceeds_mono _ (target - 1)); [lia|exact Hmax]. }
  rewrite checkCanPlay_ok; [|rewrite Hv; exact Hcan|exact Hin0].
  rewrite Hv, Hobj. simpl.
  set (a := {| arg_cachedData := objects w (cachedData (cur w)); arg_data := data (cur w);
               arg_tick := resume_tick (cur w) + 1; arg_params := params (cur w) |}).
  pose proof (Hstops a) as Hcalls. simpl in Hcalls. rewrite Z.eqb_refl in Hcalls.
  destruct (updateData props a) as [d' calls] eqn:Hupd. simpl in Hcalls. subst calls.
  simpl foldl. unfold invoke.
  set (wl := log_update a w1).
  assert (Hl : cur wl = set_timer v (cur w) /\ this_state wl = this_state w /\
               next_record wl = next_record w /\
               updated wl = updated w ++ [a] /\ rendered wl = rendered w /\
               canPlay (records wl (this_state w)) = true).
  { unfold wl. rewrite cur_log_update. unfold cur at 1. rewrite Hthis, Hv.
    unfold log_update. simpl. rewrite Hthis, Hnext, Hu, Hr, Hv.
    repeat split; try reflexivity. exact Hcan. }
  clearbody wl. destruct Hl as (L1 & L2 & L3 & L4 & L5 & L6).
  destruct (stop_fields props wl)
    as ((F1 & _ & F3 & _ & F5 & F6 & _ & _ & _ & _ & _ & F12 & F13) & G1 & _ & G3).
  cbv zeta in *.
  assert (Hne : this_state (stop props wl) <> this_state w).
  { rewrite G1, L3. lia. }
  assert (Hold : canPlay (records (stop props wl) (this_state w)) = true).
  { rewrite G3; [exact L6|]. rewrite L3. lia. }
  set (ws := stop props wl) in *. clearbody ws.
  destruct (iteration_unbound props true (this_state w) (resume_tick (cur w) + 1) d' ws Hne)
    as (I1 & I2 & I3 & I4 & I5 & _).
  cbv zeta in I1, I2, I3, I4, I5.
  set (w6 := render _) in *. clearbody w6.
  assert (Hne6 : this_state w6 <> this_state w) by (rewrite I2; exact Hne).
  assert (Hold6 : canPlay (records w6 (this_state w)) = true) by (rewrite I3; exact Hold).
  assert (Hin : forall i, (i < m)%nat ->
                  within (resume_tick (cur w) + 1 + Z.of_nat i) (maxTime props)).
  { intros i Hi. apply (exceeds_mono _ (target - 1)); [lia|exact Hmax]. }
  assert (Hquiet : forall a', resume_tick (cur w) + 1 < arg_tick a' ->
                              (updateData props a').2 = []).
  { intros a' Ha'. rewrite (Hstops a').
    destruct (Z.eqb_spec (arg_tick a') (resume_tick (cur w) + 1)); [lia|reflexivity]. }
  destruct (stepping_detached props m true (this_state w) (resume_tick (cur w) + 1) d' w6
              Hne6 Hold6 Hin Hquiet)
    as (calls & renders & J1 & J2 & J3 & J4 & J5 & J6).
  cbv zeta in J1, J3, J6.
  rewrite I1 in I5.
  exists (a :: calls),
    ({| arg_cachedData := objects w6 (cachedData (cur ws));
        arg_data := data (cur ws); arg_tick := tick (cur ws);
        arg_params := params (cur ws) |} :: renders).
  rewrite J1, J3, J6, I1, I4, I5, F12, F13, L4, L5, F1, F3, F5, F6, L1.
  rewrite <- !app_assoc. simpl. rewrite J2, J4.
  rewrite I1, F1, F3, L1 in J5. simpl in J5.
  repeat split.
  - f_equal; [lia|]. rewrite <- seq_shift, map_map. apply map_ext. intros i. lia.
  - constructor; [split; reflexivity|exact J5].
Qed.

Lemma stop_does_not_end_seek_witness :
  let w := new_Model stopper in
  settled w /\ canPlay (cur w) = true /\ (4 ∉ cachedDataKeys (cur w)) /\
  resume_tick (cur w) < 4 /\ within (4 - 1) (maxTime stopper) /\
  stops_at stopper (resume_tick (cur w) + 1) /\
  length (updated (setTick stopper 4 w)) = 4%nat /\
  tick (cur (setTick stopper 4 w)) = 0.
Proof.
  assert (H1 : settled (new_Model stopper)).
  { split; vm_compute; [reflexivity|lia]. }
  assert (H2 : canPlay (cur (new_Model stopper)) = true) by reflexivity.
  assert (H3 : 4 ∉ cachedDataKeys (cur (new_Model stopper))).
  { change (cachedDataKeys (cur (new_Model stopper))) with (∅ : gset Z). set_solver. }
  assert (H4 : resume_tick (cur (new_Model stopper)) < 4) by reflexivity.
  assert (H5 : within (4 - 1) (maxTime stopper)) by reflexivity.
  assert (H6 : stops_at stopper (resume_tick (cur (new_Model stopper)) + 1)).
  { intros a. reflexivity. }
  do 6 (split; [assumption|]).
  destruct (stop_does_not_end_seek stopper (new_Model stopper) 4 H1 H2 H3 H4 H5 H6)
    as (calls & renders & Hu & Hc & _ & _ & _ & Ht & _).
  split; [|exact Ht].
  rewrite Hu, length_app, <- (length_map arg_tick calls), Hc, length_map, length_seq.
  reflexivity.
Defined.
